(** * Per-position CDR3 entropy of shared and unshared clonotypes

    A shallow embedding of the notebook
    [data_processing/11_shared-clonotype-properties.ipynb]:
    [get_sequences] (pool construction and down-selection),
    [calculate_entropies] and [entropy].

    Conventions of the embedding.
    - The notebook runs on the Python 3.6 kernel named in its metadata.
    - A Python [str] is a [string]; a tuple of residues is a [list ascii].
    - A [dict] is an association list in insertion order, because
      [calculate_entropies] walks [seq_dict.keys()] and the order of the
      emitted rows follows it.
    - [Counter(residues).values()] is a [dict_values] view, not a list.
      [np.asarray] with [dtype=np.float64] does not take it for a sequence
      and tries to convert it to one float, which raises [TypeError].
    - The [np.float64] arithmetic of [entropy] below that conversion is
      written over the real numbers ([R]); no statement depends on it,
      since the only value [entropy] returns is the literal [0.].
    - Exceptions are values of [exn]; the global generator behind
      [np.random.choice] is a state threaded through the calls. *)

From Stdlib Require Import Reals Lia ZArith Bool PeanoNat.
From Stdlib Require Import String Ascii List Permutation DecimalNat.
Import ListNotations.

Local Open Scope string_scope.
Local Open Scope list_scope.
Local Open Scope nat_scope.

(** ** Python values used by the notebook *)

(** The exceptions the modelled code can raise. *)
Inductive exn : Type := ValueError | IndexError | KeyError | TypeError.

Inductive outcome (A : Type) : Type :=
| Return : A -> outcome A
| Raise : exn -> outcome A.
Arguments Return {A} _.
Arguments Raise {A} _.

Definition obind {A B : Type} (m : outcome A) (k : A -> outcome B) : outcome B :=
  match m with
  | Return a => k a
  | Raise e => Raise e
  end.

Notation "x <-! m ;; k" := (obind m (fun x => k))
  (at level 61, m at next level, right associativity).

(** [try: body / except IndexError: handler] *)
Definition except_IndexError {A : Type} (body : outcome A) (handler : outcome A)
  : outcome A :=
  match body with
  | Raise IndexError => handler
  | other => other
  end.

(** ** Residue counting: [collections.Counter] *)

(** [d[x] = d.get(x, 0) + 1] on an insertion-ordered dictionary. *)
Fixpoint counter_add (x : ascii) (d : list (ascii * nat)) : list (ascii * nat) :=
  match d with
  | [] => [(x, 1)]
  | (y, c) :: d' =>
      if Ascii.eqb x y then (y, S c) :: d' else (y, c) :: counter_add x d'
  end.

(** [Counter(residues)]: the elements are counted one after the other. *)
Definition Counter (residues : list ascii) : list (ascii * nat) :=
  fold_left (fun d x => counter_add x d) residues [].

Definition keys {K V : Type} (d : list (K * V)) : list K := map fst d.

(** The counts of a dictionary, in the order of its keys. *)
Definition values {K V : Type} (d : list (K * V)) : list V := map snd d.

(** ** [entropy] *)

(** What [np.asarray] is handed: a list of integers, or the view that
    [d.values()] is in Python 3. *)
Inductive array_like : Type :=
| py_list : list nat -> array_like
| dict_values : list nat -> array_like.

(** [np.asarray(a, dtype=np.float64)]: a list is converted item by item;
    a view is no sequence for numpy, which then calls [float] on the view
    itself. *)
Definition np_asarray_float64 (a : array_like) : outcome (list R) :=
  match a with
  | py_list items => Return (map INR items)
  | dict_values _ => Raise TypeError
  end.

Definition is_zero (c : R) : bool := if Req_dec_T c 0 then true else false.

(** [counts[np.nonzero(counts)]] *)
Definition np_nonzero (counts : list R) : list R :=
  filter (fun c => negb (is_zero c)) counts.

Definition np_sum (xs : list R) : R := fold_right Rplus 0%R xs.

Definition entropy (residues : list ascii) : outcome R :=
  let n_residues := length residues in
  if n_residues <=? 1 then Return 0%R
  else
    counts <-! np_asarray_float64 (dict_values (values (Counter residues))) ;;
    let probs := map (fun c => (c / INR n_residues)%R) (np_nonzero counts) in
    let n_classes := length probs in
    if n_classes <=? 1 then Return 0%R
    else
      Return
        (- np_sum (map (fun p => (p * ln p)%R) probs) / ln (INR n_classes))%R.

(** *** Dictionaries in insertion order *)

Section Dict.
Context {K V : Type} (eqb : K -> K -> bool).

Fixpoint dict_get (d : list (K * V)) (k : K) : outcome V :=
  match d with
  | [] => Raise KeyError
  | (k', v) :: d' => if eqb k k' then Return v else dict_get d' k
  end.

Fixpoint dict_set (d : list (K * V)) (k : K) (v : V) : list (K * V) :=
  match d with
  | [] => [(k, v)]
  | (k', v') :: d' =>
      if eqb k k' then (k', v) :: d' else (k', v') :: dict_set d' k v
  end.
End Dict.

(** Buckets by CDR3 length, and the two of them by sharing class. *)
Definition length_dict : Type := list (nat * list string).
Definition pools : Type := list (string * length_dict).

(** [d[s][l]] *)
Definition pools_get (d : pools) (s : string) (l : nat) : outcome (list string) :=
  by_length <-! dict_get String.eqb d s ;;
  dict_get Nat.eqb by_length l.

(** [d[s][l] = v] *)
Definition pools_set (d : pools) (s : string) (l : nat) (v : list string)
  : outcome pools :=
  by_length <-! dict_get String.eqb d s ;;
  Return (dict_set String.eqb d s (dict_set Nat.eqb by_length l v)).

(** [d[s][l].append(aa)] *)
Definition pools_append (d : pools) (s : string) (l : nat) (aa : string)
  : outcome pools :=
  by_length <-! dict_get String.eqb d s ;;
  bucket <-! dict_get Nat.eqb by_length l ;;
  Return (dict_set String.eqb d s (dict_set Nat.eqb by_length l (bucket ++ [aa]))).

(** *** Strings: [strip], [split], [int], indexing, [range] *)

(** The ASCII characters for which [str.isspace] holds. *)
Definition is_space (c : ascii) : bool :=
  let n := nat_of_ascii c in
  ((9 <=? n) && (n <=? 13)) || ((28 <=? n) && (n <=? 32)).

Fixpoint lstrip (cs : list ascii) : list ascii :=
  match cs with
  | c :: cs' => if is_space c then lstrip cs' else cs
  | [] => []
  end.

Definition strip (s : string) : string :=
  string_of_list_ascii
    (rev (lstrip (rev (lstrip (list_ascii_of_string s))))).

(** [word] holds, in reverse, the characters of the field being read. *)
Fixpoint split_from (cs word : list ascii) : list (list ascii) :=
  match cs with
  | [] => match word with [] => [] | _ => [rev word] end
  | c :: cs' =>
      if is_space c
      then match word with
           | [] => split_from cs' []
           | _ => rev word :: split_from cs' []
           end
      else split_from cs' (c :: word)
  end.

(** [s.split()]: the fields between runs of whitespace. *)
Definition split (s : string) : list string :=
  map string_of_list_ascii (split_from (list_ascii_of_string s) []).

Definition digit_of (c : ascii) : option Z :=
  let n := nat_of_ascii c in
  if (48 <=? n) && (n <=? 57) then Some (Z.of_nat (n - 48)) else None.

(** Decimal digits; as in the Python 3.6 of the notebook's kernel, a
    single underscore is allowed between two digits. *)
Fixpoint digits_value (cs : list ascii) (acc : Z) (after_digit : bool)
  : option Z :=
  match cs with
  | [] => if after_digit then Some acc else None
  | c :: cs' =>
      if Ascii.eqb c "_"
      then if after_digit then digits_value cs' acc false else None
      else match digit_of c with
           | Some d => digits_value cs' (10 * acc + d)%Z true
           | None => None
           end
  end.

(** [int(s)] on a field without surrounding whitespace. *)
Definition int (s : string) : outcome Z :=
  let parsed :=
    match list_ascii_of_string s with
    | "-"%char :: cs => option_map Z.opp (digits_value cs 0%Z false)
    | "+"%char :: cs => digits_value cs 0%Z false
    | cs => digits_value cs 0%Z false
    end in
  match parsed with
  | Some z => Return z
  | None => Raise ValueError
  end.

(** [xs[i]] for a non-negative literal index. *)
Definition index {A : Type} (xs : list A) (i : nat) : outcome A :=
  match nth_error xs i with
  | Some x => Return x
  | None => Raise IndexError
  end.

(** [c in range(lo, hi)] on integers. *)
Definition in_range (lo hi c : Z) : bool := ((lo <=? c) && (c <? hi))%Z.

(** [xs[start:stop]] with Python's treatment of negative and
    out-of-range bounds. *)
Definition slice_bound (len i : Z) : Z :=
  if (i <? 0)%Z then Z.max (len + i) 0 else Z.min i len.

Definition slice {A : Type} (xs : list A) (start stop : Z) : list A :=
  let len := Z.of_nat (length xs) in
  let lo := slice_bound len start in
  let hi := slice_bound len stop in
  firstn (Z.to_nat (hi - lo)) (skipn (Z.to_nat lo) xs).

(** *** [zip] of the unpacked sequences: the transposition *)

(** The next item of every iterator, or [None] when one is exhausted. *)
Fixpoint heads (seqs : list (list ascii)) : option (list ascii) :=
  match seqs with
  | [] => Some []
  | [] :: _ => None
  | (c :: _) :: rest => option_map (cons c) (heads rest)
  end.

Fixpoint zip_rounds (rounds : nat) (seqs : list (list ascii))
  : list (list ascii) :=
  match rounds with
  | 0 => []
  | S rounds' =>
      match heads seqs with
      | Some column => column :: zip_rounds rounds' (map (@tl ascii) seqs)
      | None => []
      end
  end.

(** [zip()] of no argument is empty; otherwise the first sequence is
    exhausted after [len] rounds, so that many rounds are enough. *)
Definition zip_star (seqs : list string) : list (list ascii) :=
  match seqs with
  | [] => []
  | first :: _ =>
      zip_rounds (String.length first) (map list_ascii_of_string seqs)
  end.

(** ** [get_sequences]: reading the pools of one file *)

(** [range(7, 15)] as a list. *)
Definition cdr3_lengths : list nat := seq 7 8.

(** [{'shared': {i: [] for i in range(7, 15)}, 'unshared': {...}}] *)
Definition empty_pools : pools :=
  [ ("shared", map (fun i => (i, [])) cdr3_lengths);
    ("unshared", map (fun i => (i, [])) cdr3_lengths) ].

(** The body of [for line in f]: the pools after the line, or the
    exception that leaves the loop. *)
Definition pool_line (seqs : pools) (line : string) : outcome pools :=
  let sline := split (strip line) in
  match sline with
  | [] => Return seqs
  | _ =>
      except_IndexError
        (field0 <-! index sline 0 ;;
         c <-! int field0 ;;
         let classified :=
           if (c =? 1)%Z then Some "unshared"
           else if in_range 6 11 c then Some "shared"
           else None in
         match classified with
         | None => Return seqs
         | Some s =>
             aa <-! index sline 3 ;;
             let l := String.length aa in
             if negb (in_range 7 15 (Z.of_nat l)) then Return seqs
             else pools_append seqs s l aa
         end)
        (Return seqs)
  end.

(** [for line in f: ...] *)
Fixpoint pool_lines (seqs : pools) (lines : list string) : outcome pools :=
  match lines with
  | [] => Return seqs
  | line :: rest => seqs' <-! pool_line seqs line ;; pool_lines seqs' rest
  end.

(** The pools of one file: what the first loop stores in
    [all_seqs[seq_type]]. *)
Definition build_pools (lines : list string) : outcome pools :=
  pool_lines empty_pools lines.

(** [min(ns)] for a list that is not empty. *)
Definition min_list (ns : list nat) : nat :=
  fold_right Nat.min (hd 0 ns) ns.

(** [['shared', 'unshared']] *)
Definition sharing_classes : list string := ["shared"; "unshared"].

(** [[len(all_seqs[seq_type][t][length]) for t in classes]] *)
Fixpoint bucket_sizes (all : pools) (length : nat) (classes : list string)
  : outcome (list nat) :=
  match classes with
  | [] => Return []
  | t :: classes' =>
      s <-! pools_get all t length ;;
      sizes <-! bucket_sizes all length classes' ;;
      Return (List.length s :: sizes)
  end.

(** ** The rows of [calculate_entropies] *)

(** One row of [edata]. *)
Record row : Type := mk_row {
  sample : string;
  seq_type : string;
  Shannon_entropy : R;
  CDR3_length : nat;
  shared : string
}.

(** ['{} ({})'.format(seq_type, s)] *)
Definition sample_label (seq_type s : string) : string :=
  seq_type ++ " (" ++ s ++ ")".

(** ** The notebook's functions

    The only state shared between calls is the generator of [np.random].
    [G] is the type of its states and [choice s n g] stands for
    [np.random.choice(s, size=n, replace=False)] run in state [g]: the
    sample and the state the generator is left in.  Every function of the
    notebook is a computation [py A]: from a generator state to an outcome
    and the next generator state. *)

Section Notebook.
Variable G : Type.
Variable choice : list string -> nat -> G -> list string * G.

Definition py (A : Type) : Type := G -> outcome A * G.

Definition ret {A : Type} (a : A) : py A := fun g => (Return a, g).

Definition lift {A : Type} (o : outcome A) : py A := fun g => (o, g).

Definition bind {A B : Type} (m : py A) (k : A -> py B) : py B :=
  fun g =>
    match m g with
    | (Return a, g') => k a g'
    | (Raise e, g') => (Raise e, g')
    end.

Notation "x <- m ;; k" := (bind m (fun x => k))
  (at level 61, m at next level, right associativity).

(** [for x in xs: body], the variables the body updates being [acc]. *)
Fixpoint for_each {X S : Type} (xs : list X) (body : X -> S -> py S) (acc : S)
  : py S :=
  match xs with
  | [] => ret acc
  | x :: xs' => acc' <- body x acc ;; for_each xs' body acc'
  end.

(** *** [get_sequences]: the down-selection and the whole function *)

Definition np_random_choice (s : list string) (size : nat) : py (list string) :=
  fun g => let (sample, g') := choice s size g in (Return sample, g').

(** The body of [for shared_type in ['shared', 'unshared']]. *)
Definition downselect_bucket (all : pools) (length num_seqs : nat)
    (shared_type : string) (selected : pools) : py pools :=
  s <- lift (pools_get all shared_type length) ;;
  s' <- (if num_seqs <? List.length s then np_random_choice s num_seqs
         else ret s) ;;
  lift (pools_set selected shared_type length s').

(** The body of [for length in range(7, 15)]. *)
Definition downselect_length (all : pools) (length : nat) (selected : pools)
  : py pools :=
  sizes <- lift (bucket_sizes all length sharing_classes) ;;
  let num_seqs := min_list sizes in
  for_each sharing_classes
    (fun shared_type => downselect_bucket all length num_seqs shared_type)
    selected.

(** [for length in range(7, 15)], filling the selection of one dataset. *)
Definition downselect (all selected : pools) : py pools :=
  for_each cdr3_lengths (downselect_length all) selected.

(** The down-selection of one dataset, starting from the selection
    [{'shared': {}, 'unshared': {}}] it is given in [selected_seqs]:
    shared and unshared pools of the same size at every length. *)
Definition balance_pools (all : pools) : py pools :=
  downselect all [("shared", []); ("unshared", [])].

(** [seq_files] gives, for each dataset, the lines of its file. *)
Definition get_sequences (seq_files : list (string * list string))
  : py (list (string * pools) * list (string * pools)) :=
  all_seqs <-
    for_each seq_files
      (fun entry all_seqs =>
         seqs <- lift (build_pools (snd entry)) ;;
         ret (dict_set String.eqb all_seqs (fst entry) seqs))
      [] ;;
  let selected_seqs :=
    map (fun entry => (fst entry, [("shared", []); ("unshared", [])]))
      all_seqs in
  selected_seqs <-
    for_each ["observed"; "subject-specific synthetic"]
      (fun seq_type selected_seqs =>
         all <- lift (dict_get String.eqb all_seqs seq_type) ;;
         selected <- lift (dict_get String.eqb selected_seqs seq_type) ;;
         selected' <- downselect all selected ;;
         ret (dict_set String.eqb selected_seqs seq_type selected'))
      selected_seqs ;;
  ret (all_seqs, selected_seqs).

(** *** [calculate_entropies]

    The argument [seq_type] of the source is [t] here, [seq_type] being
    a field of the rows. *)

(** The body of [for residues in list(zip(...))[3:-3]]. *)
Definition append_row (t s : string) (l : nat) (residues : list ascii)
    (edata : list row) : py (list row) :=
  e <- lift (entropy residues) ;;
  ret (edata ++ [mk_row (sample_label t s) t e l s]).

(** The body of [for l in seq_dict[s].keys()]. *)
Definition bucket_rows (t s : string) (entry : nat * list string)
    (edata : list row) : py (list row) :=
  let (l, seqs) := entry in
  for_each (slice (zip_star seqs) 3 (-3)) (append_row t s l) edata.

Definition calculate_entropies (seq_dict : pools) (t : string)
  : py (list row) :=
  for_each seq_dict
    (fun group edata =>
       for_each (snd group) (bucket_rows t (fst group)) edata)
    [].
End Notebook.

Arguments ret {G A} _ _.

(** ** Vocabulary of the statements *)

(** A generator for running the model on examples: the sample is the
    first [n] sequences and the state counts the draws. *)
Definition first_choice (s : list string) (n : nat) (g : nat)
  : list string * nat :=
  (firstn n s, S g).

(** [sample] holds [n] entries of [population] taken at pairwise
    different positions: a draw without replacement. *)
Definition drawn_without_replacement (population : list string) (n : nat)
    (sample : list string) : Prop :=
  exists positions : list nat,
    NoDup positions /\
    List.length positions = n /\
    (forall i, In i positions -> i < List.length population) /\
    sample = map (fun i => nth i population EmptyString) positions.

(** What is required of [np.random.choice(s, size=n, replace=False)]
    when the population holds at least [n] sequences. *)
Definition samples_without_replacement {G : Type}
    (choice : list string -> nat -> G -> list string * G) : Prop :=
  forall s n g, n <= List.length s ->
    drawn_without_replacement s n (fst (choice s n g)).

(** Dictionaries have one entry per key, at both levels. *)
Definition unique_keys (d : pools) : Prop :=
  NoDup (keys d) /\ forall s by_length, In (s, by_length) d -> NoDup (keys by_length).

(** Both sharing classes hold a bucket for every length of 7 to 14. *)
Definition has_all_buckets (d : pools) : Prop :=
  forall s l, In s sharing_classes -> In l cdr3_lengths ->
    exists bucket, pools_get d s l = Return bucket.

(** The rows of a table that belong to one (class, length) bucket. *)
Definition rows_for (s : string) (l : nat) (table : list row) : list row :=
  filter (fun r => String.eqb (shared r) s && Nat.eqb (CDR3_length r) l) table.

(** The residues at position [i] of every sequence of a bucket. *)
Definition column (i : nat) (seqs : list string) : list ascii :=
  map (fun aa => nth i (list_ascii_of_string aa) zero) seqs.

(** The fields of a line, and the two ways a line can be ill-formed. *)
Definition fields (line : string) : list string := split (strip line).

Definition too_few_fields (line : string) : Prop :=
  List.length (fields line) < 4.

Definition non_numeric_tag (line : string) : Prop :=
  exists tag rest, fields line = tag :: rest /\ int tag = Raise ValueError.

Definition numeric_tag_or_blank (line : string) : Prop :=
  match fields line with
  | [] => True
  | tag :: _ => exists c, int tag = Return c
  end.

(** The classification of a tag: 1 is unshared, 6 to 10 is shared. *)
Definition classify (c : Z) : option string :=
  if (c =? 1)%Z then Some "unshared"
  else if ((6 <=? c) && (c <=? 10))%Z then Some "shared"
  else None.

(** The buckets that hold at least one sequence. *)
Definition non_empty_buckets (d : pools) : list (string * nat * list string) :=
  flat_map
    (fun group =>
       flat_map
         (fun entry =>
            match snd entry with
            | [] => []
            | _ => [(fst group, fst entry, snd entry)]
            end)
         (snd group))
    d.

(** The columns [calculate_entropies] takes the entropy of:
    [list(zip(...))[3:-3]] of the sequences of a bucket. *)
Definition interior_columns (seqs : list string) : list (list ascii) :=
  slice (zip_star seqs) 3 (-3).

(** The columns on which [entropy] reaches the conversion of the counts,
    the buckets that have such a column among those visited, and the
    dictionaries that have such a bucket. *)
Definition converts_counts (residues : list ascii) : bool :=
  2 <=? List.length residues.

Definition bucket_converts_counts (seqs : list string) : bool :=
  existsb converts_counts (interior_columns seqs).

Definition pools_convert_counts (seq_dict : pools) : bool :=
  existsb
    (fun group =>
       existsb (fun entry => bucket_converts_counts (snd entry)) (snd group))
    seq_dict.

(** The rows one bucket contributes when [entropy] returns on each of
    its columns, which it does with 0 only; and the table as the
    concatenation of the contributions in the order of the dictionary. *)
Definition rows_of_bucket (t s : string) (l : nat) (seqs : list string)
  : list row :=
  map (fun _ => mk_row (sample_label t s) t 0%R l s) (interior_columns seqs).

Definition entropy_table (seq_dict : pools) (t : string) : list row :=
  flat_map
    (fun group =>
       flat_map
         (fun entry => rows_of_bucket t (fst group) (fst entry) (snd entry))
         (snd group))
    seq_dict.

(** The size of a bucket, and the smaller of the two sizes at a length. *)
Definition bucket_size (d : pools) (s : string) (l : nat) : nat :=
  match pools_get d s l with
  | Return bucket => List.length bucket
  | Raise _ => 0
  end.

Definition smallest_bucket (d : pools) (l : nat) : nat :=
  Nat.min (bucket_size d "shared" l) (bucket_size d "unshared" l).

(** Every sharing class is a key of the dictionary. *)
Definition has_classes (d : pools) : Prop :=
  forall s, In s sharing_classes ->
    exists by_length, dict_get String.eqb d s = Return by_length.

(** How [get_sequences] turns a bucket into the selected one, for
    the common size [n] of its length. *)
Definition downselected {G : Type}
    (choice : list string -> nat -> G -> list string * G)
    (n : nat) (bucket bucket' : list string) : Prop :=
  if n <? List.length bucket
  then exists g0, bucket' = fst (choice bucket n g0)
  else bucket' = bucket.

(** The pools of the balancing example: ten unshared and two shared
    sequences of length 7, one unshared and no shared sequence of
    length 8, nothing at the other lengths. *)
Definition example_pools : pools :=
  [ ("shared",
     (7, ["CASSLGT"; "CASSQGT"]) :: map (fun i => (i, [])) (seq 8 7));
    ("unshared",
     (7, ["CARDYWG"; "CARGYWG"; "CARSYWG"; "CARTYWG"; "CARAYWG";
          "CARVYWG"; "CARLYWG"; "CARIYWG"; "CARPYWG"; "CARFYWG"])
     :: (8, ["CARDYWGQ"]) :: map (fun i => (i, [])) (seq 9 6)) ].

(** ** Further vocabulary: the contents of the pools *)

(** The class and the sequence a line adds to the pools, if any: the
    class of its tag and its fourth field, when the tag is 1 or 6 to 10
    and the field has 7 to 14 residues. *)
Definition accepted (line : string) : option (string * string) :=
  match fields line with
  | tag :: _ :: _ :: aa :: _ =>
      match int tag with
      | Return c =>
          match classify c with
          | Some s =>
              if (7 <=? String.length aa) && (String.length aa <=? 14)
              then Some (s, aa) else None
          | None => None
          end
      | Raise _ => None
      end
  | _ => None
  end.

(** The sequences of a stream that belong to one bucket, in the order
    of the stream. *)
Definition bucket_of (lines : list string) (s : string) (l : nat)
  : list string :=
  flat_map
    (fun line =>
       match accepted line with
       | Some (s', aa) =>
           if String.eqb s' s && Nat.eqb (String.length aa) l then [aa] else []
       | None => []
       end)
    lines.

(** Every sequence stored under a length has that length. *)
Definition lengths_respected (d : pools) : Prop :=
  forall s by_length l bucket aa,
    In (s, by_length) d -> In (l, bucket) by_length -> In aa bucket ->
    String.length aa = l.

(** The layout [get_sequences] gives its pools: the two classes, each
    with the lengths 7 to 14, in this order. *)
Definition pools_layout (d : pools) : Prop :=
  keys d = sharing_classes /\
  forall s by_length, In (s, by_length) d -> keys by_length = cdr3_lengths.

(** The first loop of [get_sequences] without the generator: the
    pools of the files read so far, or the exception of the first file
    that cannot be read. *)
Fixpoint read_files (seq_files : list (string * list string))
    (all_seqs : list (string * pools)) : outcome (list (string * pools)) :=
  match seq_files with
  | [] => Return all_seqs
  | entry :: rest =>
      seqs <-! build_pools (snd entry) ;;
      read_files rest (dict_set String.eqb all_seqs (fst entry) seqs)
  end.

(** ** The cell that gathers the entropies of all datasets

    [entropy_data = []], then for every [seq_type] of [seq_dict.keys()]
    the rows of [calculate_entropies(seq_dict[seq_type], seq_type)] are
    added to it.  The data frame and the CSV file made of the list
    afterwards are not modelled. *)

Section EntropyCell.
Variable G : Type.

Definition entropy_data (seq_dict : list (string * pools)) : py G (list row) :=
  for_each G seq_dict
    (fun dataset entropy_data =>
       bind G (calculate_entropies G (snd dataset) (fst dataset))
         (fun entropies => ret (entropy_data ++ entropies)))
    [].
End EntropyCell.

(** * The counting notebooks

    A shallow embedding of [data_processing/10_shared-clonotype-frequency.ipynb]:
    the function [count_duplicates], the cells that sort files by their
    number of subjects, and the cell that computes the frequency of shared
    clonotypes.  A file is the list of its lines; what a function writes to
    a file is part of what it returns.  The progress bar and the process
    pool are not modelled. *)

(** ** More of Python's strings *)

(** [word] holds, in reverse, the characters of the piece being read. *)
Fixpoint split_on_from (sep : ascii) (cs word : list ascii)
  : list (list ascii) :=
  match cs with
  | [] => [rev word]
  | c :: cs' =>
      if Ascii.eqb c sep then rev word :: split_on_from sep cs' []
      else split_on_from sep cs' (c :: word)
  end.

(** [s.split(sep)] for a separator of one character. *)
Definition split_on (sep : ascii) (s : string) : list string :=
  map string_of_list_ascii (split_on_from sep (list_ascii_of_string s) []).

(** [os.path.basename(p)]: what follows the last slash. *)
Definition basename (p : string) : string :=
  last (split_on "/" p) "".

(** [sep.join(xs)] *)
Fixpoint join (sep : string) (xs : list string) : string :=
  match xs with
  | [] => ""
  | [x] => x
  | x :: rest => (x ++ sep ++ join sep rest)%string
  end.

Fixpoint uint_chars (d : Decimal.uint) : list ascii :=
  match d with
  | Decimal.Nil => []
  | Decimal.D0 d' => "0"%char :: uint_chars d'
  | Decimal.D1 d' => "1"%char :: uint_chars d'
  | Decimal.D2 d' => "2"%char :: uint_chars d'
  | Decimal.D3 d' => "3"%char :: uint_chars d'
  | Decimal.D4 d' => "4"%char :: uint_chars d'
  | Decimal.D5 d' => "5"%char :: uint_chars d'
  | Decimal.D6 d' => "6"%char :: uint_chars d'
  | Decimal.D7 d' => "7"%char :: uint_chars d'
  | Decimal.D8 d' => "8"%char :: uint_chars d'
  | Decimal.D9 d' => "9"%char :: uint_chars d'
  end.

(** [str(n)] for an integer that is not negative. *)
Definition str (n : nat) : string :=
  string_of_list_ascii (uint_chars (Nat.to_uint n)).

(** The strings ['\t'] and ['\n']. *)
Definition tab : string := String (ascii_of_nat 9) "".
Definition newline : string := String (ascii_of_nat 10) "".

(** [os.path.join(a, b)] *)
Definition path_join (a b : string) : string :=
  match b with
  | String "/" _ => b
  | _ =>
      match last (list_ascii_of_string a) "/"%char with
      | "/"%char => (a ++ b)%string
      | _ => (a ++ "/" ++ b)%string
      end
  end.

(** [len(os.path.basename(f).split('_')[0].split('-'))] is the number of
    subjects of a file; the pieces are their names. *)
Definition subject_prefix (file : string) : string :=
  hd "" (split_on "_" (basename file)).

Definition group_subjects (file : string) : list string :=
  split_on "-" (subject_prefix file).

(** The lines a file with the given text is read as: each ends with its
    newline, the last one possibly without. *)
Fixpoint file_lines_from (cs line : list ascii) : list (list ascii) :=
  match cs with
  | [] => match line with [] => [] | _ => [rev line] end
  | c :: cs' =>
      if Ascii.eqb c (ascii_of_nat 10)
      then rev (c :: line) :: file_lines_from cs' []
      else file_lines_from cs' (c :: line)
  end.

Definition file_lines (text : string) : list string :=
  map string_of_list_ascii (file_lines_from (list_ascii_of_string text) []).

(** ** [count_duplicates] *)

(** [{str(i): 0 for i in range(1, 11)}] *)
Definition new_counts : list (string * nat) :=
  map (fun i => (str i, 0)) (seq 1 10).

(** The body of [for line in f]. *)
Definition count_line (counts : list (string * nat)) (line : string)
  : outcome (list (string * nat)) :=
  match strip line with
  | EmptyString => Return counts
  | stripped =>
      c <-! index (split stripped) 0 ;;
      n <-! dict_get String.eqb counts c ;;
      Return (dict_set String.eqb counts c (n + 1))
  end.

Fixpoint count_lines (counts : list (string * nat)) (lines : list string)
  : outcome (list (string * nat)) :=
  match lines with
  | [] => Return counts
  | line :: rest => counts' <-! count_line counts line ;; count_lines counts' rest
  end.

(** [sorted(items, key=lambda x: int(x[0]))]: the keys are computed
    first, then the items are put in the order of their keys, items with
    the same key staying in their order. *)
Fixpoint insert_by_key {A : Type} (k : Z) (x : A) (sorted : list (Z * A))
  : list (Z * A) :=
  match sorted with
  | [] => [(k, x)]
  | (k', y) :: rest =>
      if (k <=? k')%Z then (k, x) :: sorted
      else (k', y) :: insert_by_key k x rest
  end.

Fixpoint int_keys {A : Type} (items : list (string * A))
  : outcome (list (Z * (string * A))) :=
  match items with
  | [] => Return []
  | item :: rest =>
      k <-! int (fst item) ;;
      keyed <-! int_keys rest ;;
      Return ((k, item) :: keyed)
  end.

Definition sorted_by_int {A : Type} (items : list (string * A))
  : outcome (list (string * A)) :=
  keyed <-! int_keys items ;;
  Return (map snd
            (fold_right (fun entry acc => insert_by_key (fst entry) (snd entry) acc)
               [] keyed)).

(** What [count_duplicates] writes: the name of the file and its text. *)
Record written : Type := mk_written {
  out_path : string;
  out_text : string
}.

(** [lines] are the lines of [input_file]. *)
Definition count_duplicates (input_file : string) (lines : list string)
    (output_dir : string) : outcome (written * list (string * nat)) :=
  counts <-! count_lines new_counts lines ;;
  let output_file :=
    path_join output_dir
      (subject_prefix input_file ++ "_occurrence-counts.txt")%string in
  items <-! sorted_by_int counts ;;
  let data :=
    map (fun item => (fst item ++ tab ++ str (snd item))%string) items in
  let data_string := join newline data in
  Return (mk_written output_file data_string, counts).

(** ** Files by number of subjects

    [{i: [] for i in range(1, 11)}], then every file is appended under
    its number of subjects. *)
Fixpoint add_by_subject_count (by_count : list (nat * list string))
    (files : list string) : outcome (list (nat * list string)) :=
  match files with
  | [] => Return by_count
  | f :: rest =>
      let num := List.length (group_subjects f) in
      bucket <-! dict_get Nat.eqb by_count num ;;
      add_by_subject_count (dict_set Nat.eqb by_count num (bucket ++ [f])) rest
  end.

Definition files_by_subject_count (files : list string)
  : outcome (list (nat * list string)) :=
  add_by_subject_count (map (fun i => (i, [])) (seq 1 10)) files.

(** ** The frequency of shared clonotypes *)

(** The loop over the lines of an occurrence file: [count] is bound by
    the first line whose first field is [min_freq], and the loop stops
    there; otherwise [count] keeps what it was bound to before, if
    anything. *)
Fixpoint scan_count (lines : list string) (min_freq : string)
    (count : option Z) : outcome (option Z) :=
  match lines with
  | [] => Return count
  | line :: rest =>
      match strip line with
      | EmptyString => scan_count rest min_freq count
      | stripped =>
          first <-! index (split stripped) 0 ;;
          if String.eqb first min_freq
          then second <-! index (split stripped) 1 ;;
               c <-! int second ;;
               Return (Some c)
          else scan_count rest min_freq count
      end
  end.

(** The exceptions of the cell: those of [exn], an unbound [count], and
    the division of a float by zero. *)
Inductive cell_exn : Type :=
| Raised : exn -> cell_exn
| NameError : cell_exn
| ZeroDivisionError : cell_exn.

Inductive cell_outcome (A : Type) : Type :=
| Done : A -> cell_outcome A
| Failed : cell_exn -> cell_outcome A.
Arguments Done {A} _.
Arguments Failed {A} _.

(** The variables of the cell that outlive an iteration.  An entry of
    [by_group] is the pair of the joined subject names and of
    [100. * frequency], which the code formats into one string. *)
Record frequencies : Type := mk_frequencies {
  count : option Z;
  by_group : list (string * R);
  by_group_size : list (nat * list R)
}.

(** [min(zs)] for a list that is not empty. *)
Definition min_Z (zs : list Z) : Z := fold_right Z.min (hd 0%Z zs) zs.

(** [[subject_sizes[s] for s in _subjects]] *)
Fixpoint sizes_of (subject_sizes : list (string * Z)) (subjects : list string)
  : outcome (list Z) :=
  match subjects with
  | [] => Return []
  | s :: rest =>
      size <-! dict_get String.eqb subject_sizes s ;;
      sizes <-! sizes_of subject_sizes rest ;;
      Return (size :: sizes)
  end.

(** One iteration of [for i, of in enumerate(...)]: [file] is the name
    of the occurrence file and its lines. *)
Definition frequency_step (subject_sizes : list (string * Z))
    (state : frequencies) (file : string * list string)
  : cell_outcome frequencies :=
  let _subjects := group_subjects (fst file) in
  match sizes_of subject_sizes _subjects with
  | Raise e => Failed (Raised e)
  | Return sizes =>
      let smallest := min_Z sizes in
      let min_freq := str (List.length _subjects) in
      match scan_count (snd file) min_freq (count state) with
      | Raise e => Failed (Raised e)
      | Return None => Failed NameError
      | Return (Some c) =>
          if (smallest =? 0)%Z then Failed ZeroDivisionError
          else
            let freq := (1 * IZR c / IZR smallest)%R in
            let by_group' :=
              by_group state ++ [(join ", " _subjects, (100 * freq)%R)] in
            match dict_get Nat.eqb (by_group_size state)
                    (List.length _subjects) with
            | Raise e => Failed (Raised e)
            | Return freqs =>
                Done (mk_frequencies (Some c) by_group'
                        (dict_set Nat.eqb (by_group_size state)
                           (List.length _subjects) (freqs ++ [freq])))
            end
      end
  end.

Fixpoint frequency_steps (subject_sizes : list (string * Z))
    (state : frequencies) (files : list (string * list string))
  : cell_outcome frequencies :=
  match files with
  | [] => Done state
  | file :: rest =>
      match frequency_step subject_sizes state file with
      | Done state' => frequency_steps subject_sizes state' rest
      | Failed e => Failed e
      end
  end.

(** The cell: [subjects] are the names read from the subjects file,
    [files] the occurrence files with their lines. *)
Definition shared_frequencies (subjects : list string)
    (subject_sizes : list (string * Z)) (files : list (string * list string))
  : cell_outcome frequencies :=
  frequency_steps subject_sizes
    (mk_frequencies None []
       (map (fun i => (i + 1, [])) (seq 0 (List.length subjects))))
    files.

(** ** Vocabulary for the counting notebooks *)

(** The first field of a line, if the line is not blank. *)
Definition first_field (line : string) : option string :=
  match strip line with
  | EmptyString => None
  | stripped => nth_error (split stripped) 0
  end.

Definition has_first_field (k : string) (line : string) : bool :=
  match first_field line with
  | Some c => String.eqb c k
  | None => false
  end.

(** The number of lines whose first field is [k]. *)
Definition occurrences (lines : list string) (k : string) : nat :=
  List.length (filter (has_first_field k) lines).

(** The number of frequencies a dictionary holds, all sizes together. *)
Definition recorded (by_size : list (nat * list R)) : nat :=
  list_sum (map (fun entry => List.length (snd entry)) by_size).

(** The keys of the counts: [str(1)] to [str(10)]. *)
Definition count_keys : list string := map str (seq 1 10).

(** The line [count_duplicates] writes for a key and its count. *)
Definition count_row (k : string) (n : nat) : string :=
  (k ++ tab ++ str n)%string.

(** A line is blank when nothing is left of it after [strip]. *)
Definition is_blank (line : string) : bool :=
  match strip line with
  | EmptyString => true
  | _ => false
  end.

(** The character [c] does not occur in [s]. *)
Definition without (c : ascii) (s : string) : Prop :=
  ~ In c (list_ascii_of_string s).

(** * Properties *)

(** ** [entropy] *)

(** A column of at most one residue gives 0; on any other column the
    conversion of the counts is reached and raises. *)
Lemma entropy_run (residues : list ascii) :
  entropy residues =
  if converts_counts residues then Raise TypeError else Return 0%R.
Proof.
  unfold entropy, converts_counts.
  destruct (Nat.leb_spec (List.length residues) 1) as [H|H].
  - destruct (Nat.leb_spec 2 (List.length residues)); [lia|reflexivity].
  - destruct (Nat.leb_spec 2 (List.length residues)); [reflexivity|lia].
Qed.

(** C1. [entropy] on a column with one distinct residue, where 0 is
    expected, and on a column with two distinct residues, where a value
    between 0 and 1 is expected: both calls raise [TypeError], the counts
    being handed to [np.asarray] as a view. *)
Theorem entropy_repeated_residue_raises :
  entropy ["G"; "G"; "G"]%char = Raise TypeError /\
  entropy ["L"; "V"; "L"]%char = Raise TypeError.
Proof. split; reflexivity. Qed.

(** C2. [entropy] on the two columns whose values are given, 1 for
    four different residues and about 0.8113 for three equal residues and
    another one: both calls raise [TypeError]. *)
Theorem entropy_examples_raise :
  entropy ["A"; "C"; "G"; "T"]%char = Raise TypeError /\
  entropy ["A"; "A"; "A"; "C"]%char = Raise TypeError.
Proof. split; reflexivity. Qed.

(** C7. [entropy] raises exactly on the columns of two residues or
    more, always [TypeError]; on the empty column and on a column of one
    residue it returns 0. *)
Theorem entropy_raises_TypeError (residues : list ascii) :
  (entropy residues = Raise TypeError <-> 2 <= List.length residues) /\
  (entropy residues = Return 0%R <-> List.length residues <= 1) /\
  (forall e, entropy residues = Raise e -> e = TypeError).
Proof.
  rewrite entropy_run. unfold converts_counts.
  destruct (Nat.leb_spec 2 (List.length residues)) as [H|H].
  - split; [tauto|]. split; [|now intros e [= <-]].
    split; [discriminate|lia].
  - split; [split; [discriminate|lia]|]. split; [|discriminate].
    split; [lia|reflexivity].
Qed.

(** ** Dictionaries *)

Section DictFacts.
Context {K V : Type} (eqb : K -> K -> bool).
Hypothesis eqb_eq : forall a b, eqb a b = true <-> a = b.

Lemma eqb_same (a : K) : eqb a a = true.
Proof. now apply eqb_eq. Qed.

Lemma dict_get_set (d : list (K * V)) (k k' : K) (v : V) :
  dict_get eqb (dict_set eqb d k v) k' =
  if eqb k' k then Return v else dict_get eqb d k'.
Proof.
  induction d as [|[k0 v0] d IH]; simpl.
  - destruct (eqb k' k); reflexivity.
  - destruct (eqb k k0) eqn:E; simpl.
    + apply eqb_eq in E; subst k0. destruct (eqb k' k); reflexivity.
    + destruct (eqb k' k0) eqn:E'; [|exact IH].
      apply eqb_eq in E'; subst k0.
      destruct (eqb k' k) eqn:E''; [|reflexivity].
      apply eqb_eq in E''; subst k'. rewrite eqb_same in E. discriminate.
Qed.

Lemma keys_dict_set (d : list (K * V)) (k : K) (v : V) :
  keys (dict_set eqb d k v) = keys d \/
  (~ In k (keys d) /\ keys (dict_set eqb d k v) = keys d ++ [k]).
Proof.
  unfold keys. induction d as [|[k0 v0] d IH]; simpl.
  - right. split; [tauto|reflexivity].
  - destruct (eqb k k0) eqn:E; simpl; [now left|].
    destruct IH as [IH|[Hn IH]]; rewrite IH; [now left|right].
    split; [|reflexivity]. intros [H|H]; [|contradiction].
    subst k0. rewrite eqb_same in E. discriminate.
Qed.

Lemma NoDup_dict_set (d : list (K * V)) (k : K) (v : V) :
  NoDup (keys d) -> NoDup (keys (dict_set eqb d k v)).
Proof.
  intro H. destruct (keys_dict_set d k v) as [E|[Hn E]]; rewrite E; auto.
  apply NoDup_app; repeat split; auto.
  - constructor; [intros []|constructor].
  - intros a Ha [Hk|[]]. subst. contradiction.
Qed.

Lemma In_dict_set (d : list (K * V)) (k k' : K) (v v' : V) :
  In (k', v') (dict_set eqb d k v) -> (k' = k /\ v' = v) \/ In (k', v') d.
Proof.
  induction d as [|[k0 v0] d IH]; simpl.
  - intros [H|[]]. left. now inversion H.
  - destruct (eqb k k0) eqn:E; simpl.
    + apply eqb_eq in E; subst k0. intros [H|H]; [|tauto].
      left. now inversion H.
    + intros [H|H]; [tauto|]. destruct (IH H); tauto.
Qed.

Lemma In_dict_get (d : list (K * V)) (k : K) (v : V) :
  NoDup (keys d) -> In (k, v) d -> dict_get eqb d k = Return v.
Proof.
  unfold keys. induction d as [|[k0 v0] d IH]; simpl; [tauto|].
  intros Hnd [H|H].
  - inversion H; subst. now rewrite eqb_same.
  - inversion Hnd as [|? ? Hk Hd]; subst.
    destruct (eqb k k0) eqn:E; [|now apply IH].
    apply eqb_eq in E; subst k0. exfalso. apply Hk.
    change k with (fst (k, v)). now apply in_map.
Qed.

Lemma dict_get_In (d : list (K * V)) (k : K) (v : V) :
  dict_get eqb d k = Return v -> In (k, v) d.
Proof.
  induction d as [|[k0 v0] d IH]; simpl; [discriminate|].
  destruct (eqb k k0) eqn:E; [|auto].
  apply eqb_eq in E; subst k0. intro H. inversion H. now left.
Qed.
End DictFacts.

Lemma pools_get_append (d : pools) (s : string) (l : nat) (aa : string)
    (bucket : list string) :
  pools_get d s l = Return bucket ->
  exists d',
    pools_append d s l aa = Return d' /\
    forall s' l',
      pools_get d' s' l' =
      if String.eqb s' s && Nat.eqb l' l then Return (bucket ++ [aa])
      else pools_get d s' l'.
Proof.
  unfold pools_get, pools_append.
  destruct (dict_get String.eqb d s) as [by_length|] eqn:Hs; [|discriminate].
  simpl. intro Hl. rewrite Hl. simpl. eexists. split; [reflexivity|].
  intros s' l'. rewrite (dict_get_set _ String.eqb_eq).
  destruct (String.eqb s' s) eqn:E; simpl; [|reflexivity].
  apply String.eqb_eq in E; subst s'. rewrite Hs. simpl.
  rewrite (dict_get_set _ Nat.eqb_eq).
  destruct (Nat.eqb l' l); reflexivity.
Qed.

Lemma pools_get_set (d : pools) (s : string) (l : nat) (v : list string)
    (by_length : length_dict) :
  dict_get String.eqb d s = Return by_length ->
  exists d',
    pools_set d s l v = Return d' /\
    forall s' l',
      pools_get d' s' l' =
      if String.eqb s' s && Nat.eqb l' l then Return v
      else pools_get d s' l'.
Proof.
  unfold pools_get, pools_set. intro Hs. rewrite Hs. simpl.
  eexists. split; [reflexivity|].
  intros s' l'. rewrite (dict_get_set _ String.eqb_eq).
  destruct (String.eqb s' s) eqn:E; simpl; [|reflexivity].
  apply String.eqb_eq in E; subst s'. rewrite Hs. simpl.
  rewrite (dict_get_set _ Nat.eqb_eq).
  destruct (Nat.eqb l' l); reflexivity.
Qed.

Lemma unique_keys_set (d d' : pools) (s : string) (l : nat) (v : list string) :
  unique_keys d -> pools_set d s l v = Return d' -> unique_keys d'.
Proof.
  unfold pools_set. intros [Hd Hin].
  destruct (dict_get String.eqb d s) as [by_length|] eqn:Hs; [|discriminate].
  simpl. intro H. inversion H; subst d'. clear H. split.
  - now apply (NoDup_dict_set _ String.eqb_eq).
  - intros s' bl' H. apply In_dict_set in H; [|exact String.eqb_eq].
    destruct H as [[-> ->]|H]; [|now apply (Hin s')].
    apply (NoDup_dict_set _ Nat.eqb_eq).
    apply (Hin s). now apply (dict_get_In _ String.eqb_eq).
Qed.

Lemma empty_pools_has_all_buckets : has_all_buckets empty_pools.
Proof.
  intros s l Hs Hl. exists [].
  simpl in Hs. destruct Hs as [<-|[<-|[]]];
    simpl in Hl; repeat (destruct Hl as [<-|Hl]; [reflexivity|]);
    destruct Hl.
Qed.

Lemma has_all_buckets_append (d d' : pools) (s : string) (l : nat)
    (aa : string) :
  has_all_buckets d -> pools_append d s l aa = Return d' ->
  has_all_buckets d'.
Proof.
  intros Hd Happ s' l' Hs' Hl'.
  destruct (Hd s' l' Hs' Hl') as [b' Hb'].
  unfold pools_append in Happ.
  destruct (dict_get String.eqb d s) as [bl|] eqn:Hs; [|discriminate].
  simpl in Happ.
  destruct (dict_get Nat.eqb bl l) as [b|] eqn:Hl; [|discriminate].
  assert (Hget : pools_get d s l = Return b)
    by (unfold pools_get; rewrite Hs; exact Hl).
  destruct (pools_get_append d s l aa b Hget) as (d'' & Hd'' & Hall).
  unfold pools_append in Hd''. rewrite Hs in Hd''. simpl in Hd''.
  rewrite Hl in Hd''. simpl in Hd'', Happ. rewrite Happ in Hd''.
  inversion Hd''; subst d''. rewrite Hall.
  destruct (String.eqb s' s && Nat.eqb l' l); eauto.
Qed.

(** ** [get_sequences]: one line of a file *)

Lemma dict_get_raises_KeyError {K V : Type} (eqb : K -> K -> bool)
    (d : list (K * V)) (k : K) (e : exn) :
  dict_get eqb d k = Raise e -> e = KeyError.
Proof.
  induction d as [|[k0 v0] d IH]; simpl.
  - intro H. now inversion H.
  - destruct (eqb k k0); [discriminate|exact IH].
Qed.

Lemma pools_append_not_IndexError (d : pools) (s : string) (l : nat)
    (aa : string) (handler : outcome pools) :
  except_IndexError (pools_append d s l aa) handler = pools_append d s l aa.
Proof.
  unfold pools_append.
  destruct (dict_get String.eqb d s) as [bl|e] eqn:Hs; simpl.
  - destruct (dict_get Nat.eqb bl l) as [b|e] eqn:Hl; simpl; [reflexivity|].
    now rewrite (dict_get_raises_KeyError _ _ _ _ Hl).
  - now rewrite (dict_get_raises_KeyError _ _ _ _ Hs).
Qed.

Lemma classify_code (c : Z) :
  (if (c =? 1)%Z then Some "unshared"
   else if in_range 6 11 c then Some "shared" else None) = classify c.
Proof.
  unfold classify, in_range.
  destruct (c =? 1)%Z; [reflexivity|].
  destruct (Z.leb_spec 6 c), (Z.ltb_spec c 11), (Z.leb_spec c 10);
    simpl; try reflexivity; lia.
Qed.

Lemma length_in_range (l : nat) :
  in_range 7 15 (Z.of_nat l) = (7 <=? l) && (l <=? 14).
Proof.
  unfold in_range.
  destruct (Z.leb_spec 7 (Z.of_nat l)), (Z.ltb_spec (Z.of_nat l) 15),
    (Nat.leb_spec 7 l), (Nat.leb_spec l 14); simpl; try reflexivity; lia.
Qed.

(** What a line with a numeric first field does to the pools. *)
Lemma pool_line_numeric (seqs : pools) (line tag : string)
    (rest : list string) (c : Z) :
  fields line = tag :: rest -> int tag = Return c ->
  pool_line seqs line =
  match classify c, nth_error (tag :: rest) 3 with
  | Some s, Some aa =>
      let l := String.length aa in
      if (7 <=? l) && (l <=? 14) then pools_append seqs s l aa
      else Return seqs
  | _, _ => Return seqs
  end.
Proof.
  unfold fields, pool_line. intros -> Hint.
  change (index (tag :: rest) 0) with (@Return string tag).
  cbn [obind]. rewrite Hint. cbn [obind].
  rewrite classify_code.
  destruct (classify c) as [s|]; [|reflexivity].
  unfold index. destruct (nth_error (tag :: rest) 3) as [aa|]; [|reflexivity].
  cbn [obind]. rewrite length_in_range.
  destruct ((7 <=? String.length aa) && (String.length aa <=? 14));
    [|reflexivity].
  cbn [negb]. apply pools_append_not_IndexError.
Qed.

Lemma classify_class (c : Z) (s : string) :
  classify c = Some s -> In s sharing_classes.
Proof.
  unfold classify.
  destruct (c =? 1)%Z; [intro H; inversion H; simpl; tauto|].
  destruct ((6 <=? c) && (c <=? 10))%Z; [|discriminate].
  intro H; inversion H; simpl; tauto.
Qed.

Lemma cdr3_lengths_spec (l : nat) :
  (7 <=? l) && (l <=? 14) = true <-> In l cdr3_lengths.
Proof.
  unfold cdr3_lengths. rewrite in_seq, andb_true_iff, !Nat.leb_le. lia.
Qed.

(** A line whose first field is an integer never stops the loop. *)
Lemma pool_line_returns (seqs : pools) (line : string) :
  has_all_buckets seqs -> numeric_tag_or_blank line ->
  exists seqs', pool_line seqs line = Return seqs' /\ has_all_buckets seqs'.
Proof.
  intros Hall Hnum. unfold numeric_tag_or_blank in Hnum.
  destruct (fields line) as [|tag rest] eqn:Hf.
  - exists seqs. split; [|exact Hall].
    unfold pool_line. unfold fields in Hf. now rewrite Hf.
  - destruct Hnum as [c Hc].
    rewrite (pool_line_numeric seqs line tag rest c Hf Hc).
    destruct (classify c) as [s|] eqn:Hs; [|eauto].
    destruct (nth_error (tag :: rest) 3) as [aa|]; [|eauto].
    cbv zeta.
    destruct ((7 <=? String.length aa) && (String.length aa <=? 14)) eqn:Hl;
      [|eauto].
    apply cdr3_lengths_spec in Hl. apply classify_class in Hs.
    destruct (Hall s _ Hs Hl) as [b Hb].
    destruct (pools_get_append seqs s _ aa b Hb) as (d' & Hd' & _).
    exists d'. split; [exact Hd'|].
    exact (has_all_buckets_append seqs d' s _ aa Hall Hd').
Qed.

Lemma int_raises_ValueError (s : string) (e : exn) :
  int s = Raise e -> e = ValueError.
Proof.
  unfold int.
  destruct (match list_ascii_of_string s with
            | [] => _ | _ => _ end); intro H; now inversion H.
Qed.

(** Whatever the line, the pools keep a bucket for every class and
    length when the loop goes on. *)
Lemma pool_line_has_all_buckets (seqs seqs' : pools) (line : string) :
  has_all_buckets seqs -> pool_line seqs line = Return seqs' ->
  has_all_buckets seqs'.
Proof.
  intros Hall Hline.
  destruct (fields line) as [|tag rest] eqn:Hf.
  - unfold pool_line in Hline. unfold fields in Hf. rewrite Hf in Hline.
    inversion Hline; subst seqs'. exact Hall.
  - destruct (int tag) as [c|e] eqn:Hc.
    + destruct (pool_line_returns seqs line Hall) as (d & Hd & Hall').
      * unfold numeric_tag_or_blank. rewrite Hf. now exists c.
      * rewrite Hline in Hd. inversion Hd; subst d. exact Hall'.
    + exfalso. unfold pool_line in Hline. unfold fields in Hf.
      rewrite Hf in Hline.
      change (index (tag :: rest) 0) with (@Return string tag) in Hline.
      cbn [obind] in Hline. rewrite Hc in Hline.
      rewrite (int_raises_ValueError _ _ Hc) in Hline. discriminate.
Qed.

Lemma pool_lines_has_all_buckets (lines : list string) (seqs seqs' : pools) :
  has_all_buckets seqs -> pool_lines seqs lines = Return seqs' ->
  has_all_buckets seqs'.
Proof.
  revert seqs. induction lines as [|line lines IH]; intros seqs Hall; simpl.
  - intro H. inversion H; subst seqs'. exact Hall.
  - destruct (pool_line seqs line) as [d|] eqn:Hd; [|discriminate].
    simpl. apply IH. exact (pool_line_has_all_buckets _ _ _ Hall Hd).
Qed.

(** The pools [get_sequences] reads from a file can be down-selected. *)
Lemma build_pools_has_all_buckets (lines : list string) (seqs : pools) :
  build_pools lines = Return seqs -> has_all_buckets seqs.
Proof.
  apply pool_lines_has_all_buckets, empty_pools_has_all_buckets.
Qed.

Lemma pool_lines_app (seqs : pools) (before after : list string) :
  pool_lines seqs (before ++ after) =
  (seqs' <-! pool_lines seqs before ;; pool_lines seqs' after).
Proof.
  revert seqs. induction before as [|line before IH]; intro seqs; simpl.
  - reflexivity.
  - destruct (pool_line seqs line); simpl; [apply IH|reflexivity].
Qed.

(** C3. For every record, [build_pools] classifies the integer tag
    (1: unshared, 6 to 10: shared, anything else: skipped), takes the
    sequence field, skips the record when the length of the sequence is
    outside 7..14 and otherwise appends the sequence to the bucket of its
    (class, length); on the four rows of the example the non-empty
    buckets are unshared/7 with AAAAAAA and shared/7 with CCCCCCC. *)
Theorem build_pools_record :
  (forall seqs line tag f1 f2 aa rest c,
     has_all_buckets seqs ->
     fields line = tag :: f1 :: f2 :: aa :: rest ->
     int tag = Return c ->
     let l := String.length aa in
     match classify c with
     | Some s =>
         if (7 <=? l) && (l <=? 14)
         then exists seqs' bucket,
                pool_line seqs line = Return seqs' /\
                pools_get seqs s l = Return bucket /\
                forall s' l',
                  pools_get seqs' s' l' =
                  if String.eqb s' s && Nat.eqb l' l
                  then Return (bucket ++ [aa])
                  else pools_get seqs s' l'
         else pool_line seqs line = Return seqs
     | None => pool_line seqs line = Return seqs
     end) /\
  (pools <-! build_pools
              ["1 x x AAAAAAA"; "6 x x CCCCCCC"; "3 x x GGGGGGG"; "1 x x TT"] ;;
   Return (non_empty_buckets pools)) =
  Return [("shared", 7, ["CCCCCCC"]); ("unshared", 7, ["AAAAAAA"])].
Proof.
  split; [|reflexivity].
  intros seqs line tag f1 f2 aa rest c Hall Hf Hc l.
  rewrite (pool_line_numeric seqs line tag _ c Hf Hc). cbn [nth_error].
  destruct (classify c) as [s|] eqn:Hs; [|reflexivity].
  fold l. destruct ((7 <=? l) && (l <=? 14)) eqn:Hl; [|reflexivity].
  apply cdr3_lengths_spec in Hl. apply classify_class in Hs.
  destruct (Hall s l Hs Hl) as [b Hb].
  destruct (pools_get_append seqs s l aa b Hb) as (d' & Hd' & Hget).
  exists d', b. auto.
Qed.

Lemma build_pools_record_witness :
  exists seqs' bucket,
    pool_line empty_pools "6 x x CCCCCCC" = Return seqs' /\
    pools_get empty_pools "shared" 7 = Return bucket /\
    forall s' l',
      pools_get seqs' s' l' =
      if String.eqb s' "shared" && Nat.eqb l' 7
      then Return (bucket ++ ["CCCCCCC"])
      else pools_get empty_pools s' l'.
Proof.
  exact (proj1 build_pools_record empty_pools "6 x x CCCCCCC"
           "6" "x" "x" "CCCCCCC" [] 6%Z
           empty_pools_has_all_buckets eq_refl eq_refl).
Defined.

(** C4, as stated, fails: a row whose first field is not an integer
    makes [int] raise [ValueError], which the handler for [IndexError]
    does not catch, and the rows after it are never read. *)
Lemma build_pools_non_numeric_tag_is_fatal :
  non_numeric_tag "abc x x CCCCCCC" /\
  build_pools ["1 x x AAAAAAA"; "abc x x CCCCCCC"; "1 x x GGGGGGG"] =
  Raise ValueError.
Proof.
  split; [|reflexivity].
  exists "abc", ["x"; "x"; "CCCCCCC"]. split; reflexivity.
Qed.

(** C4, amended. In a stream whose rows all start with an integer (or
    are blank), a row with too few fields is skipped, the rows around it
    are processed as if it were absent, and the stream is read to its
    end. *)
Theorem build_pools_skips_short_rows :
  (forall seqs line,
     too_few_fields line -> numeric_tag_or_blank line ->
     pool_line seqs line = Return seqs) /\
  (forall before line after,
     too_few_fields line -> numeric_tag_or_blank line ->
     build_pools (before ++ line :: after) = build_pools (before ++ after)) /\
  (forall lines,
     (forall line, In line lines -> numeric_tag_or_blank line) ->
     exists pools, build_pools lines = Return pools).
Proof.
  assert (Hskip : forall seqs line,
             too_few_fields line -> numeric_tag_or_blank line ->
             pool_line seqs line = Return seqs).
  { intros seqs line Hfew Hnum.
    unfold too_few_fields, numeric_tag_or_blank in *.
    destruct (fields line) as [|tag rest] eqn:Hf.
    - unfold pool_line. unfold fields in Hf. now rewrite Hf.
    - destruct Hnum as [c Hc].
      rewrite (pool_line_numeric seqs line tag rest c Hf Hc).
      destruct (classify c); [|reflexivity].
      destruct (nth_error (tag :: rest) 3) eqn:Hn; [|reflexivity].
      assert (nth_error (tag :: rest) 3 <> None) as Hlt by congruence.
      apply nth_error_Some in Hlt. lia. }
  split; [exact Hskip|split].
  - intros before line after Hfew Hnum. unfold build_pools.
    rewrite !pool_lines_app.
    destruct (pool_lines empty_pools before) as [seqs|e]; [|reflexivity].
    simpl. now rewrite (Hskip seqs line Hfew Hnum).
  - intros lines. unfold build_pools.
    generalize empty_pools_has_all_buckets. generalize empty_pools.
    induction lines as [|line lines IH]; intros seqs Hall Hnum; simpl.
    + now exists seqs.
    + destruct (pool_line_returns seqs line Hall) as (seqs' & -> & Hall').
      * apply Hnum. now left.
      * simpl. apply (IH seqs' Hall'). intros; apply Hnum; now right.
Qed.

Lemma build_pools_skips_short_rows_witness :
  pool_line empty_pools "1 x" = Return empty_pools /\
  build_pools (["6 x x CCCCCCC"] ++ "1 x" :: ["1 x x AAAAAAA"]) =
  build_pools (["6 x x CCCCCCC"] ++ ["1 x x AAAAAAA"]) /\
  exists pools, build_pools ["1 x"; ""; "7"] = Return pools.
Proof.
  assert (Hfew : too_few_fields "1 x") by (vm_compute; lia).
  assert (Hnum : numeric_tag_or_blank "1 x") by (exists 1%Z; reflexivity).
  split; [|split].
  - exact (proj1 build_pools_skips_short_rows empty_pools "1 x" Hfew Hnum).
  - exact (proj1 (proj2 build_pools_skips_short_rows)
             ["6 x x CCCCCCC"] "1 x" ["1 x x AAAAAAA"] Hfew Hnum).
  - apply (proj2 (proj2 build_pools_skips_short_rows) ["1 x"; ""; "7"]).
    intros line [<-|[<-|[<-|[]]]].
    + exact Hnum.
    + exact I.
    + exists 7%Z. reflexivity.
Defined.

(** ** [calculate_entropies] *)

Lemma length_list_ascii_of_string (s : string) :
  List.length (list_ascii_of_string s) = String.length s.
Proof.
  induction s as [|c s IH]; simpl; [reflexivity|now rewrite IH].
Qed.

(** *** The transposition *)

Lemma heads_columns (ss : list (list ascii)) :
  (forall s, In s ss -> s <> []) ->
  heads ss = Some (map (fun s => nth 0 s zero) ss).
Proof.
  induction ss as [|s ss IH]; intro H; simpl; [reflexivity|].
  destruct s as [|c s]; [exfalso; now apply (H []); [left|]|].
  rewrite IH by (intros; apply H; now right). reflexivity.
Qed.

Lemma zip_rounds_columns (n : nat) (ss : list (list ascii)) :
  (forall s, In s ss -> List.length s = n) ->
  zip_rounds n ss =
  map (fun i => map (fun s => nth i s zero) ss) (seq 0 n).
Proof.
  revert ss. induction n as [|n IH]; intros ss H; [reflexivity|].
  cbn [zip_rounds]. rewrite heads_columns.
  - rewrite IH.
    + cbn [seq map]. f_equal. rewrite <- seq_shift, map_map.
      apply map_ext. intro i. rewrite map_map.
      apply map_ext. intros [|c s]; [now destruct i|reflexivity].
    + intros s Hs. apply in_map_iff in Hs. destruct Hs as (s' & <- & Hs').
      apply H in Hs'. destruct s'; simpl in *; lia.
  - intros s Hs ->. apply H in Hs. discriminate.
Qed.

(** A non-empty bucket of sequences of length [l] is transposed into
    its [l] columns. *)
Lemma zip_star_columns (l : nat) (seqs : list string) :
  seqs <> [] -> (forall aa, In aa seqs -> String.length aa = l) ->
  zip_star seqs = map (fun i => column i seqs) (seq 0 l).
Proof.
  intros Hne Hlen. destruct seqs as [|first rest]; [congruence|].
  unfold zip_star. rewrite (Hlen first) by now left.
  rewrite zip_rounds_columns.
  - apply map_ext. intro i. unfold column. now rewrite map_map.
  - intros s Hs. apply in_map_iff in Hs. destruct Hs as (aa & <- & Haa).
    rewrite length_list_ascii_of_string. now apply Hlen.
Qed.

Lemma zip_star_length (l : nat) (seqs : list string) :
  (forall aa, In aa seqs -> String.length aa = l) ->
  List.length (zip_star seqs) <= l.
Proof.
  intro Hlen. destruct seqs as [|first rest] eqn:E; [simpl; lia|].
  rewrite <- E in *. rewrite (zip_star_columns l) by (subst; auto; congruence).
  rewrite length_map, length_seq. lia.
Qed.

(** *** The slice from 3 to -3 *)

Lemma slice_short {A : Type} (xs : list A) :
  List.length xs <= 6 -> slice xs 3 (-3) = [].
Proof.
  intro H. unfold slice, slice_bound. cbn [Z.ltb Z.compare].
  replace (Z.to_nat _) with 0 by lia. reflexivity.
Qed.

Lemma slice_interior {A : Type} (f : nat -> A) (l : nat) :
  6 < l -> slice (map f (seq 0 l)) 3 (-3) = map f (seq 3 (l - 6)).
Proof.
  intro H. unfold slice, slice_bound. rewrite length_map, length_seq.
  cbn [Z.ltb Z.compare].
  replace (Z.to_nat (Z.min 3 (Z.of_nat l))) with 3 by lia.
  replace (Z.to_nat _) with (l - 6) by lia.
  rewrite skipn_map, firstn_map, skipn_seq.
  replace (firstn (l - 6) (seq (0 + 3) (l - 3))) with (seq 3 (l - 6));
    [reflexivity|].
  replace (l - 3) with ((l - 6) + 3) by lia.
  rewrite seq_app, firstn_app, length_seq, Nat.sub_diag, firstn_O, app_nil_r.
  rewrite firstn_all2 by (rewrite length_seq; lia). reflexivity.
Qed.

(** *** Buckets whose sequences differ in length *)

Lemma zip_rounds_shortest (n : nat) :
  forall (ss : list (list ascii)) (m : nat),
    (forall s, In s ss -> m <= List.length s) ->
    (exists s, In s ss /\ List.length s = m) ->
    m <= n ->
    List.length (zip_rounds n ss) = m.
Proof.
  induction n as [|n IH]; intros ss m Hge (s0 & Hs0 & Hlen0) Hmn.
  - simpl. lia.
  - cbn [zip_rounds]. destruct m as [|m].
    + assert (heads ss = None) as ->; [|reflexivity].
      clear Hge Hmn IH. induction ss as [|s ss IHss]; [destruct Hs0|].
      destruct Hs0 as [->|Hs0].
      * destruct s0; [reflexivity|discriminate].
      * simpl. destruct s; [reflexivity|]. now rewrite (IHss Hs0).
    + rewrite heads_columns.
      * cbn [List.length]. f_equal. apply IH; [| |lia].
        -- intros s Hs. apply in_map_iff in Hs. destruct Hs as (s' & <- & Hs').
           apply Hge in Hs'. destruct s'; simpl in *; lia.
        -- exists (tl s0). split; [now apply in_map|].
           destruct s0; simpl in *; lia.
      * intros s Hs ->. apply Hge in Hs. simpl in Hs. lia.
Qed.

Lemma zip_star_shortest (seqs : list string) (m : nat) :
  (forall aa, In aa seqs -> m <= String.length aa) ->
  (exists aa, In aa seqs /\ String.length aa = m) ->
  List.length (zip_star seqs) = m.
Proof.
  intros Hge (aa0 & Haa0 & Hlen0).
  destruct seqs as [|first rest]; [destruct Haa0|].
  unfold zip_star. apply zip_rounds_shortest.
  - intros s Hs. apply in_map_iff in Hs. destruct Hs as (aa & <- & Haa).
    rewrite length_list_ascii_of_string. now apply Hge.
  - exists (list_ascii_of_string aa0).
    split; [now apply in_map|].
    now rewrite length_list_ascii_of_string.
  - apply Hge. now left.
Qed.

Lemma slice_length {A : Type} (xs : list A) :
  List.length (slice xs 3 (-3)) = List.length xs - 6.
Proof.
  unfold slice, slice_bound. cbn [Z.ltb Z.compare].
  rewrite length_firstn, length_skipn. lia.
Qed.

(** *** The columns that are visited *)

Lemma In_slice {A : Type} (x : A) (xs : list A) (start stop : Z) :
  In x (slice xs start stop) -> In x xs.
Proof.
  unfold slice. intro H.
  set (lo := Z.to_nat (slice_bound (Z.of_nat (List.length xs)) start)) in *.
  set (n := Z.to_nat _) in H.
  rewrite <- (firstn_skipn lo xs). apply in_or_app. right.
  rewrite <- (firstn_skipn n (skipn lo xs)). apply in_or_app. now left.
Qed.

Lemma heads_length (ss : list (list ascii)) :
  forall column, heads ss = Some column ->
                 List.length column = List.length ss.
Proof.
  induction ss as [|s ss IH]; intros column H.
  - inversion H. reflexivity.
  - cbn [heads] in H. destruct s as [|c s]; [discriminate|].
    destruct (heads ss) as [column'|]; [|discriminate].
    inversion H. cbn [List.length]. now rewrite (IH column').
Qed.

Lemma zip_rounds_column_length (n : nat) :
  forall ss column, In column (zip_rounds n ss) ->
                    List.length column = List.length ss.
Proof.
  induction n as [|n IH]; intros ss column H; [destruct H|].
  cbn [zip_rounds] in H. destruct (heads ss) as [c|] eqn:E; [|destruct H].
  destruct H as [<-|H]; [now apply heads_length|].
  rewrite (IH _ _ H). apply length_map.
Qed.

(** Every column holds one residue of each sequence of the bucket. *)
Lemma interior_columns_length (seqs : list string) (column : list ascii) :
  In column (interior_columns seqs) ->
  List.length column = List.length seqs.
Proof.
  unfold interior_columns. intro H. apply In_slice in H.
  destruct seqs as [|first rest]; [destruct H|].
  unfold zip_star in H. apply zip_rounds_column_length in H.
  now rewrite length_map in H.
Qed.

Lemma interior_columns_count (seqs : list string) (m : nat) :
  (forall aa, In aa seqs -> m <= String.length aa) ->
  (exists aa, In aa seqs /\ String.length aa = m) ->
  List.length (interior_columns seqs) = m - 6.
Proof.
  intros Hge Hmin. unfold interior_columns.
  now rewrite slice_length, (zip_star_shortest seqs m Hge Hmin).
Qed.

Lemma shortest_sequence (seqs : list string) :
  seqs <> [] ->
  exists m, (forall aa, In aa seqs -> m <= String.length aa) /\
            exists aa, In aa seqs /\ String.length aa = m.
Proof.
  induction seqs as [|aa seqs IH]; [congruence|]. intros _.
  destruct seqs as [|aa' seqs'].
  - exists (String.length aa). split.
    + intros x [<-|[]]. lia.
    + exists aa. split; [now left|reflexivity].
  - destruct IH as (m & Hge & x & Hx & Hlen); [discriminate|].
    destruct (Nat.le_gt_cases (String.length aa) m) as [Hle|Hgt].
    + exists (String.length aa). split.
      * intros y [<-|Hy]; [lia|]. specialize (Hge y Hy). lia.
      * exists aa. split; [now left|reflexivity].
    + exists m. split.
      * intros y [<-|Hy]; [lia|]. now apply Hge.
      * exists x. split; [now right|exact Hlen].
Qed.

(** The conversion of the counts is reached on a bucket exactly when it
    holds two sequences or more, each of seven residues or more. *)
Lemma bucket_converts_counts_iff (seqs : list string) :
  bucket_converts_counts seqs = true <->
  2 <= List.length seqs /\ forall aa, In aa seqs -> 7 <= String.length aa.
Proof.
  unfold bucket_converts_counts, converts_counts.
  rewrite existsb_exists. split.
  - intros (column & Hin & Hlen). apply Nat.leb_le in Hlen.
    rewrite (interior_columns_length _ _ Hin) in Hlen.
    split; [exact Hlen|].
    destruct (shortest_sequence seqs) as (m & Hge & Hmin);
      [intros ->; simpl in Hlen; lia|].
    pose proof (interior_columns_count seqs m Hge Hmin) as Hcount.
    destruct (interior_columns seqs); [destruct Hin|].
    cbn [List.length] in Hcount. intros aa Haa. specialize (Hge aa Haa). lia.
  - intros [Hlen Hlong].
    destruct (shortest_sequence seqs) as (m & Hge & x & Hx & Hm);
      [intros ->; simpl in Hlen; lia|].
    pose proof (interior_columns_count seqs m Hge
                  (ex_intro _ x (conj Hx Hm))) as Hcount.
    specialize (Hlong x Hx).
    destruct (interior_columns seqs) as [|column columns] eqn:E;
      [cbn [List.length] in Hcount; lia|].
    exists column. split; [now left|]. apply Nat.leb_le.
    rewrite (interior_columns_length seqs column); [exact Hlen|].
    rewrite E. now left.
Qed.

Lemma bucket_converts_counts_short (seqs : list string) :
  List.length seqs <= 1 -> bucket_converts_counts seqs = false.
Proof.
  intro H. destruct (bucket_converts_counts seqs) eqn:E; [|reflexivity].
  apply bucket_converts_counts_iff in E. lia.
Qed.

Lemma pools_convert_counts_iff (seq_dict : pools) :
  pools_convert_counts seq_dict = true <->
  exists s by_length l seqs,
    In (s, by_length) seq_dict /\ In (l, seqs) by_length /\
    bucket_converts_counts seqs = true.
Proof.
  unfold pools_convert_counts. rewrite existsb_exists. split.
  - intros ([s bl] & Hs & H). apply existsb_exists in H.
    destruct H as ([l seqs] & Hl & H). now exists s, bl, l, seqs.
  - intros (s & bl & l & seqs & Hs & Hl & H). exists (s, bl).
    split; [exact Hs|]. apply existsb_exists. now exists (l, seqs).
Qed.

(** *** The loops *)

Section CalculateEntropiesFacts.
Variable G : Type.

Lemma append_rows_run (t s : string) (l : nat)
    (columns : list (list ascii)) (edata : list row) (g : G) :
  for_each G columns (append_row G t s l) edata g =
  if existsb converts_counts columns then (Raise TypeError, g)
  else
    (Return
       (edata ++ map (fun _ => mk_row (sample_label t s) t 0%R l s) columns),
     g).
Proof.
  revert edata. induction columns as [|c columns IH]; intro edata.
  - cbn. unfold ret. now rewrite app_nil_r.
  - cbn [for_each existsb map]. unfold bind at 1, append_row.
    unfold bind at 1, lift, ret at 1. rewrite entropy_run.
    destruct (converts_counts c); [reflexivity|].
    cbn [orb]. rewrite IH.
    destruct (existsb converts_counts columns); [reflexivity|].
    now rewrite <- app_assoc.
Qed.

Lemma buckets_run (t s : string) (by_length : length_dict)
    (edata : list row) (g : G) :
  for_each G by_length (bucket_rows G t s) edata g =
  if existsb (fun entry => bucket_converts_counts (snd entry)) by_length
  then (Raise TypeError, g)
  else
    (Return
       (edata ++
        flat_map (fun entry => rows_of_bucket t s (fst entry) (snd entry))
          by_length),
     g).
Proof.
  revert edata.
  induction by_length as [|[l seqs] by_length IH]; intro edata.
  - cbn. unfold ret. now rewrite app_nil_r.
  - cbn [for_each existsb flat_map fst snd]. unfold bind at 1, bucket_rows.
    rewrite append_rows_run.
    fold (interior_columns seqs). fold (bucket_converts_counts seqs).
    destruct (bucket_converts_counts seqs); [reflexivity|].
    cbn [orb]. rewrite IH.
    destruct (existsb _ by_length); [reflexivity|].
    unfold rows_of_bucket at 2. now rewrite <- app_assoc.
Qed.

Lemma groups_run (t : string) (seq_dict : pools) (edata : list row) (g : G) :
  for_each G seq_dict
    (fun group edata =>
       for_each G (snd group) (bucket_rows G t (fst group)) edata)
    edata g =
  if pools_convert_counts seq_dict then (Raise TypeError, g)
  else (Return (edata ++ entropy_table seq_dict t), g).
Proof.
  revert edata.
  induction seq_dict as [|[s by_length] seq_dict IH]; intro edata.
  - cbn. unfold ret. now rewrite app_nil_r.
  - cbn [for_each pools_convert_counts existsb entropy_table flat_map fst snd].
    unfold bind at 1. rewrite buckets_run.
    destruct (existsb _ by_length); [reflexivity|].
    cbn [orb]. rewrite IH. fold (pools_convert_counts seq_dict).
    destruct (pools_convert_counts seq_dict); [reflexivity|].
    fold (entropy_table seq_dict t). now rewrite <- app_assoc.
Qed.

(** [calculate_entropies] leaves the generator where it found it.  It
    raises [TypeError] when the conversion of the counts is reached in
    some bucket; otherwise it returns the table, every entropy being 0. *)
Lemma calculate_entropies_run (seq_dict : pools) (t : string) (g : G) :
  calculate_entropies G seq_dict t g =
  if pools_convert_counts seq_dict then (Raise TypeError, g)
  else (Return (entropy_table seq_dict t), g).
Proof. unfold calculate_entropies. now rewrite groups_run. Qed.

Lemma calculate_entropies_Return (seq_dict : pools) (t : string)
    (table : list row) (g g' : G) :
  calculate_entropies G seq_dict t g = (Return table, g') ->
  pools_convert_counts seq_dict = false /\
  table = entropy_table seq_dict t /\ g' = g.
Proof.
  rewrite calculate_entropies_run.
  destruct (pools_convert_counts seq_dict); [discriminate|].
  intro H. inversion H. auto.
Qed.

Lemma calculate_entropies_Raise (seq_dict : pools) (t : string)
    (e : exn) (g g' : G) :
  calculate_entropies G seq_dict t g = (Raise e, g') ->
  e = TypeError /\ g' = g /\
  exists s by_length l seqs,
    In (s, by_length) seq_dict /\ In (l, seqs) by_length /\
    2 <= List.length seqs /\ forall aa, In aa seqs -> 7 <= String.length aa.
Proof.
  rewrite calculate_entropies_run.
  destruct (pools_convert_counts seq_dict) eqn:E; [|discriminate].
  intro H. inversion H. refine (conj eq_refl (conj eq_refl _)).
  apply pools_convert_counts_iff in E.
  destruct E as (s & bl & l & seqs & Hs & Hl & Hb).
  apply bucket_converts_counts_iff in Hb. now exists s, bl, l, seqs.
Qed.

Lemma calculate_entropies_few (seq_dict : pools) (t : string) (g : G) :
  (forall s by_length l seqs,
     In (s, by_length) seq_dict -> In (l, seqs) by_length ->
     List.length seqs <= 1) ->
  calculate_entropies G seq_dict t g = (Return (entropy_table seq_dict t), g).
Proof.
  intro Hfew. rewrite calculate_entropies_run.
  destruct (pools_convert_counts seq_dict) eqn:E; [|reflexivity].
  apply pools_convert_counts_iff in E.
  destruct E as (s & bl & l & seqs & Hs & Hl & Hb).
  now rewrite (bucket_converts_counts_short seqs (Hfew _ _ _ _ Hs Hl)) in Hb.
Qed.
End CalculateEntropiesFacts.

(** *** The rows of one bucket inside the table *)

Lemma filter_flat_map_nil {A B : Type} (f : A -> list B) (p : B -> bool)
    (xs : list A) :
  (forall x, In x xs -> filter p (f x) = []) -> filter p (flat_map f xs) = [].
Proof.
  induction xs as [|x xs IH]; intro H; simpl; [reflexivity|].
  rewrite filter_app, (H x) by now left.
  apply IH. intros; apply H; now right.
Qed.

Lemma filter_flat_map_key {K V B : Type} (f : K * V -> list B)
    (p : B -> bool) (d : list (K * V)) (k : K) (v : V) :
  NoDup (keys d) -> In (k, v) d ->
  (forall k' v', In (k', v') d -> k' <> k -> filter p (f (k', v')) = []) ->
  filter p (flat_map f d) = filter p (f (k, v)).
Proof.
  unfold keys. induction d as [|[k0 v0] d IH]; simpl; [tauto|].
  intros Hnd Hin Hother. inversion Hnd as [|? ? Hk0 Hd]; subst.
  rewrite filter_app. destruct Hin as [E|Hin].
  - inversion E; subst k0 v0. rewrite filter_flat_map_nil, app_nil_r; auto.
    intros [k' v'] Hx. apply Hother; [now right|].
    intros ->. apply Hk0. change k with (fst (k, v')). now apply in_map.
  - rewrite (Hother k0 v0); [|now left|].
    + apply IH; auto.
    + intros ->. apply Hk0. change k with (fst (k, v)). now apply in_map.
Qed.

Lemma filter_none {A : Type} (p : A -> bool) (xs : list A) :
  (forall x, In x xs -> p x = false) -> filter p xs = [].
Proof.
  induction xs as [|x xs IH]; intro H; simpl; [reflexivity|].
  rewrite (H x) by now left. apply IH. intros; apply H; now right.
Qed.

Lemma filter_every {A : Type} (p : A -> bool) (xs : list A) :
  (forall x, In x xs -> p x = true) -> filter p xs = xs.
Proof.
  induction xs as [|x xs IH]; intro H; simpl; [reflexivity|].
  rewrite (H x) by now left. f_equal. apply IH. intros; apply H; now right.
Qed.

Lemma rows_of_bucket_keys (t s : string) (l : nat) (seqs : list string)
    (r : row) :
  In r (rows_of_bucket t s l seqs) -> shared r = s /\ CDR3_length r = l.
Proof.
  unfold rows_of_bucket. rewrite in_map_iff. intros (c & <- & _). now split.
Qed.

Lemma rows_for_other_bucket (t s s' : string) (l l' : nat)
    (seqs : list string) :
  s' <> s \/ l' <> l -> rows_for s l (rows_of_bucket t s' l' seqs) = [].
Proof.
  intro H. apply filter_none. intros r Hr.
  apply rows_of_bucket_keys in Hr. destruct Hr as [-> ->].
  apply andb_false_iff.
  destruct H as [H|H]; [left; now apply String.eqb_neq
                       |right; now apply Nat.eqb_neq].
Qed.

Lemma rows_for_same_bucket (t s : string) (l : nat) (seqs : list string) :
  rows_for s l (rows_of_bucket t s l seqs) = rows_of_bucket t s l seqs.
Proof.
  apply filter_every. intros r Hr.
  apply rows_of_bucket_keys in Hr. destruct Hr as [-> ->].
  now rewrite String.eqb_refl, Nat.eqb_refl.
Qed.

(** In a dictionary with one entry per key, the rows of the table that
    carry a (class, length) are the rows its bucket contributed. *)
Lemma rows_for_table (seq_dict : pools) (t s : string)
    (by_length : length_dict) (l : nat) (seqs : list string) :
  unique_keys seq_dict ->
  In (s, by_length) seq_dict -> In (l, seqs) by_length ->
  rows_for s l (entropy_table seq_dict t) = rows_of_bucket t s l seqs.
Proof.
  intros [Hd Hbl] Hs Hl. unfold rows_for, entropy_table.
  rewrite (filter_flat_map_key _ _ seq_dict s by_length Hd Hs).
  - cbn [fst snd].
    rewrite (filter_flat_map_key _ _ by_length l seqs (Hbl _ _ Hs) Hl).
    + apply rows_for_same_bucket.
    + intros l' seqs' _ Hne. apply rows_for_other_bucket. now right.
  - intros s' bl' _ Hne. apply filter_flat_map_nil.
    intros [l' seqs'] _. apply rows_for_other_bucket. now left.
Qed.

Lemma rows_of_short_bucket (t s : string) (l : nat) (seqs : list string) :
  l <= 6 -> (forall aa, In aa seqs -> String.length aa = l) ->
  rows_of_bucket t s l seqs = [].
Proof.
  intros Hl Hlen. unfold rows_of_bucket, interior_columns.
  rewrite slice_short; [reflexivity|].
  pose proof (zip_star_length l seqs Hlen). lia.
Qed.

Lemma rows_of_long_bucket (t s : string) (l : nat) (seqs : list string) :
  6 < l -> seqs <> [] -> (forall aa, In aa seqs -> String.length aa = l) ->
  rows_of_bucket t s l seqs =
  map (fun _ => mk_row (sample_label t s) t 0%R l s) (seq 3 (l - 6)).
Proof.
  intros Hl Hne Hlen. unfold rows_of_bucket, interior_columns.
  rewrite (zip_star_columns l seqs Hne Hlen), slice_interior by exact Hl.
  now rewrite map_map.
Qed.

Lemma column_length (i : nat) (seqs : list string) :
  List.length (column i seqs) = List.length seqs.
Proof. unfold column. apply length_map. Qed.

Ltac solve_unique_keys :=
  split;
  [ repeat constructor; simpl; intuition discriminate
  | intros ? ? Hin; simpl in Hin;
    repeat (destruct Hin as [Hin|Hin];
            [inversion Hin; subst; repeat constructor; simpl;
             intuition discriminate|]);
    destruct Hin ].

(** C6, as stated, fails on a bucket that is present but empty: length 7
    is more than twice the trim of 3, yet no row is emitted. *)
Lemma calculate_entropies_empty_bucket_counterexample :
  let seq_dict : pools := [("shared", [(7, [])])] in
  unique_keys seq_dict /\
  In ("shared", [(7, [])]) seq_dict /\
  In (7, []) [(7, @nil string)] /\
  (forall aa, In aa (@nil string) -> String.length aa = 7) /\
  2 * 3 < 7 /\
  exists table,
    calculate_entropies unit seq_dict "observed" tt = (Return table, tt) /\
    List.length (rows_for "shared" 7 table) <> List.length (seq 3 (7 - 2 * 3)).
Proof.
  split; [solve_unique_keys|].
  split; [now left|]. split; [now left|]. split; [intros aa []|].
  split; [lia|].
  exists []. split; [reflexivity|simpl; lia].
Qed.

Section CalculateEntropiesProperties.
Variable G : Type.

(** C6, amended. With the trim of 3 of the code, whenever
    [calculate_entropies] returns a table, for each class and each length
    [l] whose bucket holds sequences of that length: the table has no row
    of the bucket when [l <= 6], and when [l > 6] and the bucket is not
    empty, exactly one row per interior position [3 <= i < l - 3], each
    carrying the 0 that [entropy] returns on column [i]; a non-empty
    bucket of length 7 gives the single row of position 3. *)
Theorem calculate_entropies_interior_positions (seq_dict : pools)
    (t s : string) (by_length : length_dict) (l : nat) (seqs : list string)
    (table : list row) (g g' : G) :
  unique_keys seq_dict ->
  In (s, by_length) seq_dict -> In (l, seqs) by_length ->
  (forall aa, In aa seqs -> String.length aa = l) ->
  calculate_entropies G seq_dict t g = (Return table, g') ->
  (l <= 2 * 3 -> rows_for s l table = []) /\
  (2 * 3 < l -> seqs <> [] ->
   rows_for s l table =
   map (fun _ => mk_row (sample_label t s) t 0%R l s) (seq 3 (l - 2 * 3)) /\
   forall i, 3 <= i < l - 3 -> entropy (column i seqs) = Return 0%R) /\
  (l = 7 -> seqs <> [] ->
   rows_for s l table = [mk_row (sample_label t s) t 0%R 7 s]).
Proof.
  intros Hu Hs Hl Hlen Hret.
  apply calculate_entropies_Return in Hret. destruct Hret as (Hno & -> & _).
  rewrite (rows_for_table _ _ _ _ _ _ Hu Hs Hl).
  split; [|split].
  - intro H. apply rows_of_short_bucket; [simpl in H; lia|exact Hlen].
  - intros H Hne. split; [apply rows_of_long_bucket; auto|].
    intros i Hi. rewrite entropy_run. unfold converts_counts.
    rewrite column_length.
    destruct (Nat.leb_spec 2 (List.length seqs)) as [Hmany|_]; [|reflexivity].
    assert (Hb : bucket_converts_counts seqs = true).
    { apply bucket_converts_counts_iff. split; [exact Hmany|].
      intros aa Haa. rewrite (Hlen aa Haa). simpl in H. lia. }
    assert (Hp : pools_convert_counts seq_dict = true).
    { apply pools_convert_counts_iff. now exists s, by_length, l, seqs. }
    congruence.
  - intros -> Hne. rewrite rows_of_long_bucket by (auto; lia). reflexivity.
Qed.

End CalculateEntropiesProperties.

Lemma calculate_entropies_interior_positions_witness :
  let table := [mk_row "observed (shared)" "observed" 0 7 "shared"] in
  (7 <= 2 * 3 -> rows_for "shared" 7 table = []) /\
  (2 * 3 < 7 -> ["CASSLGY"] <> [] ->
   rows_for "shared" 7 table =
   map (fun _ =>
          mk_row (sample_label "observed" "shared") "observed" 0%R 7 "shared")
     (seq 3 (7 - 2 * 3)) /\
   forall i, 3 <= i < 7 - 3 -> entropy (column i ["CASSLGY"]) = Return 0%R) /\
  (7 = 7 -> ["CASSLGY"] <> [] ->
   rows_for "shared" 7 table =
   [mk_row (sample_label "observed" "shared") "observed" 0%R 7 "shared"]).
Proof.
  apply (calculate_entropies_interior_positions unit
           [("shared", [(7, ["CASSLGY"]); (8, [])])]
           "observed" "shared" [(7, ["CASSLGY"]); (8, [])]
           7 ["CASSLGY"]
           [mk_row "observed (shared)" "observed" 0 7 "shared"] tt tt).
  - solve_unique_keys.
  - simpl. tauto.
  - simpl. tauto.
  - intros aa [<-|[]]; reflexivity.
  - reflexivity.
Defined.


(** ** [get_sequences]: the down-selection *)

Lemma has_classes_set (d d' : pools) (s : string) (l : nat) (v : list string) :
  has_classes d -> pools_set d s l v = Return d' -> has_classes d'.
Proof.
  unfold pools_set. intros Hd H s' Hs'.
  destruct (dict_get String.eqb d s) as [bl|]; [|discriminate].
  simpl in H. inversion H; subst d'.
  rewrite (dict_get_set _ String.eqb_eq).
  destruct (String.eqb s' s); eauto.
Qed.

Lemma first_choice_samples : samples_without_replacement first_choice.
Proof.
  intros s n g Hn. exists (seq 0 n). simpl. repeat split.
  - apply seq_NoDup.
  - apply length_seq.
  - intros i Hi. apply in_seq in Hi. lia.
  - revert n Hn. induction s as [|x s IH]; intros [|n] Hn; simpl in *;
      try reflexivity; try lia.
    rewrite <- seq_shift, map_map. f_equal. apply IH. lia.
Qed.

Lemma drawn_length (population sample : list string) (n : nat) :
  drawn_without_replacement population n sample -> List.length sample = n.
Proof.
  intros (positions & _ & Hlen & _ & ->). now rewrite length_map.
Qed.

Section BalanceFacts.
Variable G : Type.
Variable choice : list string -> nat -> G -> list string * G.

Lemma downselect_bucket_run (all selected : pools) (l n : nat) (s : string)
    (bucket : list string) (g : G) :
  pools_get all s l = Return bucket ->
  In s sharing_classes -> has_classes selected -> unique_keys selected ->
  exists selected' g' bucket',
    downselect_bucket G choice all l n s selected g = (Return selected', g') /\
    has_classes selected' /\ unique_keys selected' /\
    downselected choice n bucket bucket' /\
    forall s' l',
      pools_get selected' s' l' =
      if String.eqb s' s && Nat.eqb l' l then Return bucket'
      else pools_get selected s' l'.
Proof.
  intros Hget Hs Hcl Hu. unfold downselect_bucket, bind, lift.
  rewrite Hget. destruct (Hcl s Hs) as [bl Hbl].
  unfold downselected.
  destruct (n <? List.length bucket).
  - unfold np_random_choice.
    destruct (choice bucket n g) as [sample g'] eqn:Hc.
    destruct (pools_get_set selected s l sample bl Hbl) as (d' & Hd' & Hall).
    rewrite Hd'. exists d', g', sample.
    refine (conj eq_refl
              (conj (has_classes_set _ _ _ _ _ Hcl Hd')
                 (conj (unique_keys_set _ _ _ _ _ Hu Hd') (conj _ Hall)))).
    exists g. now rewrite Hc.
  - unfold ret.
    destruct (pools_get_set selected s l bucket bl Hbl) as (d' & Hd' & Hall).
    rewrite Hd'. exists d', g, bucket.
    exact (conj eq_refl
             (conj (has_classes_set _ _ _ _ _ Hcl Hd')
                (conj (unique_keys_set _ _ _ _ _ Hu Hd')
                   (conj eq_refl Hall)))).
Qed.

Lemma bucket_sizes_smallest (all : pools) (l : nat) :
  has_all_buckets all -> In l cdr3_lengths ->
  exists sizes,
    bucket_sizes all l sharing_classes = Return sizes /\
    min_list sizes = smallest_bucket all l.
Proof.
  intros Hall Hl.
  destruct (Hall "shared" l) as [bs Hbs]; [simpl; tauto|exact Hl|].
  destruct (Hall "unshared" l) as [bu Hbu]; [simpl; tauto|exact Hl|].
  exists [List.length bs; List.length bu].
  unfold smallest_bucket, bucket_size, sharing_classes, bucket_sizes.
  rewrite Hbs, Hbu. split; [reflexivity|].
  unfold min_list. simpl. lia.
Qed.

Lemma downselect_length_run (all selected : pools) (l : nat) (g : G) :
  has_all_buckets all -> In l cdr3_lengths ->
  has_classes selected -> unique_keys selected ->
  exists selected' g',
    downselect_length G choice all l selected g = (Return selected', g') /\
    has_classes selected' /\ unique_keys selected' /\
    forall s, In s sharing_classes ->
      (exists bucket bucket',
         pools_get all s l = Return bucket /\
         pools_get selected' s l = Return bucket' /\
         downselected choice (smallest_bucket all l) bucket bucket') /\
      (forall l', l' <> l -> pools_get selected' s l' = pools_get selected s l').
Proof.
  intros Hall Hl Hcl Hu. unfold downselect_length, bind, lift.
  destruct (bucket_sizes_smallest all l Hall Hl) as (sizes & -> & ->).
  destruct (Hall "shared" l) as [bs Hbs]; [simpl; tauto|exact Hl|].
  destruct (Hall "unshared" l) as [bu Hbu]; [simpl; tauto|exact Hl|].
  unfold sharing_classes. cbn [for_each]. unfold bind.
  destruct (downselect_bucket_run all selected l (smallest_bucket all l)
              "shared" bs g Hbs) as (d1 & g1 & b1 & -> & Hcl1 & Hu1 & Hb1 & Hg1);
    [simpl; tauto|exact Hcl|exact Hu|].
  destruct (downselect_bucket_run all d1 l (smallest_bucket all l)
              "unshared" bu g1 Hbu) as (d2 & g2 & b2 & -> & Hcl2 & Hu2 & Hb2 & Hg2);
    [simpl; tauto|exact Hcl1|exact Hu1|].
  exists d2, g2. unfold ret.
  refine (conj eq_refl (conj Hcl2 (conj Hu2 _))).
  intros s Hs. split.
  - destruct Hs as [<-|[<-|[]]].
    + exists bs, b1. refine (conj Hbs (conj _ Hb1)).
      rewrite Hg2, Hg1. simpl. now rewrite Nat.eqb_refl.
    + exists bu, b2. refine (conj Hbu (conj _ Hb2)).
      rewrite Hg2. simpl. now rewrite Nat.eqb_refl.
  - intros l' Hne. rewrite Hg2, Hg1.
    apply Nat.eqb_neq in Hne. rewrite Hne, !andb_false_r. reflexivity.
Qed.

Lemma downselect_lengths_run (all : pools) (lengths : list nat) :
  has_all_buckets all ->
  (forall l, In l lengths -> In l cdr3_lengths) -> NoDup lengths ->
  forall (selected : pools) (g : G),
    has_classes selected -> unique_keys selected ->
    exists selected' g',
      for_each G lengths (downselect_length G choice all) selected g =
      (Return selected', g') /\
      has_classes selected' /\ unique_keys selected' /\
      forall s, In s sharing_classes ->
        (forall l, In l lengths ->
           exists bucket bucket',
             pools_get all s l = Return bucket /\
             pools_get selected' s l = Return bucket' /\
             downselected choice (smallest_bucket all l) bucket bucket') /\
        (forall l, ~ In l lengths ->
           pools_get selected' s l = pools_get selected s l).
Proof.
  intros Hall. induction lengths as [|l lengths IH];
    intros Hin Hnd selected g Hcl Hu.
  - exists selected, g. simpl. unfold ret.
    refine (conj eq_refl (conj Hcl (conj Hu _))).
    intros s _. split; [intros l []|reflexivity].
  - inversion Hnd as [|? ? Hl Hnd']; subst.
    cbn [for_each]. unfold bind.
    destruct (downselect_length_run all selected l g Hall)
      as (d1 & g1 & -> & Hcl1 & Hu1 & H1); [apply Hin; now left|auto|auto|].
    destruct (IH (fun l' H' => Hin l' (or_intror H')) Hnd' d1 g1 Hcl1 Hu1)
      as (d2 & g2 & -> & Hcl2 & Hu2 & H2).
    exists d2, g2. refine (conj eq_refl (conj Hcl2 (conj Hu2 _))).
    intros s Hs. split.
    + intros l' [<-|Hl'].
      * destruct (H1 s Hs) as [(b & b' & Hb & Hb' & Hd) _].
        exists b, b'. refine (conj Hb (conj _ Hd)).
        rewrite (proj2 (H2 s Hs) l Hl). exact Hb'.
      * exact (proj1 (H2 s Hs) l' Hl').
    + intros l' Hl'. rewrite (proj2 (H2 s Hs) l').
      * apply (proj2 (H1 s Hs)). intros ->. apply Hl'. now left.
      * intro. apply Hl'. now right.
Qed.

(** The down-selection of a dataset returns, and every selected bucket
    is the down-selection of the bucket it comes from. *)
Lemma balance_pools_run (all : pools) (g : G) :
  has_all_buckets all ->
  exists selected g',
    balance_pools G choice all g = (Return selected, g') /\
    unique_keys selected /\
    forall s l, In s sharing_classes -> In l cdr3_lengths ->
      exists bucket bucket',
        pools_get all s l = Return bucket /\
        pools_get selected s l = Return bucket' /\
        downselected choice (smallest_bucket all l) bucket bucket'.
Proof.
  intro Hall. unfold balance_pools, downselect.
  destruct (downselect_lengths_run all cdr3_lengths Hall (fun l H => H)
              (seq_NoDup 8 7) [("shared", []); ("unshared", [])] g)
    as (d & g' & Hrun & _ & Hu & H).
  - intros s [<-|[<-|[]]]; eexists; reflexivity.
  - solve_unique_keys.
  - exists d, g'. refine (conj Hrun (conj Hu _)).
    intros s l Hs Hl. exact (proj1 (H s Hs) l Hl).
Qed.

End BalanceFacts.

Lemma pools_get_entries (d : pools) (s : string) (l : nat)
    (bucket : list string) :
  pools_get d s l = Return bucket ->
  exists by_length, In (s, by_length) d /\ In (l, bucket) by_length.
Proof.
  unfold pools_get.
  destruct (dict_get String.eqb d s) as [bl|] eqn:Hs; [|discriminate].
  simpl. intro Hl. exists bl. split.
  - now apply (dict_get_In _ String.eqb_eq).
  - now apply (dict_get_In _ Nat.eqb_eq).
Qed.

Lemma example_pools_has_all_buckets : has_all_buckets example_pools.
Proof.
  intros s l Hs Hl.
  simpl in Hs. destruct Hs as [<-|[<-|[]]];
    simpl in Hl;
    repeat (destruct Hl as [<-|Hl]; [eexists; reflexivity|]);
    destruct Hl.
Qed.

(** The balancing example run with the generator [first_choice]: two of
    the ten unshared sequences are kept, the two shared ones are left as
    they are, the unshared sequence of length 8 is dropped, and the
    generator has been used twice. *)
Example balance_pools_example :
  balance_pools nat first_choice example_pools 0 =
  (Return
     [ ("shared",
        (7, ["CASSLGT"; "CASSQGT"]) :: map (fun i => (i, [])) (seq 8 7));
       ("unshared",
        (7, ["CARDYWG"; "CARGYWG"]) :: map (fun i => (i, [])) (seq 8 7)) ],
   2).
Proof. reflexivity. Qed.

Section BalanceProperties.
Variable G : Type.
Variable choice : list string -> nat -> G -> list string * G.
Hypothesis choice_samples : samples_without_replacement choice.

(** C5. At every length, with [n] the smaller of the sizes of the shared
    and the unshared bucket: a bucket larger than [n] is replaced by the
    sample [np.random.choice] draws from it, of exactly [n] sequences
    taken without replacement, and a bucket of size [n] or less is left as
    it is. *)
Theorem balance_pools_balanced (all : pools) (g : G) :
  has_all_buckets all ->
  exists selected g',
    balance_pools G choice all g = (Return selected, g') /\
    forall l, In l cdr3_lengths ->
      let n := Nat.min (bucket_size all "shared" l)
                       (bucket_size all "unshared" l) in
      forall s bucket,
        In s sharing_classes -> pools_get all s l = Return bucket ->
        exists bucket',
          pools_get selected s l = Return bucket' /\
          (n < List.length bucket ->
           (exists g0, bucket' = fst (choice bucket n g0)) /\
           List.length bucket' = n /\
           drawn_without_replacement bucket n bucket') /\
          (List.length bucket <= n -> bucket' = bucket).
Proof.
  intro Hall.
  destruct (balance_pools_run G choice all g Hall) as (d & g' & Hrun & _ & H).
  exists d, g'. split; [exact Hrun|].
  intros l Hl n s bucket Hs Hget.
  destruct (H s l Hs Hl) as (b & b' & Hb & Hb' & Hd).
  rewrite Hget in Hb. inversion Hb; subst b. clear Hb.
  exists b'. split; [exact Hb'|].
  unfold downselected in Hd. fold (smallest_bucket all l) in n.
  fold n in Hd. split.
  - intro Hlt. apply Nat.ltb_lt in Hlt. rewrite Hlt in Hd.
    apply Nat.ltb_lt in Hlt.
    destruct Hd as [g0 Hg0].
    assert (Hdraw : drawn_without_replacement bucket n b').
    { rewrite Hg0. apply choice_samples. lia. }
    split; [now exists g0|]. split; [|exact Hdraw].
    exact (drawn_length _ _ _ Hdraw).
  - intro Hle. apply Nat.ltb_ge in Hle. now rewrite Hle in Hd.
Qed.

(** C8. When one of the two classes has no sequence at a length, the
    common size is 0, both selected buckets of that length are empty and
    the down-selection raises nothing.  Downstream, a table that
    [calculate_entropies] returns on the selection has no row for that
    length, and an exception of [calculate_entropies] is the [TypeError]
    of a bucket of two sequences or more, not of the emptied ones. *)
Theorem balance_pools_empty_group (all : pools) (g : G) (l : nat)
    (s0 t : string) :
  has_all_buckets all -> In l cdr3_lengths ->
  In s0 sharing_classes -> pools_get all s0 l = Return [] ->
  exists selected g',
    balance_pools G choice all g = (Return selected, g') /\
    smallest_bucket all l = 0 /\
    (forall s, In s sharing_classes -> pools_get selected s l = Return []) /\
    (forall table g1 g2,
       calculate_entropies G selected t g1 = (Return table, g2) ->
       forall s, In s sharing_classes -> rows_for s l table = []) /\
    (forall e g1 g2,
       calculate_entropies G selected t g1 = (Raise e, g2) ->
       e = TypeError /\
       exists s' l' bucket,
         pools_get selected s' l' = Return bucket /\
         2 <= List.length bucket /\ (s', l') <> (s0, l)).
Proof.
  intros Hall Hl Hs0 Hempty.
  destruct (balance_pools_run G choice all g Hall) as (d & g' & Hrun & Hu & H).
  assert (Hn : smallest_bucket all l = 0).
  { unfold smallest_bucket, bucket_size.
    destruct Hs0 as [<-|[<-|[]]]; rewrite Hempty; simpl; lia. }
  assert (Hsel : forall s, In s sharing_classes -> pools_get d s l = Return []).
  { intros s Hs. destruct (H s l Hs Hl) as (b & b' & Hb & Hb' & Hd).
    rewrite Hb'. f_equal. unfold downselected in Hd. rewrite Hn in Hd.
    destruct (Nat.ltb_spec 0 (List.length b)) as [Hlt|Hge].
    - destruct Hd as [g0 ->].
      pose proof (choice_samples b 0 g0 (Nat.le_0_l _)) as Hdraw.
      apply drawn_length in Hdraw. now apply length_zero_iff_nil.
    - subst b'. apply length_zero_iff_nil. lia. }
  exists d, g'. split; [exact Hrun|]. split; [exact Hn|].
  split; [exact Hsel|]. split.
  - intros table g1 g2 Hret s Hs.
    apply calculate_entropies_Return in Hret. destruct Hret as (_ & -> & _).
    destruct (pools_get_entries d s l [] (Hsel s Hs)) as (bl & Hin & Hin').
    now rewrite (rows_for_table d t s bl l [] Hu Hin Hin').
  - intros e g1 g2 Hraise. apply calculate_entropies_Raise in Hraise.
    destruct Hraise as (-> & _ & s' & bl' & l' & seqs' & H1 & H2 & H3 & _).
    split; [reflexivity|]. exists s', l', seqs'.
    assert (Hget : pools_get d s' l' = Return seqs').
    { unfold pools_get.
      rewrite (In_dict_get _ String.eqb_eq _ _ _ (proj1 Hu) H1). cbn [obind].
      exact (In_dict_get _ Nat.eqb_eq _ _ _ (proj2 Hu _ _ H1) H2). }
    refine (conj Hget (conj H3 _)). intro E. inversion E; subst s' l'.
    rewrite (Hsel s0 Hs0) in Hget. inversion Hget; subst seqs'.
    simpl in H3. lia.
Qed.
End BalanceProperties.

Lemma balance_pools_balanced_witness :
  exists selected g',
    balance_pools nat first_choice example_pools 0 = (Return selected, g') /\
    forall l, In l cdr3_lengths ->
      let n := Nat.min (bucket_size example_pools "shared" l)
                       (bucket_size example_pools "unshared" l) in
      forall s bucket,
        In s sharing_classes ->
        pools_get example_pools s l = Return bucket ->
        exists bucket',
          pools_get selected s l = Return bucket' /\
          (n < List.length bucket ->
           (exists g0, bucket' = fst (first_choice bucket n g0)) /\
           List.length bucket' = n /\
           drawn_without_replacement bucket n bucket') /\
          (List.length bucket <= n -> bucket' = bucket).
Proof.
  exact (balance_pools_balanced nat first_choice first_choice_samples
           example_pools 0 example_pools_has_all_buckets).
Defined.

Lemma balance_pools_empty_group_witness :
  exists selected g',
    balance_pools nat first_choice example_pools 0 = (Return selected, g') /\
    smallest_bucket example_pools 8 = 0 /\
    (forall s, In s sharing_classes -> pools_get selected s 8 = Return []) /\
    (forall table g1 g2,
       calculate_entropies nat selected "observed" g1 = (Return table, g2) ->
       forall s, In s sharing_classes -> rows_for s 8 table = []) /\
    (forall e g1 g2,
       calculate_entropies nat selected "observed" g1 = (Raise e, g2) ->
       e = TypeError /\
       exists s' l' bucket,
         pools_get selected s' l' = Return bucket /\
         2 <= List.length bucket /\ (s', l') <> ("shared", 8)).
Proof.
  apply (balance_pools_empty_group nat first_choice first_choice_samples
           example_pools 0 8 "shared" "observed"
           example_pools_has_all_buckets).
  - simpl. tauto.
  - simpl. tauto.
  - reflexivity.
Defined.

(** * Further properties of the notebook *)

(** ** The pools of a file, bucket by bucket *)

Lemma tag_numeric_or_not (line : string) :
  numeric_tag_or_blank line \/ non_numeric_tag line.
Proof.
  unfold numeric_tag_or_blank, non_numeric_tag.
  destruct (fields line) as [|tag rest]; [now left|].
  destruct (int tag) as [c|e] eqn:Hc.
  - left. now exists c.
  - right. exists tag, rest.
    now rewrite <- (int_raises_ValueError _ _ Hc).
Qed.

Lemma pool_line_non_numeric (seqs : pools) (line : string) :
  non_numeric_tag line -> pool_line seqs line = Raise ValueError.
Proof.
  intros (tag & rest & Hf & Hint). unfold pool_line.
  unfold fields in Hf. rewrite Hf.
  change (index (tag :: rest) 0) with (@Return string tag).
  cbn [obind]. now rewrite Hint.
Qed.

(** The sequences a line with an integer first field adds to a bucket. *)
Lemma pool_line_contribution (seqs : pools) (line : string) :
  has_all_buckets seqs -> numeric_tag_or_blank line ->
  exists seqs',
    pool_line seqs line = Return seqs' /\
    has_all_buckets seqs' /\
    forall s l,
      pools_get seqs' s l =
      (bucket <-! pools_get seqs s l ;; Return (bucket ++ bucket_of [line] s l)).
Proof.
  intros Hall Hnum.
  assert (Hsame : forall s l,
             pools_get seqs s l =
             (bucket <-! pools_get seqs s l ;; Return (bucket ++ []))).
  { intros s l. destruct (pools_get seqs s l); simpl;
      [now rewrite app_nil_r|reflexivity]. }
  unfold bucket_of, accepted. cbn [flat_map]. unfold numeric_tag_or_blank in Hnum.
  destruct (fields line) as [|tag rest] eqn:Hf.
  - exists seqs. split; [|split; [exact Hall|exact Hsame]].
    unfold pool_line. unfold fields in Hf. now rewrite Hf.
  - destruct Hnum as [c Hc].
    rewrite (pool_line_numeric seqs line tag rest c Hf Hc), Hc.
    destruct (classify c) as [s0|] eqn:Hs.
    2:{ exists seqs. split; [reflexivity|split; [exact Hall|]].
        destruct rest as [|f1 [|f2 [|aa rest]]]; exact Hsame. }
    destruct rest as [|f1 [|f2 [|aa rest]]];
      try (exists seqs; split; [reflexivity|split; [exact Hall|exact Hsame]]).
    cbn [nth_error]. cbv zeta.
    destruct ((7 <=? String.length aa) && (String.length aa <=? 14)) eqn:Hl.
    2:{ exists seqs. split; [reflexivity|split; [exact Hall|exact Hsame]]. }
    pose proof (proj1 (cdr3_lengths_spec _) Hl) as Hl'.
    pose proof (classify_class _ _ Hs) as Hs'.
    destruct (Hall s0 _ Hs' Hl') as [b Hb].
    destruct (pools_get_append seqs s0 _ aa b Hb) as (d' & Hd' & Hget).
    exists d'. split; [exact Hd'|].
    split; [exact (has_all_buckets_append _ _ _ _ _ Hall Hd')|].
    intros s l. rewrite Hget, (String.eqb_sym s0 s).
    destruct (String.eqb s s0) eqn:Es; simpl.
    + apply String.eqb_eq in Es; subst s.
      rewrite (Nat.eqb_sym (String.length aa) l).
      destruct (Nat.eqb l (String.length aa)) eqn:El.
      * apply Nat.eqb_eq in El; subst l. rewrite Hb. reflexivity.
      * exact (Hsame s0 l).
    + exact (Hsame s l).
Qed.

Lemma bucket_of_cons (line : string) (lines : list string) (s : string)
    (l : nat) :
  bucket_of (line :: lines) s l = bucket_of [line] s l ++ bucket_of lines s l.
Proof.
  unfold bucket_of. cbn [flat_map]. now rewrite app_nil_r.
Qed.

Lemma pool_lines_contribution (lines : list string) (seqs : pools) :
  has_all_buckets seqs ->
  (forall line, In line lines -> numeric_tag_or_blank line) ->
  exists seqs',
    pool_lines seqs lines = Return seqs' /\
    forall s l,
      pools_get seqs' s l =
      (bucket <-! pools_get seqs s l ;; Return (bucket ++ bucket_of lines s l)).
Proof.
  revert seqs. induction lines as [|line lines IH]; intros seqs Hall Hnum.
  - exists seqs. split; [reflexivity|]. intros s l.
    destruct (pools_get seqs s l); simpl; [now rewrite app_nil_r|reflexivity].
  - destruct (pool_line_contribution seqs line Hall (Hnum line (or_introl eq_refl)))
      as (d1 & Hd1 & Hall1 & Hget1).
    destruct (IH d1 Hall1 (fun x Hx => Hnum x (or_intror Hx)))
      as (d2 & Hd2 & Hget2).
    exists d2. split.
    + cbn [pool_lines]. rewrite Hd1. exact Hd2.
    + intros s l. rewrite (bucket_of_cons line lines), Hget2, Hget1.
      destruct (pools_get seqs s l); cbn [obind]; [|reflexivity].
      now rewrite app_assoc.
Qed.

(** X1. On a stream whose non-blank rows all start with an integer,
    [build_pools] returns, and the bucket of every class and length holds
    exactly the sequences of the rows accepted for it, in the order of the
    stream. *)
Theorem build_pools_buckets (lines : list string) :
  (forall line, In line lines -> numeric_tag_or_blank line) ->
  exists pools,
    build_pools lines = Return pools /\
    forall s l, In s sharing_classes -> In l cdr3_lengths ->
      pools_get pools s l = Return (bucket_of lines s l).
Proof.
  intro Hnum.
  destruct (pool_lines_contribution lines empty_pools
              empty_pools_has_all_buckets Hnum) as (d & Hd & Hget).
  exists d. split; [exact Hd|].
  intros s l Hs Hl. rewrite Hget.
  destruct (empty_pools_has_all_buckets s l Hs Hl) as [b Hb].
  assert (b = []).
  { simpl in Hs. destruct Hs as [<-|[<-|[]]];
      simpl in Hl; repeat (destruct Hl as [<-|Hl]; [now inversion Hb|]);
      destruct Hl. }
  subst b. now rewrite Hb.
Qed.

Lemma build_pools_buckets_witness :
  exists pools,
    build_pools ["6 a b CASSLGYT"; ""; "1 a b CARDYWG"; "2 a b CARDYWG";
                 "10 a b CASSQGYT"; "6 a"] = Return pools /\
    forall s l, In s sharing_classes -> In l cdr3_lengths ->
      pools_get pools s l =
      Return (bucket_of ["6 a b CASSLGYT"; ""; "1 a b CARDYWG";
                         "2 a b CARDYWG"; "10 a b CASSQGYT"; "6 a"] s l).
Proof.
  apply (build_pools_buckets
           ["6 a b CASSLGYT"; ""; "1 a b CARDYWG"; "2 a b CARDYWG";
            "10 a b CASSQGYT"; "6 a"]).
  intros line Hin. simpl in Hin.
  repeat (destruct Hin as [<-|Hin];
          [first [exact I | eexists; reflexivity]|]).
  destruct Hin.
Defined.

(** ** The layout of the pools and the lengths of their sequences *)

Lemma keys_dict_set_present {K V : Type} (eqb : K -> K -> bool)
    (d : list (K * V)) (k : K) (v v0 : V) :
  dict_get eqb d k = Return v0 -> keys (dict_set eqb d k v) = keys d.
Proof.
  unfold keys. induction d as [|[k0 v1] d IH]; simpl; [discriminate|].
  destruct (eqb k k0); simpl; [reflexivity|].
  intro H. now rewrite IH.
Qed.

Lemma pools_layout_append (d d' : pools) (s : string) (l : nat) (aa : string) :
  pools_layout d -> pools_append d s l aa = Return d' -> pools_layout d'.
Proof.
  unfold pools_append. intros [Hk Hbl].
  destruct (dict_get String.eqb d s) as [bl|] eqn:Hs; [|discriminate].
  cbn [obind].
  destruct (dict_get Nat.eqb bl l) as [b|] eqn:Hl; [|discriminate].
  cbn [obind]. intro H. inversion H; subst d'. clear H. split.
  - now rewrite (keys_dict_set_present _ _ _ _ _ Hs).
  - intros s' bl' Hin. apply In_dict_set in Hin; [|exact String.eqb_eq].
    destruct Hin as [[-> ->]|Hin]; [|now apply (Hbl s')].
    rewrite (keys_dict_set_present _ _ _ _ _ Hl).
    apply (Hbl s). now apply (dict_get_In _ String.eqb_eq).
Qed.

Lemma pools_layout_unique (d : pools) : pools_layout d -> unique_keys d.
Proof.
  intros [Hk Hbl]. split.
  - rewrite Hk. repeat constructor; simpl; intuition discriminate.
  - intros s bl Hin. rewrite (Hbl s bl Hin). apply seq_NoDup.
Qed.

Lemma empty_pools_layout : pools_layout empty_pools.
Proof.
  split; [reflexivity|].
  intros s bl [H|[H|[]]]; inversion H; reflexivity.
Qed.

(** A line either leaves the pools as they are or appends the sequence
    it is accepted with. *)
Lemma pool_line_cases (seqs seqs' : pools) (line : string) :
  pool_line seqs line = Return seqs' ->
  seqs' = seqs \/
  exists s aa, pools_append seqs s (String.length aa) aa = Return seqs'.
Proof.
  intro Hline.
  destruct (tag_numeric_or_not line) as [Hnum|Hbad].
  2:{ rewrite (pool_line_non_numeric seqs line Hbad) in Hline. discriminate. }
  unfold numeric_tag_or_blank in Hnum.
  destruct (fields line) as [|tag rest] eqn:Hf.
  - left. unfold pool_line in Hline. unfold fields in Hf.
    rewrite Hf in Hline. now inversion Hline.
  - destruct Hnum as [c Hc].
    rewrite (pool_line_numeric seqs line tag rest c Hf Hc) in Hline.
    destruct (classify c) as [s|]; [|left; now inversion Hline].
    destruct (nth_error (tag :: rest) 3) as [aa|];
      [|left; now inversion Hline].
    cbv zeta in Hline.
    destruct ((7 <=? String.length aa) && (String.length aa <=? 14));
      [|left; now inversion Hline].
    right. now exists s, aa.
Qed.

Lemma pool_lines_layout (lines : list string) (seqs seqs' : pools) :
  pools_layout seqs -> pool_lines seqs lines = Return seqs' ->
  pools_layout seqs'.
Proof.
  revert seqs. induction lines as [|line lines IH]; intros seqs Hlay; simpl.
  - intro H. inversion H; subst seqs'. exact Hlay.
  - destruct (pool_line seqs line) as [d|] eqn:Hd; [|discriminate].
    cbn [obind]. apply IH.
    destruct (pool_line_cases _ _ _ Hd) as [->|(s & aa & Happ)];
      [exact Hlay|exact (pools_layout_append _ _ _ _ _ Hlay Happ)].
Qed.

Lemma pool_lines_returns_numeric (lines : list string) (seqs seqs' : pools) :
  pool_lines seqs lines = Return seqs' ->
  forall line, In line lines -> numeric_tag_or_blank line.
Proof.
  revert seqs. induction lines as [|line lines IH]; intros seqs H x Hx;
    [destruct Hx|].
  cbn [pool_lines] in H.
  destruct (pool_line seqs line) as [d|] eqn:Hd; [|discriminate].
  destruct Hx as [<-|Hx]; [|exact (IH d H x Hx)].
  destruct (tag_numeric_or_not line) as [Hnum|Hbad]; [exact Hnum|].
  rewrite (pool_line_non_numeric seqs line Hbad) in Hd. discriminate.
Qed.

Lemma bucket_of_lengths (lines : list string) (s : string) (l : nat)
    (aa : string) :
  In aa (bucket_of lines s l) -> String.length aa = l.
Proof.
  unfold bucket_of. rewrite in_flat_map. intros (line & _ & Hin).
  destruct (accepted line) as [[s' aa']|]; [|destruct Hin].
  destruct (String.eqb s' s && Nat.eqb (String.length aa') l) eqn:E;
    [|destruct Hin].
  destruct Hin as [<-|[]].
  apply andb_true_iff in E. now apply Nat.eqb_eq.
Qed.

(** X2. The pools [build_pools] returns always have the same layout,
    the classes shared and unshared, each with the lengths 7 to 14 in
    this order and one entry per key, and every sequence stored under a
    length has exactly that length. *)
Theorem build_pools_invariant (lines : list string) (pools : pools) :
  build_pools lines = Return pools ->
  pools_layout pools /\ unique_keys pools /\ lengths_respected pools.
Proof.
  intro Hrun.
  assert (Hlay : pools_layout pools)
    by exact (pool_lines_layout _ _ _ empty_pools_layout Hrun).
  pose proof (pools_layout_unique _ Hlay) as Hu.
  split; [exact Hlay|split; [exact Hu|]].
  intros s bl l bucket aa Hs Hl Haa.
  destruct (pool_lines_contribution lines empty_pools
              empty_pools_has_all_buckets
              (pool_lines_returns_numeric _ _ _ Hrun)) as (d & Hd & Hget).
  unfold build_pools in Hrun. rewrite Hrun in Hd. inversion Hd; subst d.
  assert (Hb : pools_get pools s l = Return bucket).
  { unfold pools_get.
    rewrite (In_dict_get _ String.eqb_eq _ _ _ (proj1 Hu) Hs). cbn [obind].
    exact (In_dict_get _ Nat.eqb_eq _ _ _ (proj2 Hu _ _ Hs) Hl). }
  rewrite Hget in Hb.
  destruct (pools_get empty_pools s l) as [b0|] eqn:H0; [|discriminate].
  cbn [obind] in Hb. inversion Hb; subst bucket.
  apply in_app_or in Haa. destruct Haa as [Haa|Haa].
  - exfalso. destruct (pools_get_entries _ _ _ _ H0) as (bl0 & Hin & Hin').
    simpl in Hin. destruct Hin as [Hin|[Hin|[]]]; inversion Hin; subst;
      simpl in Hin';
      repeat (destruct Hin' as [Hin'|Hin'];
              [inversion Hin'; subst; destruct Haa|]);
      destruct Hin'.
  - exact (bucket_of_lengths _ _ _ _ Haa).
Qed.

Lemma build_pools_invariant_witness :
  exists pools,
    build_pools ["6 a b CASSLGYT"; "1 a b CARDYWG"; "1 a b CA"] = Return pools /\
    pools_layout pools /\ unique_keys pools /\ lengths_respected pools.
Proof.
  eexists. split; [reflexivity|].
  apply (build_pools_invariant
           ["6 a b CASSLGYT"; "1 a b CARDYWG"; "1 a b CA"]).
  reflexivity.
Defined.

(** ** When reading a file fails *)

Lemma pool_lines_non_numeric (lines : list string) (seqs : pools) :
  has_all_buckets seqs ->
  (exists line, In line lines /\ non_numeric_tag line) ->
  pool_lines seqs lines = Raise ValueError.
Proof.
  revert seqs. induction lines as [|line lines IH];
    intros seqs Hall (x & Hx & Hbad); [destruct Hx|].
  cbn [pool_lines].
  destruct (tag_numeric_or_not line) as [Hnum|Hbad'].
  - destruct (pool_line_returns seqs line Hall Hnum) as (d & -> & Hall').
    cbn [obind]. apply (IH d Hall').
    destruct Hx as [<-|Hx]; [|now exists x].
    exfalso. destruct Hbad as (tag & rest & Hf & Hint).
    unfold numeric_tag_or_blank in Hnum. rewrite Hf in Hnum.
    destruct Hnum as [c Hc]. congruence.
  - now rewrite (pool_line_non_numeric seqs line Hbad').
Qed.

(** X3. [build_pools] fails exactly when some row has a first field
    that is not an integer, and the exception is then [ValueError]:
    neither [IndexError] nor [KeyError] ever leaves it. *)
Theorem build_pools_failure (lines : list string) :
  (forall e, build_pools lines = Raise e -> e = ValueError) /\
  ((exists e, build_pools lines = Raise e) <->
   (exists line, In line lines /\ non_numeric_tag line)).
Proof.
  assert (Hdich : (forall line, In line lines -> numeric_tag_or_blank line) \/
                  (exists line, In line lines /\ non_numeric_tag line)).
  { induction lines as [|line lines IH]; [left; intros ? []|].
    destruct (tag_numeric_or_not line) as [Hnum|Hbad].
    - destruct IH as [IH|(x & Hx & Hbad)].
      + left. intros x [<-|Hx]; auto.
      + right. exists x. split; [now right|exact Hbad].
    - right. exists line. split; [now left|exact Hbad]. }
  split.
  - intros e He. destruct Hdich as [Hnum|Hbad].
    + destruct (pool_lines_contribution lines empty_pools
                  empty_pools_has_all_buckets Hnum) as (d & Hd & _).
      unfold build_pools in He. congruence.
    + unfold build_pools in He.
      rewrite (pool_lines_non_numeric lines empty_pools
                 empty_pools_has_all_buckets Hbad) in He.
      now inversion He.
  - split.
    + intros [e He]. destruct Hdich as [Hnum|Hbad]; [|exact Hbad].
      destruct (pool_lines_contribution lines empty_pools
                  empty_pools_has_all_buckets Hnum) as (d & Hd & _).
      unfold build_pools in He. congruence.
    + intro Hbad. exists ValueError.
      exact (pool_lines_non_numeric lines empty_pools
               empty_pools_has_all_buckets Hbad).
Qed.

Lemma build_pools_failure_witness :
  exists e,
    build_pools ["1 a b CARDYWG"; "n/a a b CASSLGYT"; "6 a b CASSLGYT"] =
    Raise e.
Proof.
  apply (proj2 (proj2 (build_pools_failure
                         ["1 a b CARDYWG"; "n/a a b CASSLGYT";
                          "6 a b CASSLGYT"]))).
  exists "n/a a b CASSLGYT". split; [simpl; tauto|].
  exists "n/a", ["a"; "b"; "CASSLGYT"]. split; reflexivity.
Defined.

(** ** The down-selection: sizes, contents, layout *)

Lemma map_nth_seq {A : Type} (xs : list A) (d : A) :
  map (fun i => nth i xs d) (seq 0 (List.length xs)) = xs.
Proof.
  induction xs as [|x xs IH]; [reflexivity|].
  cbn [List.length seq map nth]. f_equal.
  rewrite <- seq_shift, map_map. exact IH.
Qed.

(** A draw without replacement splits the population into the sample
    and the rest. *)
Lemma drawn_split (population sample : list string) (n : nat) :
  drawn_without_replacement population n sample ->
  exists rest, Permutation (sample ++ rest) population.
Proof.
  intros (positions & Hnd & _ & Hlt & ->).
  set (others := filter (fun i => negb (existsb (Nat.eqb i) positions))
                   (seq 0 (List.length population))).
  exists (map (fun i => nth i population EmptyString) others).
  rewrite <- map_app.
  apply (Permutation_trans
           (l' := map (fun i => nth i population EmptyString)
                    (seq 0 (List.length population))));
    [|now rewrite map_nth_seq].
  apply Permutation_map, NoDup_Permutation.
  - apply NoDup_app; [exact Hnd|apply NoDup_filter, seq_NoDup|].
    intros i Hi Hi'. unfold others in Hi'. apply filter_In in Hi'.
    destruct Hi' as [_ Hi']. apply negb_true_iff in Hi'.
    assert (existsb (Nat.eqb i) positions = true); [|congruence].
    apply existsb_exists. exists i. split; [exact Hi|apply Nat.eqb_refl].
  - apply seq_NoDup.
  - intro i. rewrite in_app_iff, in_seq. unfold others.
    rewrite filter_In, in_seq, negb_true_iff. split.
    + intros [Hi|[Hi _]]; [apply Hlt in Hi|]; lia.
    + intros Hi. destruct (existsb (Nat.eqb i) positions) eqn:E.
      * left. apply existsb_exists in E. destruct E as (j & Hj & Hij).
        apply Nat.eqb_eq in Hij. now subst j.
      * right. split; [lia|reflexivity].
Qed.

Lemma bucket_size_get (d : pools) (s : string) (l : nat) (bucket : list string) :
  pools_get d s l = Return bucket -> bucket_size d s l = List.length bucket.
Proof. unfold bucket_size. now intros ->. Qed.

Lemma smallest_bucket_le (d : pools) (s : string) (l : nat) :
  In s sharing_classes -> smallest_bucket d l <= bucket_size d s l.
Proof.
  unfold smallest_bucket. intros [<-|[<-|[]]]; lia.
Qed.

Section BalanceMore.
Variable G : Type.
Variable choice : list string -> nat -> G -> list string * G.

Lemma bind_Return {A B : Type} (m : py G A) (k : A -> py G B) (g g' : G)
    (b : B) :
  bind G m k g = (Return b, g') ->
  exists a g1, m g = (Return a, g1) /\ k a g1 = (Return b, g').
Proof.
  unfold bind. destruct (m g) as [[a|e] g1]; [|discriminate].
  intro H. now exists a, g1.
Qed.

(** *** The layout of the selection *)

Lemma downselect_bucket_keys (all selected selected' : pools) (l n : nat)
    (s : string) (g g' : G) :
  downselect_bucket G choice all l n s selected g = (Return selected', g') ->
  keys selected' = keys selected /\
  exists by_length value,
    dict_get String.eqb selected s = Return by_length /\
    forall s',
      dict_get String.eqb selected' s' =
      if String.eqb s' s then Return (dict_set Nat.eqb by_length l value)
      else dict_get String.eqb selected s'.
Proof.
  unfold downselect_bucket. intro H.
  apply bind_Return in H. destruct H as (b & g1 & _ & H).
  apply bind_Return in H. destruct H as (b' & g2 & _ & H).
  unfold lift, pools_set in H.
  destruct (dict_get String.eqb selected s) as [bl|] eqn:Hs;
    [|discriminate].
  cbn [obind] in H. inversion H; subst. split.
  - exact (keys_dict_set_present _ _ _ _ _ Hs).
  - exists bl, b'. split; [reflexivity|].
    intro s'. apply (dict_get_set _ String.eqb_eq).
Qed.

Lemma downselect_length_keys (all selected selected' : pools) (l : nat)
    (done : list nat) (g g' : G) :
  ~ In l done ->
  keys selected = sharing_classes ->
  (forall s, In s sharing_classes ->
     exists bl, dict_get String.eqb selected s = Return bl /\ keys bl = done) ->
  downselect_length G choice all l selected g = (Return selected', g') ->
  keys selected' = sharing_classes /\
  forall s, In s sharing_classes ->
    exists bl, dict_get String.eqb selected' s = Return bl /\
               keys bl = done ++ [l].
Proof.
  intros Hl Hk Hdone H. unfold downselect_length in H.
  apply bind_Return in H. destruct H as (sizes & g0 & _ & H).
  unfold sharing_classes in H. cbn [for_each] in H.
  apply bind_Return in H. destruct H as (d1 & g1 & H1 & H).
  apply bind_Return in H. destruct H as (d2 & g2 & H2 & H).
  unfold ret in H. inversion H; subst. clear H.
  apply downselect_bucket_keys in H1.
  destruct H1 as (Hk1 & bl1 & v1 & Hbl1 & Hget1).
  apply downselect_bucket_keys in H2.
  destruct H2 as (Hk2 & bl2 & v2 & Hbl2 & Hget2).
  split; [congruence|].
  assert (Hnew : forall (bl : length_dict) (v : list string),
             keys bl = done -> keys (dict_set Nat.eqb bl l v) = done ++ [l]).
  { intros bl v <-.
    destruct (keys_dict_set Nat.eqb Nat.eqb_eq bl l v) as [E|[_ E]];
      [|exact E].
    exfalso. apply Hl.
    assert (In l (keys (dict_set Nat.eqb bl l v))); [|congruence].
    clear. unfold keys. induction bl as [|[k0 v0] bl IH]; simpl; [tauto|].
    destruct (Nat.eqb l k0) eqn:E; simpl.
    - apply Nat.eqb_eq in E. now left.
    - now right. }
  destruct (Hdone "shared") as (bs & Hbs & Hkbs); [simpl; tauto|].
  destruct (Hdone "unshared") as (bu & Hbu & Hkbu); [simpl; tauto|].
  rewrite Hbs in Hbl1. inversion Hbl1; subst bl1.
  rewrite Hget1 in Hbl2. cbn in Hbl2. rewrite Hbu in Hbl2.
  inversion Hbl2; subst bl2.
  intros s [<-|[<-|[]]]; eexists; rewrite Hget2; cbn;
    [rewrite Hget1; cbn|]; (split; [reflexivity|now apply Hnew]).
Qed.

Lemma downselect_lengths_keys (all : pools) (lengths : list nat) :
  forall (done : list nat) (selected selected' : pools) (g g' : G),
    NoDup (done ++ lengths) ->
    keys selected = sharing_classes ->
    (forall s, In s sharing_classes ->
       exists bl, dict_get String.eqb selected s = Return bl /\ keys bl = done) ->
    for_each G lengths (downselect_length G choice all) selected g =
    (Return selected', g') ->
    keys selected' = sharing_classes /\
    forall s, In s sharing_classes ->
      exists bl, dict_get String.eqb selected' s = Return bl /\
                 keys bl = done ++ lengths.
Proof.
  induction lengths as [|l lengths IH];
    intros done selected selected' g g' Hnd Hk Hdone H.
  - cbn [for_each] in H. unfold ret in H. inversion H; subst.
    rewrite app_nil_r. now split.
  - cbn [for_each] in H. apply bind_Return in H.
    destruct H as (d1 & g1 & H1 & H).
    assert (Hl : ~ In l done).
    { intro Hin. apply NoDup_remove_2 in Hnd. apply Hnd.
      apply in_or_app. now left. }
    destruct (downselect_length_keys _ _ _ _ _ _ _ Hl Hk Hdone H1)
      as [Hk1 Hdone1].
    replace (done ++ l :: lengths) with ((done ++ [l]) ++ lengths) in *
      by (now rewrite <- app_assoc).
    exact (IH _ _ _ _ _ Hnd Hk1 Hdone1 H).
Qed.

Lemma balance_pools_layout (all selected : pools) (g g' : G) :
  balance_pools G choice all g = (Return selected, g') ->
  pools_layout selected.
Proof.
  unfold balance_pools, downselect. intro H.
  destruct (downselect_lengths_keys all cdr3_lengths []
              [("shared", []); ("unshared", [])] selected g g')
    as [Hk Hbl]; auto.
  - apply seq_NoDup.
  - intros s [<-|[<-|[]]]; eexists; split; reflexivity.
  - split; [exact Hk|].
    intros s bl Hin.
    assert (Hs : In s sharing_classes).
    { rewrite <- Hk. change s with (fst (s, bl)). now apply in_map. }
    destruct (Hbl s Hs) as (bl' & Hget & Hkeys).
    assert (Hu : NoDup (keys selected)).
    { rewrite Hk. repeat constructor; simpl; intuition discriminate. }
    rewrite (In_dict_get _ String.eqb_eq _ _ _ Hu Hin) in Hget.
    inversion Hget; subst bl'. exact Hkeys.
Qed.
End BalanceMore.

Section BalanceState.
Variable G : Type.
Variable choice : list string -> nat -> G -> list string * G.

(** *** When nothing has to be drawn the generator is not used *)

Lemma downselect_bucket_state (all selected : pools) (l n : nat) (s : string)
    (bucket : list string) (g g' : G) (o : outcome pools) :
  pools_get all s l = Return bucket -> List.length bucket <= n ->
  downselect_bucket G choice all l n s selected g = (o, g') -> g' = g.
Proof.
  intros Hget Hle. unfold downselect_bucket, bind, lift. rewrite Hget.
  apply Nat.ltb_ge in Hle. rewrite Hle. unfold ret.
  intro H. now inversion H.
Qed.

Lemma downselect_length_state (all selected : pools) (l : nat) (g g' : G)
    (o : outcome pools) :
  has_all_buckets all -> In l cdr3_lengths ->
  bucket_size all "shared" l = bucket_size all "unshared" l ->
  downselect_length G choice all l selected g = (o, g') -> g' = g.
Proof.
  intros Hall Hl Heq. unfold downselect_length, bind, lift.
  destruct (bucket_sizes_smallest G choice all l Hall Hl)
    as (sizes & -> & ->).
  destruct (Hall "shared" l) as [bs Hbs]; [simpl; tauto|exact Hl|].
  destruct (Hall "unshared" l) as [bu Hbu]; [simpl; tauto|exact Hl|].
  assert (Hs : List.length bs <= smallest_bucket all l).
  { unfold smallest_bucket. rewrite <- Heq, (bucket_size_get _ _ _ _ Hbs). lia. }
  assert (Hu : List.length bu <= smallest_bucket all l).
  { unfold smallest_bucket. rewrite Heq, (bucket_size_get _ _ _ _ Hbu). lia. }
  unfold sharing_classes. cbn [for_each]. unfold bind.
  destruct (downselect_bucket G choice all l (smallest_bucket all l)
              "shared" selected g) as [[d1|e1] g1] eqn:H1;
    pose proof (downselect_bucket_state _ _ _ _ _ _ _ _ _ Hbs Hs H1) as ->.
  - destruct (downselect_bucket G choice all l (smallest_bucket all l)
                "unshared" d1 g) as [[d2|e2] g2] eqn:H2;
      pose proof (downselect_bucket_state _ _ _ _ _ _ _ _ _ Hbu Hu H2) as ->;
      unfold ret; intro H; now inversion H.
  - intro H. now inversion H.
Qed.

Lemma downselect_lengths_state (all : pools) (lengths : list nat) :
  has_all_buckets all ->
  (forall l, In l lengths ->
     In l cdr3_lengths /\
     bucket_size all "shared" l = bucket_size all "unshared" l) ->
  forall (selected : pools) (g g' : G) (o : outcome pools),
    for_each G lengths (downselect_length G choice all) selected g = (o, g') ->
    g' = g.
Proof.
  intro Hall. induction lengths as [|l lengths IH];
    intros Hbal selected g g' o; cbn [for_each].
  - unfold ret. intro H. now inversion H.
  - unfold bind.
    destruct (downselect_length G choice all l selected g)
      as [[d1|e1] g1] eqn:H1;
      destruct (Hbal l (or_introl eq_refl)) as [Hl Heq];
      pose proof (downselect_length_state _ _ _ _ _ _ Hall Hl Heq H1) as ->.
    + apply IH. intros; apply Hbal; now right.
    + intro H. now inversion H.
Qed.

Hypothesis choice_samples : samples_without_replacement choice.

(** What the down-selection does to every bucket, under the contract
    of the sampler. *)
Lemma balance_pools_facts (all : pools) (g : G) :
  has_all_buckets all ->
  exists selected g',
    balance_pools G choice all g = (Return selected, g') /\
    pools_layout selected /\
    forall s l, In s sharing_classes -> In l cdr3_lengths ->
      exists bucket bucket' dropped,
        pools_get all s l = Return bucket /\
        pools_get selected s l = Return bucket' /\
        List.length bucket' = smallest_bucket all l /\
        Permutation (bucket' ++ dropped) bucket.
Proof.
  intro Hall.
  destruct (balance_pools_run G choice all g Hall) as (d & g' & Hrun & _ & H).
  exists d, g'. split; [exact Hrun|].
  split; [exact (balance_pools_layout _ _ _ _ _ _ Hrun)|].
  intros s l Hs Hl.
  destruct (H s l Hs Hl) as (b & b' & Hb & Hb' & Hd).
  pose proof (smallest_bucket_le all s l Hs) as Hle.
  rewrite (bucket_size_get _ _ _ _ Hb) in Hle.
  unfold downselected in Hd.
  destruct (Nat.ltb_spec (smallest_bucket all l) (List.length b)) as [Hlt|Hge].
  - destruct Hd as [g0 ->].
    pose proof (choice_samples b (smallest_bucket all l) g0 Hle) as Hdraw.
    destruct (drawn_split _ _ _ Hdraw) as [rest Hrest].
    exists b, (fst (choice b (smallest_bucket all l) g0)), rest.
    refine (conj Hb (conj Hb' (conj _ Hrest))).
    exact (drawn_length _ _ _ Hdraw).
  - subst b'. exists b, b, [].
    refine (conj Hb (conj Hb' (conj _ _))); [lia|].
    rewrite app_nil_r. apply Permutation_refl.
Qed.

(** X4. After the down-selection the shared and the unshared bucket
    of every length hold the same number of sequences, the smaller of the
    two sizes before it. *)
Theorem balance_pools_equal_sizes (all : pools) (g : G) :
  has_all_buckets all ->
  exists selected g',
    balance_pools G choice all g = (Return selected, g') /\
    forall l, In l cdr3_lengths ->
      bucket_size selected "shared" l = smallest_bucket all l /\
      bucket_size selected "unshared" l = smallest_bucket all l.
Proof.
  intro Hall.
  destruct (balance_pools_facts all g Hall) as (d & g' & Hrun & _ & H).
  exists d, g'. split; [exact Hrun|].
  intros l Hl. split.
  - destruct (H "shared" l) as (b & b' & r & _ & Hb' & Hlen & _);
      [simpl; tauto|exact Hl|].
    now rewrite (bucket_size_get _ _ _ _ Hb').
  - destruct (H "unshared" l) as (b & b' & r & _ & Hb' & Hlen & _);
      [simpl; tauto|exact Hl|].
    now rewrite (bucket_size_get _ _ _ _ Hb').
Qed.

(** X5. The selection has the layout of the pools, and every selected
    bucket is a part of the bucket it comes from: with the sequences that
    were dropped it is a rearrangement of that bucket.  In particular the
    sequences stored under a length still have that length. *)
Theorem balance_pools_selection (all : pools) (g : G) :
  has_all_buckets all ->
  exists selected g',
    balance_pools G choice all g = (Return selected, g') /\
    pools_layout selected /\
    (forall s l bucket,
       In s sharing_classes -> In l cdr3_lengths ->
       pools_get all s l = Return bucket ->
       exists bucket' dropped,
         pools_get selected s l = Return bucket' /\
         Permutation (bucket' ++ dropped) bucket) /\
    (lengths_respected all -> lengths_respected selected).
Proof.
  intro Hall.
  destruct (balance_pools_facts all g Hall) as (d & g' & Hrun & Hlay & H).
  exists d, g'. refine (conj Hrun (conj Hlay (conj _ _))).
  - intros s l bucket Hs Hl Hget.
    destruct (H s l Hs Hl) as (b & b' & r & Hb & Hb' & _ & Hperm).
    rewrite Hget in Hb. inversion Hb; subst b. now exists b', r.
  - intros Hresp s bl l b' aa Hs Hl Haa.
    pose proof (pools_layout_unique _ Hlay) as Hu.
    destruct Hlay as [Hk Hbl].
    assert (Hs' : In s sharing_classes).
    { rewrite <- Hk. change s with (fst (s, bl)). now apply in_map. }
    assert (Hl' : In l cdr3_lengths).
    { rewrite <- (Hbl s bl Hs). change l with (fst (l, b')).
      now apply in_map. }
    destruct (H s l Hs' Hl') as (b & b'' & r & Hb & Hb'' & _ & Hperm).
    assert (Hget : pools_get d s l = Return b').
    { unfold pools_get.
      rewrite (In_dict_get _ String.eqb_eq _ _ _ (proj1 Hu) Hs). cbn [obind].
      exact (In_dict_get _ Nat.eqb_eq _ _ _ (proj2 Hu _ _ Hs) Hl). }
    rewrite Hget in Hb''. inversion Hb''; subst b''.
    destruct (pools_get_entries _ _ _ _ Hb) as (bl0 & Hin & Hin').
    apply (Hresp s bl0 l b aa Hin Hin').
    apply (Permutation_in _ Hperm). apply in_or_app. now left.
Qed.

(** X7. The entropy table of a down-selection, for pools whose
    sequences have the length they are stored under.  When at some length
    both classes hold two sequences or more, [calculate_entropies] raises
    [TypeError] on the selection.  When at every length one of the classes
    holds at most one sequence, it returns a table with as many rows for
    shared as for unshared at every length: none if one of the two buckets
    was empty and [l - 6] otherwise. *)
Theorem balanced_table_rows (all : pools) (t : string) (g : G) :
  has_all_buckets all -> lengths_respected all ->
  exists selected g',
    balance_pools G choice all g = (Return selected, g') /\
    ((exists l, In l cdr3_lengths /\ 2 <= smallest_bucket all l) ->
     calculate_entropies G selected t g' = (Raise TypeError, g')) /\
    ((forall l, In l cdr3_lengths -> smallest_bucket all l <= 1) ->
     exists table,
       calculate_entropies G selected t g' = (Return table, g') /\
       forall l s, In l cdr3_lengths -> In s sharing_classes ->
         List.length (rows_for s l table) =
         if smallest_bucket all l =? 0 then 0 else l - 6).
Proof.
  intros Hall Hresp.
  destruct (balance_pools_facts all g Hall) as (d & g' & Hrun & Hlay & H).
  pose proof (pools_layout_unique _ Hlay) as Hu.
  assert (Hlens : forall s l b b' r,
             pools_get all s l = Return b -> Permutation (b' ++ r) b ->
             forall aa, In aa b' -> String.length aa = l).
  { intros s l b b' r Hb Hperm aa Haa.
    destruct (pools_get_entries _ _ _ _ Hb) as (bl0 & Hin0 & Hin0').
    apply (Hresp s bl0 l b aa Hin0 Hin0').
    apply (Permutation_in _ Hperm). apply in_or_app. now left. }
  exists d, g'. refine (conj Hrun (conj _ _)).
  - intros (l & Hl & Hmany).
    destruct (H "shared" l (or_introl eq_refl) Hl)
      as (b & b' & r & Hb & Hb' & Hlen & Hperm).
    destruct (pools_get_entries _ _ _ _ Hb') as (bl & Hin & Hin').
    rewrite calculate_entropies_run.
    assert (Hp : pools_convert_counts d = true); [|now rewrite Hp].
    apply pools_convert_counts_iff. exists "shared", bl, l, b'.
    refine (conj Hin (conj Hin' _)). apply bucket_converts_counts_iff.
    split; [lia|]. intros aa Haa.
    rewrite (Hlens _ _ _ _ _ Hb Hperm aa Haa). apply in_seq in Hl. lia.
  - intro Hfew. exists (entropy_table d t). split.
    + apply calculate_entropies_few. intros s bl l seqs Hs Hl.
      assert (Hs' : In s sharing_classes).
      { rewrite <- (proj1 Hlay). change s with (fst (s, bl)).
        now apply in_map. }
      assert (Hl' : In l cdr3_lengths).
      { rewrite <- (proj2 Hlay s bl Hs). change l with (fst (l, seqs)).
        now apply in_map. }
      destruct (H s l Hs' Hl') as (b & b' & r & Hb & Hb' & Hlen & Hperm).
      assert (Hget : pools_get d s l = Return seqs).
      { unfold pools_get.
        rewrite (In_dict_get _ String.eqb_eq _ _ _ (proj1 Hu) Hs).
        cbn [obind].
        exact (In_dict_get _ Nat.eqb_eq _ _ _ (proj2 Hu _ _ Hs) Hl). }
      rewrite Hget in Hb'. inversion Hb'; subst b'.
      rewrite Hlen. now apply Hfew.
    + intros l s Hl Hs.
      destruct (H s l Hs Hl) as (b & b' & r & Hb & Hb' & Hlen & Hperm).
      destruct (pools_get_entries _ _ _ _ Hb') as (bl & Hin & Hin').
      rewrite (rows_for_table d t s bl l b' Hu Hin Hin').
      destruct (Nat.eqb_spec (smallest_bucket all l) 0) as [E|E].
      * rewrite E in Hlen. apply length_zero_iff_nil in Hlen. now subst b'.
      * apply in_seq in Hl.
        rewrite rows_of_long_bucket;
          [|lia| |exact (Hlens _ _ _ _ _ Hb Hperm)].
        -- now rewrite length_map, length_seq.
        -- intros ->. simpl in Hlen. lia.
Qed.
End BalanceState.

Section BalanceNoDraw.
Variable G : Type.
Variable choice : list string -> nat -> G -> list string * G.

(** X6. When the shared and the unshared bucket already have the same
    size at every length, the down-selection copies every bucket
    unchanged and does not use the generator, whatever the sampler is. *)
Theorem balance_pools_already_balanced (all : pools) (g : G) :
  has_all_buckets all ->
  (forall l, In l cdr3_lengths ->
     bucket_size all "shared" l = bucket_size all "unshared" l) ->
  exists selected,
    balance_pools G choice all g = (Return selected, g) /\
    forall s l, In s sharing_classes -> In l cdr3_lengths ->
      pools_get selected s l = pools_get all s l.
Proof.
  intros Hall Hbal.
  destruct (balance_pools_run G choice all g Hall) as (d & g' & Hrun & _ & H).
  assert (g' = g).
  { unfold balance_pools, downselect in Hrun.
    apply (downselect_lengths_state G choice all cdr3_lengths Hall
             (fun l Hl => conj Hl (Hbal l Hl)) _ _ _ _ Hrun). }
  subst g'. exists d. split; [exact Hrun|].
  intros s l Hs Hl.
  destruct (H s l Hs Hl) as (b & b' & Hb & Hb' & Hd).
  rewrite Hb, Hb'. f_equal. unfold downselected in Hd.
  assert (Hle : List.length b <= smallest_bucket all l).
  { unfold smallest_bucket.
    destruct Hs as [<-|[<-|[]]];
      [rewrite <- (Hbal l Hl)|rewrite (Hbal l Hl)];
      rewrite (bucket_size_get _ _ _ _ Hb); lia. }
  apply Nat.ltb_ge in Hle. now rewrite Hle in Hd.
Qed.
End BalanceNoDraw.

Ltac solve_all_buckets :=
  let s := fresh "s" in
  let l := fresh "l" in
  let Hs := fresh "Hs" in
  let Hl := fresh "Hl" in
  intros s l Hs Hl;
  simpl in Hs; destruct Hs as [<-|[<-|[]]];
  simpl in Hl;
  repeat (destruct Hl as [<-|Hl]; [eexists; reflexivity|]);
  destruct Hl.

Lemma example_pools_lengths_respected : lengths_respected example_pools.
Proof.
  intros s bl l b aa Hs Hl Haa.
  simpl in Hs. destruct Hs as [Hs|[Hs|[]]]; inversion Hs; subst;
    simpl in Hl;
    repeat (destruct Hl as [Hl|Hl];
            [inversion Hl; subst; simpl in Haa;
             repeat (destruct Haa as [<-|Haa]; [reflexivity|]);
             destruct Haa|]);
    destruct Hl.
Qed.

Lemma balance_pools_equal_sizes_witness :
  exists selected g',
    balance_pools nat first_choice example_pools 0 = (Return selected, g') /\
    forall l, In l cdr3_lengths ->
      bucket_size selected "shared" l = smallest_bucket example_pools l /\
      bucket_size selected "unshared" l = smallest_bucket example_pools l.
Proof.
  exact (balance_pools_equal_sizes nat first_choice first_choice_samples
           example_pools 0 example_pools_has_all_buckets).
Defined.

Lemma balance_pools_selection_witness :
  exists selected g',
    balance_pools nat first_choice example_pools 0 = (Return selected, g') /\
    pools_layout selected /\
    (forall s l bucket,
       In s sharing_classes -> In l cdr3_lengths ->
       pools_get example_pools s l = Return bucket ->
       exists bucket' dropped,
         pools_get selected s l = Return bucket' /\
         Permutation (bucket' ++ dropped) bucket) /\
    (lengths_respected example_pools -> lengths_respected selected).
Proof.
  exact (balance_pools_selection nat first_choice first_choice_samples
           example_pools 0 example_pools_has_all_buckets).
Defined.

Lemma balanced_table_rows_witness :
  exists selected g',
    balance_pools nat first_choice example_pools 0 = (Return selected, g') /\
    ((exists l, In l cdr3_lengths /\ 2 <= smallest_bucket example_pools l) ->
     calculate_entropies nat selected "observed" g' = (Raise TypeError, g')) /\
    ((forall l, In l cdr3_lengths -> smallest_bucket example_pools l <= 1) ->
     exists table,
       calculate_entropies nat selected "observed" g' = (Return table, g') /\
       forall l s, In l cdr3_lengths -> In s sharing_classes ->
         List.length (rows_for s l table) =
         if smallest_bucket example_pools l =? 0 then 0 else l - 6).
Proof.
  exact (balanced_table_rows nat first_choice first_choice_samples
           example_pools "observed" 0 example_pools_has_all_buckets
           example_pools_lengths_respected).
Defined.

Lemma balance_pools_already_balanced_witness :
  exists selected,
    balance_pools nat first_choice
      [ ("shared", (7, ["CASSLGT"]) :: map (fun i => (i, [])) (seq 8 7));
        ("unshared", (7, ["CARDYWG"]) :: map (fun i => (i, [])) (seq 8 7)) ]
      5 = (Return selected, 5) /\
    forall s l, In s sharing_classes -> In l cdr3_lengths ->
      pools_get selected s l =
      pools_get
        [ ("shared", (7, ["CASSLGT"]) :: map (fun i => (i, [])) (seq 8 7));
          ("unshared", (7, ["CARDYWG"]) :: map (fun i => (i, [])) (seq 8 7)) ]
        s l.
Proof.
  apply (balance_pools_already_balanced nat first_choice).
  - solve_all_buckets.
  - intros l Hl. simpl in Hl.
    repeat (destruct Hl as [<-|Hl]; [reflexivity|]). destruct Hl.
Defined.

(** ** More on [calculate_entropies] *)

Section CalculateEntropiesRows.
Variable G : Type.

(** X11. Whenever [calculate_entropies] returns, the generator is
    where it was, and every row of the table carries the dataset name the
    function was called with, the label made of that name and the class,
    the entropy 0, and the class and length of a bucket of the dictionary
    that holds exactly one sequence. *)
Theorem calculate_entropies_rows (seq_dict : pools) (t : string)
    (table : list row) (g g' : G) :
  calculate_entropies G seq_dict t g = (Return table, g') ->
  g' = g /\
  forall r, In r table ->
    seq_type r = t /\
    sample r = sample_label t (shared r) /\
    Shannon_entropy r = 0%R /\
    exists by_length aa,
      In (shared r, by_length) seq_dict /\
      In (CDR3_length r, [aa]) by_length.
Proof.
  intro Hret. apply calculate_entropies_Return in Hret.
  destruct Hret as (Hno & -> & ->). split; [reflexivity|].
  intros r Hr. unfold entropy_table in Hr.
  apply in_flat_map in Hr. destruct Hr as ([s bl] & Hs & Hr).
  apply in_flat_map in Hr. destruct Hr as ([l seqs] & Hl & Hr).
  cbn [fst snd] in Hr. unfold rows_of_bucket in Hr.
  apply in_map_iff in Hr. destruct Hr as (residues & <- & Hres).
  cbn [seq_type sample shared Shannon_entropy CDR3_length].
  refine (conj eq_refl (conj eq_refl (conj eq_refl _))).
  assert (Hb : bucket_converts_counts seqs = false).
  { destruct (bucket_converts_counts seqs) eqn:E; [|reflexivity].
    assert (pools_convert_counts seq_dict = true); [|congruence].
    apply pools_convert_counts_iff. now exists s, bl, l, seqs. }
  assert (Hone : List.length seqs <= 1).
  { rewrite <- (interior_columns_length seqs residues Hres).
    destruct (Nat.leb_spec 2 (List.length residues)) as [Hmany|]; [|lia].
    assert (bucket_converts_counts seqs = true); [|congruence].
    apply existsb_exists. exists residues. split; [exact Hres|].
    now apply Nat.leb_le. }
  destruct seqs as [|aa [|aa' seqs]].
  - destruct Hres.
  - now exists bl, aa.
  - simpl in Hone. lia.
Qed.

(** X12. [calculate_entropies] fails exactly when some bucket holds two
    sequences or more, none of them shorter than seven residues, whatever
    the length the bucket is stored under: the transposition stops with
    the shortest sequence.  The exception is then [TypeError], and the
    generator is left where it was. *)
Theorem calculate_entropies_TypeError (seq_dict : pools) (t : string)
    (g : G) :
  ((exists e g', calculate_entropies G seq_dict t g = (Raise e, g')) <->
   (exists s by_length l seqs,
      In (s, by_length) seq_dict /\ In (l, seqs) by_length /\
      2 <= List.length seqs /\
      forall aa, In aa seqs -> 7 <= String.length aa)) /\
  (forall e g',
     calculate_entropies G seq_dict t g = (Raise e, g') ->
     e = TypeError /\ g' = g).
Proof.
  split; [split|].
  - intros (e & g' & Hraise).
    now apply calculate_entropies_Raise in Hraise.
  - intros (s & bl & l & seqs & Hs & Hl & Hmany & Hlong).
    exists TypeError, g. rewrite calculate_entropies_run.
    assert (Hp : pools_convert_counts seq_dict = true); [|now rewrite Hp].
    apply pools_convert_counts_iff. exists s, bl, l, seqs.
    refine (conj Hs (conj Hl _)). now apply bucket_converts_counts_iff.
  - intros e g' Hraise. apply calculate_entropies_Raise in Hraise. tauto.
Qed.
End CalculateEntropiesRows.

Lemma calculate_entropies_rows_witness :
  tt = tt /\
  forall r, In r [mk_row "observed (shared)" "observed" 0 7 "shared"] ->
    seq_type r = "observed" /\
    sample r = sample_label "observed" (shared r) /\
    Shannon_entropy r = 0%R /\
    exists by_length aa,
      In (shared r, by_length) [("shared", [(7, ["CASSLGY"]); (8, [])])] /\
      In (CDR3_length r, [aa]) by_length.
Proof.
  apply (calculate_entropies_rows unit
           [("shared", [(7, ["CASSLGY"]); (8, [])])] "observed"
           [mk_row "observed (shared)" "observed" 0 7 "shared"] tt tt).
  reflexivity.
Defined.

(** ** [get_sequences] as a whole *)

Lemma dict_get_missing {K V : Type} (eqb : K -> K -> bool)
    (eqb_eq : forall a b, eqb a b = true <-> a = b)
    (d : list (K * V)) (k : K) :
  ~ In k (keys d) -> dict_get eqb d k = Raise KeyError.
Proof.
  unfold keys. induction d as [|[k0 v0] d IH]; simpl; [reflexivity|].
  intro H. destruct (eqb k k0) eqn:E.
  - apply eqb_eq in E. subst. tauto.
  - apply IH. tauto.
Qed.

Lemma dict_get_present {K V : Type} (eqb : K -> K -> bool)
    (eqb_eq : forall a b, eqb a b = true <-> a = b)
    (d : list (K * V)) (k : K) :
  In k (keys d) -> exists v, dict_get eqb d k = Return v /\ In (k, v) d.
Proof.
  unfold keys. induction d as [|[k0 v0] d IH]; simpl; [tauto|].
  intro H. destruct (eqb k k0) eqn:E.
  - apply eqb_eq in E. subst. exists v0. split; [reflexivity|now left].
  - destruct H as [->|H]; [rewrite (proj2 (eqb_eq k k) eq_refl) in E;
                           discriminate|].
    destruct (IH H) as (v & Hv & Hin). exists v. split; [exact Hv|now right].
Qed.

Lemma keys_dict_set_In {K V : Type} (eqb : K -> K -> bool)
    (eqb_eq : forall a b, eqb a b = true <-> a = b)
    (d : list (K * V)) (k k' : K) (v : V) :
  In k' (keys (dict_set eqb d k v)) <-> k' = k \/ In k' (keys d).
Proof.
  unfold keys. induction d as [|[k0 v0] d IH]; simpl.
  - intuition.
  - destruct (eqb k k0) eqn:E; simpl.
    + apply eqb_eq in E. subst. intuition.
    + rewrite IH. intuition.
Qed.

Lemma read_files_non_numeric (seq_files : list (string * list string))
    (all_seqs : list (string * pools)) :
  (exists entry line,
     In entry seq_files /\ In line (snd entry) /\ non_numeric_tag line) ->
  read_files seq_files all_seqs = Raise ValueError.
Proof.
  revert all_seqs. induction seq_files as [|entry rest IH];
    intros all_seqs (x & line & Hx & Hline & Hbad); [destruct Hx|].
  cbn [read_files].
  destruct (build_pools (snd entry)) as [seqs|e] eqn:Hb; cbn [obind].
  - apply IH. destruct Hx as [<-|Hx]; [|now exists x, line].
    exfalso. unfold build_pools in Hb.
    rewrite (pool_lines_non_numeric (snd entry) empty_pools
               empty_pools_has_all_buckets) in Hb; [discriminate|].
    now exists line.
  - f_equal. unfold build_pools in Hb.
    destruct (pool_lines empty_pools (snd entry)) eqn:Hp; [discriminate|].
    inversion Hb; subst.
    assert (Hd : (forall l, In l (snd entry) -> numeric_tag_or_blank l) \/
                 (exists l, In l (snd entry) /\ non_numeric_tag l)).
    { clear. induction (snd entry) as [|l ls IHl]; [left; intros ? []|].
      destruct (tag_numeric_or_not l) as [Hn|Hb].
      - destruct IHl as [IHl|(y & Hy & Hb)].
        + left. intros y [<-|Hy]; auto.
        + right. exists y. split; [now right|exact Hb].
      - right. exists l. split; [now left|exact Hb]. }
    destruct Hd as [Hnum|Hbad'].
    + destruct (pool_lines_contribution (snd entry) empty_pools
                  empty_pools_has_all_buckets Hnum) as (d & Hd & _).
      congruence.
    + rewrite (pool_lines_non_numeric (snd entry) empty_pools
                 empty_pools_has_all_buckets Hbad') in Hp.
      now inversion Hp.
Qed.


Lemma read_files_keys (seq_files : list (string * list string)) :
  forall all_seqs all_seqs',
    read_files seq_files all_seqs = Return all_seqs' ->
    (forall name,
       In name (keys all_seqs') <->
       In name (keys all_seqs) \/ In name (keys seq_files)) /\
    (forall name seqs, In (name, seqs) all_seqs' ->
       In (name, seqs) all_seqs \/
       exists lines, In (name, lines) seq_files /\
                     build_pools lines = Return seqs).
Proof.
  induction seq_files as [|[name0 lines0] rest IH];
    intros all_seqs all_seqs' H; cbn [read_files] in H.
  - inversion H; subst. split; [simpl; tauto|tauto].
  - cbn [fst snd] in H.
    destruct (build_pools lines0) as [seqs0|] eqn:Hb; [|discriminate].
    cbn [obind] in H. destruct (IH _ _ H) as [Hk Hv]. split.
    + intro name. rewrite Hk, (keys_dict_set_In _ String.eqb_eq).
      unfold keys. simpl. intuition.
    + intros name seqs Hin. destruct (Hv name seqs Hin) as [Hin'|(ls & Hls & Hbl)].
      * apply In_dict_set in Hin'; [|exact String.eqb_eq].
        destruct Hin' as [[-> ->]|Hin']; [|now left].
        right. exists lines0. split; [now left|exact Hb].
      * right. exists ls. split; [now right|exact Hbl].
Qed.


Lemma read_files_returns (seq_files : list (string * list string)) :
  (forall entry line,
     In entry seq_files -> In line (snd entry) -> numeric_tag_or_blank line) ->
  forall all_seqs, exists all_seqs',
    read_files seq_files all_seqs = Return all_seqs'.
Proof.
  induction seq_files as [|entry rest IH]; intros Hnum all_seqs.
  - now exists all_seqs.
  - cbn [read_files].
    destruct (pool_lines_contribution (snd entry) empty_pools
                empty_pools_has_all_buckets
                (fun line Hl => Hnum entry line (or_introl eq_refl) Hl))
      as (d & Hd & _).
    unfold build_pools. rewrite Hd. cbn [obind].
    apply IH. intros e l He. apply Hnum. now right.
Qed.


Lemma selection_start {V W : Type} (start : W) (all_seqs : list (string * V))
    (name : string) :
  In name (keys all_seqs) ->
  dict_get String.eqb
    (map (fun entry : string * V => (fst entry, start)) all_seqs) name =
  Return start.
Proof.
  unfold keys. induction all_seqs as [|[k v] d IH]; simpl; [tauto|].
  intro H. destruct (String.eqb name k) eqn:E; [reflexivity|].
  destruct H as [->|H]; [rewrite String.eqb_refl in E; discriminate|].
  now apply IH.
Qed.


Section GetSequences.
Variable G : Type.
Variable choice : list string -> nat -> G -> list string * G.

(** The first loop reads the files one after the other and does not
    use the generator. *)
Lemma read_files_run (seq_files : list (string * list string))
    (all_seqs : list (string * pools)) (g : G) :
  for_each G seq_files
    (fun entry all_seqs =>
       bind G (lift G (build_pools (snd entry)))
         (fun seqs => ret (dict_set String.eqb all_seqs (fst entry) seqs)))
    all_seqs g =
  (read_files seq_files all_seqs, g).
Proof.
  revert all_seqs. induction seq_files as [|entry rest IH]; intro all_seqs.
  - reflexivity.
  - cbn [for_each read_files]. unfold bind at 1. unfold bind at 1.
    unfold lift. destruct (build_pools (snd entry)) as [seqs|e]; cbn [obind].
    + unfold ret at 1. apply IH.
    + reflexivity.
Qed.

(** X13. A row with a non-integer first field in any of the files
    makes [get_sequences] raise [ValueError]: nothing is returned for the
    other files either, and the generator has not been used. *)
Theorem get_sequences_ValueError (seq_files : list (string * list string))
    (g : G) :
  (exists entry line,
     In entry seq_files /\ In line (snd entry) /\ non_numeric_tag line) ->
  get_sequences G choice seq_files g = (Raise ValueError, g).
Proof.
  intro Hbad. unfold get_sequences. unfold bind at 1.
  now rewrite read_files_run, (read_files_non_numeric _ _ Hbad).
Qed.

(** X14. The two dataset names are fixed in the code: when the files
    can be read but [seq_files] has no entry for "observed" or none for
    "subject-specific synthetic", [get_sequences] raises [KeyError]; when
    it is "observed" that is missing, the generator has not been used. *)
Theorem get_sequences_KeyError (seq_files : list (string * list string))
    (g : G) :
  (forall entry line,
     In entry seq_files -> In line (snd entry) -> numeric_tag_or_blank line) ->
  (~ In "observed" (keys seq_files) ->
   get_sequences G choice seq_files g = (Raise KeyError, g)) /\
  (~ In "subject-specific synthetic" (keys seq_files) ->
   exists g', get_sequences G choice seq_files g = (Raise KeyError, g')).
Proof.
  intro Hnum.
  destruct (read_files_returns seq_files Hnum []) as [all Hall].
  destruct (read_files_keys _ _ _ Hall) as [Hk Hv].
  assert (Hmiss : forall name, ~ In name (keys seq_files) ->
                    dict_get String.eqb all name = Raise KeyError).
  { intros name Hn. apply (dict_get_missing _ String.eqb_eq).
    rewrite Hk. simpl. tauto. }
  assert (Hfirst : ~ In "observed" (keys seq_files) ->
                   get_sequences G choice seq_files g = (Raise KeyError, g)).
  { intro Hn. unfold get_sequences. unfold bind at 1.
    rewrite read_files_run, Hall. cbn [for_each].
    unfold bind, lift. now rewrite (Hmiss _ Hn). }
  split; [exact Hfirst|].
  intro Hn.
  destruct (in_dec string_dec "observed" (keys seq_files)) as [Hobs|Hobs];
    [|exists g; now apply Hfirst].
  assert (Hobs' : In "observed" (keys all)) by (rewrite Hk; now right).
  destruct (dict_get_present _ String.eqb_eq all "observed" Hobs')
    as (p & Hp & Hin).
  assert (Hbuckets : has_all_buckets p).
  { destruct (Hv _ _ Hin) as [[]|(ls & _ & Hb)].
    exact (build_pools_has_all_buckets _ _ Hb). }
  destruct (balance_pools_run G choice p g Hbuckets) as (d & g' & Hrun & _).
  exists g'. unfold get_sequences. unfold bind at 1.
  rewrite read_files_run, Hall. cbn [for_each].
  unfold bind, lift. rewrite Hp, (selection_start _ all "observed" Hobs').
  unfold balance_pools in Hrun. rewrite Hrun.
  unfold ret. now rewrite (Hmiss _ Hn).
Qed.
End GetSequences.

Lemma get_sequences_ValueError_witness :
  get_sequences nat first_choice
    [("observed", ["1 a b CARDYWG"]);
     ("subject-specific synthetic", ["6 a b CASSLGYT"; "six a b CASSLGYT"])]
    0 = (Raise ValueError, 0).
Proof.
  apply (get_sequences_ValueError nat first_choice).
  exists ("subject-specific synthetic", ["6 a b CASSLGYT"; "six a b CASSLGYT"]),
    "six a b CASSLGYT".
  split; [simpl; tauto|]. split; [simpl; tauto|].
  exists "six", ["a"; "b"; "CASSLGYT"]. split; reflexivity.
Defined.

Lemma get_sequences_KeyError_witness :
  get_sequences nat first_choice
    [("synthetic", ["1 a b CARDYWG"])] 0 = (Raise KeyError, 0) /\
  exists g',
    get_sequences nat first_choice
      [("observed", ["1 a b CARDYWG"; "1 a b CARGYWG"; "6 a b CASSLGY"])] 0 =
    (Raise KeyError, g').
Proof.
  split.
  - apply (proj1 (get_sequences_KeyError nat first_choice
                    [("synthetic", ["1 a b CARDYWG"])] 0
                    ltac:(intros entry line [<-|[]] [<-|[]];
                          exists 1%Z; reflexivity))).
    simpl. intuition discriminate.
  - apply (proj2 (get_sequences_KeyError nat first_choice
                    [("observed",
                      ["1 a b CARDYWG"; "1 a b CARGYWG"; "6 a b CASSLGY"])] 0
                    ltac:(intros entry line [<-|[]] [<-|[<-|[<-|[]]]];
                          eexists; reflexivity))).
    simpl. intuition discriminate.
Defined.

Lemma read_files_get_other (seq_files : list (string * list string)) :
  forall (all_seqs all_seqs' : list (string * pools)) (name : string),
    read_files seq_files all_seqs = Return all_seqs' ->
    ~ In name (keys seq_files) ->
    dict_get String.eqb all_seqs' name = dict_get String.eqb all_seqs name.
Proof.
  induction seq_files as [|[name0 lines0] rest IH];
    intros all_seqs all_seqs' name H Hn; cbn [read_files fst snd] in H.
  - now inversion H.
  - destruct (build_pools lines0) as [seqs0|]; [|discriminate].
    cbn [obind] in H. rewrite (IH _ _ name H).
    + rewrite (dict_get_set _ String.eqb_eq).
      destruct (String.eqb name name0) eqn:E; [|reflexivity].
      apply String.eqb_eq in E. subst. exfalso. apply Hn. now left.
    + intro Hin. apply Hn. now right.
Qed.

Lemma read_files_in_order (seq_files : list (string * list string)) :
  forall (all_seqs all_seqs' : list (string * pools)),
    NoDup (keys all_seqs ++ keys seq_files) ->
    read_files seq_files all_seqs = Return all_seqs' ->
    keys all_seqs' = keys all_seqs ++ keys seq_files /\
    forall name lines, In (name, lines) seq_files ->
      exists seqs, build_pools lines = Return seqs /\
                   dict_get String.eqb all_seqs' name = Return seqs.
Proof.
  induction seq_files as [|[name0 lines0] rest IH];
    intros all_seqs all_seqs' Hnd H; cbn [read_files fst snd] in H.
  - inversion H; subst. split; [unfold keys; simpl; now rewrite app_nil_r|].
    intros ? ? [].
  - destruct (build_pools lines0) as [seqs0|] eqn:Hb; [|discriminate].
    cbn [obind] in H.
    assert (Hnew : ~ In name0 (keys all_seqs)).
    { intro Hin. apply NoDup_remove_2 in Hnd. apply Hnd.
      apply in_or_app. now left. }
    assert (Hk : keys (dict_set String.eqb all_seqs name0 seqs0) =
                 keys all_seqs ++ [name0]).
    { destruct (keys_dict_set String.eqb String.eqb_eq all_seqs name0 seqs0)
        as [E|[_ E]]; [|exact E].
      exfalso. apply Hnew. rewrite <- E.
      apply (keys_dict_set_In _ String.eqb_eq). now left. }
    assert (Hnd' : NoDup (keys (dict_set String.eqb all_seqs name0 seqs0)
                          ++ keys rest)).
    { rewrite Hk, <- app_assoc. exact Hnd. }
    destruct (IH _ _ Hnd' H) as [Hkeys Hget]. split.
    + rewrite Hkeys, Hk, <- app_assoc. reflexivity.
    + intros name lines [E|Hin].
      * inversion E; subst. exists seqs0. split; [exact Hb|].
        rewrite (read_files_get_other _ _ _ _ H).
        -- rewrite (dict_get_set _ String.eqb_eq).
           now rewrite String.eqb_refl.
        -- intro Hin. apply NoDup_remove_2 in Hnd. apply Hnd.
           apply in_or_app. now right.
      * exact (Hget name lines Hin).
Qed.

Section GetSequencesDatasets.
Variable G : Type.
Variable choice : list string -> nat -> G -> list string * G.

Lemma select_dataset (all_seqs selected selected' : list (string * pools))
    (name : string) (g g' : G) :
  bind G (lift G (dict_get String.eqb all_seqs name))
    (fun all =>
       bind G (lift G (dict_get String.eqb selected name))
         (fun sel =>
            bind G (downselect G choice all sel)
              (fun sel' => ret (dict_set String.eqb selected name sel'))))
    g = (Return selected', g') ->
  keys selected' = keys selected /\
  forall other, other <> name ->
    dict_get String.eqb selected' other = dict_get String.eqb selected other.
Proof.
  intro H.
  apply bind_Return in H. destruct H as (all & g1 & _ & H).
  apply bind_Return in H. destruct H as (sel & g2 & Hsel & H).
  apply bind_Return in H. destruct H as (sel' & g3 & _ & H).
  unfold ret in H. inversion H; subst. clear H.
  unfold lift in Hsel. inversion Hsel as [Hget]. split.
  - exact (keys_dict_set_present _ _ _ _ _ Hget).
  - intros other Hne. rewrite (dict_get_set _ String.eqb_eq).
    apply String.eqb_neq in Hne. now rewrite Hne.
Qed.

(** X15. When [get_sequences] returns, both dictionaries have the
    datasets of [seq_files] as keys, in its order; [all_seqs] holds for
    each the pools of its file; and a dataset other than "observed" and
    "subject-specific synthetic" is never down-selected: its selection is
    left as the two empty dictionaries it started with. *)
Theorem get_sequences_datasets (seq_files : list (string * list string))
    (all_seqs selected_seqs : list (string * pools)) (g g' : G) :
  NoDup (keys seq_files) ->
  get_sequences G choice seq_files g = (Return (all_seqs, selected_seqs), g') ->
  keys all_seqs = keys seq_files /\
  keys selected_seqs = keys seq_files /\
  (forall name lines, In (name, lines) seq_files ->
     exists seqs, build_pools lines = Return seqs /\
                  dict_get String.eqb all_seqs name = Return seqs) /\
  (forall name, In name (keys seq_files) ->
     name <> "observed" -> name <> "subject-specific synthetic" ->
     dict_get String.eqb selected_seqs name =
     Return [("shared", []); ("unshared", [])]).
Proof.
  intros Hnd H. unfold get_sequences in H.
  apply bind_Return in H. destruct H as (all & g1 & Hread & H).
  rewrite read_files_run in Hread. inversion Hread as [[Hall Hg]]. clear Hread.
  apply bind_Return in H. destruct H as (sel & g2 & Hloop & H).
  unfold ret in H. inversion H; subst. clear H.
  destruct (read_files_in_order seq_files [] all_seqs Hnd Hall) as [Hk Hget].
  cbn [keys map app] in Hk.
  cbn [for_each] in Hloop.
  apply bind_Return in Hloop. destruct Hloop as (sel1 & g3 & H1 & Hloop).
  apply bind_Return in Hloop. destruct Hloop as (sel2 & g4 & H2 & Hloop).
  unfold ret in Hloop. inversion Hloop; subst. clear Hloop.
  apply select_dataset in H1. destruct H1 as [Hk1 Hget1].
  apply select_dataset in H2. destruct H2 as [Hk2 Hget2].
  assert (Hk0 : keys (map (fun entry : string * pools =>
                             (fst entry,
                              [("shared", []); ("unshared", [])] : pools))
                        all_seqs) = keys all_seqs).
  { unfold keys. rewrite map_map. reflexivity. }
  refine (conj Hk (conj _ (conj Hget _))).
  - rewrite Hk2, Hk1. unfold keys in *. rewrite map_map. exact Hk.
  - intros name Hin Hobs Hsyn.
    rewrite (Hget2 name Hsyn), (Hget1 name Hobs).
    apply selection_start. now rewrite Hk.
Qed.
End GetSequencesDatasets.

Lemma get_sequences_datasets_witness :
  exists all_seqs selected_seqs g',
    get_sequences nat first_choice
      [("observed", ["1 a b CARDYWG"; "6 a b CASSLGY"; "1 a b CARGYWG"]);
       ("subject-specific synthetic", ["6 a b CASSLGYT"]);
       ("default synthetic", ["1 a b CARDYWGQ"])] 0 =
    (Return (all_seqs, selected_seqs), g') /\
    keys all_seqs =
    ["observed"; "subject-specific synthetic"; "default synthetic"] /\
    keys selected_seqs =
    ["observed"; "subject-specific synthetic"; "default synthetic"] /\
    (exists seqs,
       build_pools ["1 a b CARDYWGQ"] = Return seqs /\
       dict_get String.eqb all_seqs "default synthetic" = Return seqs) /\
    dict_get String.eqb selected_seqs "default synthetic" =
    Return [("shared", []); ("unshared", [])].
Proof.
  do 3 eexists. split; [lazy; reflexivity|].
  destruct (get_sequences_datasets nat first_choice
              [("observed", ["1 a b CARDYWG"; "6 a b CASSLGY"; "1 a b CARGYWG"]);
               ("subject-specific synthetic", ["6 a b CASSLGYT"]);
               ("default synthetic", ["1 a b CARDYWGQ"])]
              _ _ 0 _
              ltac:(repeat constructor; simpl; intuition discriminate)
              eq_refl) as (Hk & Hk' & Hget & Hother).
  refine (conj Hk (conj Hk' (conj _ _))).
  - apply (Hget "default synthetic"). simpl. tauto.
  - apply Hother; [simpl; tauto|discriminate|discriminate].
Defined.

(** ** The entropies of all datasets *)

Section EntropyCellFacts.
Variable G : Type.

Lemma entropy_data_run (seq_dict : list (string * pools))
    (entropy_data0 : list row) (g : G) :
  for_each G seq_dict
    (fun dataset entropy_data =>
       bind G (calculate_entropies G (snd dataset) (fst dataset))
         (fun entropies => ret (entropy_data ++ entropies)))
    entropy_data0 g =
  if existsb (fun dataset => pools_convert_counts (snd dataset)) seq_dict
  then (Raise TypeError, g)
  else
    (Return
       (entropy_data0 ++
        flat_map (fun dataset => entropy_table (snd dataset) (fst dataset))
          seq_dict),
     g).
Proof.
  revert entropy_data0.
  induction seq_dict as [|[t d] seq_dict IH]; intro edata;
    cbn [for_each existsb flat_map fst snd].
  - unfold ret. now rewrite app_nil_r.
  - unfold bind at 1. unfold bind at 1.
    rewrite calculate_entropies_run.
    destruct (pools_convert_counts d); [reflexivity|].
    unfold ret at 1. cbn [orb]. rewrite IH.
    destruct (existsb _ seq_dict); [reflexivity|]. now rewrite app_assoc.
Qed.

Lemma entropy_table_seq_type (d : pools) (t : string) (r : row) :
  In r (entropy_table d t) -> seq_type r = t.
Proof.
  unfold entropy_table. intro Hr.
  apply in_flat_map in Hr. destruct Hr as (grp & _ & Hr).
  apply in_flat_map in Hr. destruct Hr as (entry & _ & Hr).
  unfold rows_of_bucket in Hr. apply in_map_iff in Hr.
  now destruct Hr as (c & <- & _).
Qed.

(** X16. The cell that gathers the entropies, for dataset names that
    are all different.  When it ends normally the generator is where it
    was, and the rows of [entropy_data] that carry the name of a dataset
    are exactly the table [calculate_entropies] returns for it, in the
    same order.  When [calculate_entropies] raises on one dataset, the
    cell raises [TypeError]. *)
Theorem entropy_data_by_dataset (seq_dict : list (string * pools))
    (t : string) (d : pools) (g : G) :
  NoDup (keys seq_dict) -> In (t, d) seq_dict ->
  (forall all_rows g',
     entropy_data G seq_dict g = (Return all_rows, g') ->
     g' = g /\
     calculate_entropies G d t g =
     (Return (filter (fun r => String.eqb (seq_type r) t) all_rows), g)) /\
  (forall e g',
     calculate_entropies G d t g = (Raise e, g') ->
     entropy_data G seq_dict g = (Raise TypeError, g)).
Proof.
  intros Hnd Hin. unfold entropy_data. rewrite entropy_data_run. split.
  - intros all_rows g' Hret.
    destruct (existsb _ seq_dict) eqn:E; [discriminate|].
    inversion Hret; subst. clear Hret. split; [reflexivity|].
    assert (Hd : pools_convert_counts d = false).
    { destruct (pools_convert_counts d) eqn:Ed; [|reflexivity].
      assert (existsb (fun dataset => pools_convert_counts (snd dataset))
                seq_dict = true); [|congruence].
      apply existsb_exists. now exists (t, d). }
    rewrite calculate_entropies_run, Hd. f_equal. f_equal. cbn [app].
    rewrite (filter_flat_map_key _ _ seq_dict t d Hnd Hin).
    + cbn [fst snd]. symmetry. apply filter_every. intros r Hr.
      rewrite (entropy_table_seq_type _ _ _ Hr). apply String.eqb_refl.
    + intros t' d' _ Hne. cbn [fst snd]. apply filter_none. intros r Hr.
      rewrite (entropy_table_seq_type _ _ _ Hr). now apply String.eqb_neq.
  - intros e g' Hraise. rewrite calculate_entropies_run in Hraise.
    destruct (pools_convert_counts d) eqn:Ed; [|discriminate].
    assert (E : existsb (fun dataset => pools_convert_counts (snd dataset))
                  seq_dict = true); [|now rewrite E].
    apply existsb_exists. now exists (t, d).
Qed.
End EntropyCellFacts.

Lemma entropy_data_by_dataset_witness :
  (forall all_rows g',
     entropy_data unit
       [("observed", [("shared", [(7, ["CASSLGY"])])]);
        ("subject-specific synthetic", [("shared", [(8, ["CASSLGYT"])])])]
       tt = (Return all_rows, g') ->
     g' = tt /\
     calculate_entropies unit [("shared", [(8, ["CASSLGYT"])])]
       "subject-specific synthetic" tt =
     (Return
        (filter
           (fun r => String.eqb (seq_type r) "subject-specific synthetic")
           all_rows), tt)) /\
  (forall e g',
     calculate_entropies unit [("shared", [(8, ["CASSLGYT"])])]
       "subject-specific synthetic" tt = (Raise e, g') ->
     entropy_data unit
       [("observed", [("shared", [(7, ["CASSLGY"])])]);
        ("subject-specific synthetic", [("shared", [(8, ["CASSLGYT"])])])]
       tt = (Raise TypeError, tt)).
Proof.
  apply (entropy_data_by_dataset unit
           [("observed", [("shared", [(7, ["CASSLGY"])])]);
            ("subject-specific synthetic", [("shared", [(8, ["CASSLGYT"])])])]
           "subject-specific synthetic" [("shared", [(8, ["CASSLGYT"])])] tt).
  - repeat constructor; simpl; intuition discriminate.
  - simpl. tauto.
Defined.

(** * Properties of the counting notebooks *)

(** ** Strings *)

Lemma list_ascii_of_string_app (a b : string) :
  list_ascii_of_string (a ++ b) =
  list_ascii_of_string a ++ list_ascii_of_string b.
Proof.
  induction a as [|c a IH]; simpl; [reflexivity|now rewrite IH].
Qed.

Lemma string_of_list_ascii_app (a b : list ascii) :
  string_of_list_ascii (a ++ b) =
  (string_of_list_ascii a ++ string_of_list_ascii b)%string.
Proof.
  induction a as [|c a IH]; simpl; [reflexivity|now rewrite IH].
Qed.

Lemma lstrip_suffix (cs : list ascii) :
  exists spaces, cs = spaces ++ lstrip cs /\
                 forall c, In c spaces -> is_space c = true.
Proof.
  induction cs as [|c cs (sp & IH & Hsp)]; [now exists []|].
  simpl. destruct (is_space c) eqn:E.
  - exists (c :: sp). split; [simpl; now rewrite <- IH|].
    intros x [<-|Hx]; auto.
  - exists []. split; [reflexivity|intros ? []].
Qed.

Lemma lstrip_head (cs : list ascii) (c : ascii) (rest : list ascii) :
  lstrip cs = c :: rest -> is_space c = false.
Proof.
  induction cs as [|x cs IH]; simpl; [discriminate|].
  destruct (is_space x) eqn:E; [exact IH|].
  intro H. inversion H; subst. exact E.
Qed.

(** What [strip] leaves starts with a character that is not white. *)
Lemma strip_head (s : string) (c : ascii) (rest : string) :
  strip s = String c rest -> is_space c = false.
Proof.
  unfold strip. set (w := lstrip (list_ascii_of_string s)).
  destruct (lstrip_suffix (rev w)) as (sp & Hsp & _).
  intro H.
  assert (Hw : w = rev (lstrip (rev w)) ++ rev sp).
  { rewrite <- rev_app_distr, <- Hsp. now rewrite rev_involutive. }
  destruct (rev (lstrip (rev w))) as [|x xs] eqn:Hx; [discriminate|].
  simpl in H. inversion H; subst x.
  apply (lstrip_head (list_ascii_of_string s) c (xs ++ rev sp)).
  exact Hw.
Qed.

Lemma split_from_word (cs word : list ascii) :
  word <> [] -> split_from cs word <> [].
Proof.
  revert word. induction cs as [|c cs IH]; intros word Hw; simpl.
  - destruct word; [congruence|discriminate].
  - destruct (is_space c).
    + destruct word; [congruence|discriminate].
    + apply IH. discriminate.
Qed.

(** A line that is not blank has a first field. *)
Lemma first_field_exists (line : string) :
  strip line <> EmptyString -> exists c, first_field line = Some c.
Proof.
  intro Hne. unfold first_field.
  destruct (strip line) as [|c rest] eqn:Hs; [congruence|].
  pose proof (strip_head _ _ _ Hs) as Hc.
  unfold split. cbn [list_ascii_of_string split_from]. rewrite Hc.
  pose proof (split_from_word (list_ascii_of_string rest) [c]
                ltac:(discriminate)) as Hw.
  destruct (split_from (list_ascii_of_string rest) [c]) as [|w ws];
    [congruence|].
  eexists. reflexivity.
Qed.

Lemma first_field_index (line : string) (c : ascii) (rest : string) :
  strip line = String c rest ->
  exists f, first_field line = Some f /\
            index (split (String c rest)) 0 = Return f.
Proof.
  intro Hs.
  destruct (first_field_exists line) as [f Hf]; [rewrite Hs; discriminate|].
  exists f. split; [exact Hf|].
  unfold first_field in Hf. rewrite Hs in Hf. unfold index. now rewrite Hf.
Qed.

(** ** Looking for the count of a group size *)

Lemma scan_count_skip (line : string) (rest : list string)
    (min_freq : string) (count : option Z) :
  has_first_field min_freq line = false ->
  scan_count (line :: rest) min_freq count = scan_count rest min_freq count.
Proof.
  unfold has_first_field. intro H. cbn [scan_count].
  destruct (strip line) as [|c s] eqn:Hs; [reflexivity|].
  destruct (first_field_index line c s Hs) as (f & Hf & Hidx).
  rewrite Hidx. cbn [obind]. rewrite Hf in H. now rewrite H.
Qed.

Lemma scan_count_match (line : string) (rest : list string)
    (min_freq : string) (count : option Z) :
  has_first_field min_freq line = true ->
  scan_count (line :: rest) min_freq count =
  (second <-! index (split (strip line)) 1 ;;
   c <-! int second ;;
   Return (Some c)).
Proof.
  unfold has_first_field. intro H. cbn [scan_count].
  destruct (strip line) as [|c s] eqn:Hs.
  - unfold first_field in H. rewrite Hs in H. discriminate.
  - destruct (first_field_index line c s Hs) as (f & Hf & Hidx).
    rewrite Hidx. cbn [obind]. rewrite Hf in H. now rewrite H.
Qed.

(** X18. The scan of an occurrence file stops at the first line whose
    first field is the group size: [count] becomes the integer in the
    second field of that line (an [IndexError] if the line has no second
    field, a [ValueError] if it is not an integer), whatever [count] was
    and whatever the lines after it are. *)
Theorem scan_count_first_match (before after : list string) (line : string)
    (min_freq : string) (count : option Z) :
  (forall l, In l before -> has_first_field min_freq l = false) ->
  has_first_field min_freq line = true ->
  scan_count (before ++ line :: after) min_freq count =
  (second <-! index (split (strip line)) 1 ;;
   c <-! int second ;;
   Return (Some c)).
Proof.
  intros Hbefore Hline. induction before as [|l before IH]; simpl app.
  - now apply scan_count_match.
  - rewrite scan_count_skip by (apply Hbefore; now left).
    apply IH. intros; apply Hbefore; now right.
Qed.

Lemma scan_count_first_match_witness :
  scan_count (["1 52003"; ""] ++ "2 417" :: ["2 9"; "3 x"; "4"]) "2"
    (Some 7%Z) =
  Return (Some 417%Z).
Proof.
  apply (scan_count_first_match ["1 52003"; ""] ["2 9"; "3 x"; "4"]
           "2 417" "2" (Some 7%Z)).
  - intros l [<-|[<-|[]]]; reflexivity.
  - reflexivity.
Defined.

(** X19. When no line of the file has the group size as its first
    field, the scan reads the file to its end without raising, lines that
    are malformed included, and leaves [count] as it was. *)
Theorem scan_count_no_match (lines : list string) (min_freq : string)
    (count : option Z) :
  (forall l, In l lines -> has_first_field min_freq l = false) ->
  scan_count lines min_freq count = Return count.
Proof.
  intro H. induction lines as [|l lines IH]; [reflexivity|].
  rewrite scan_count_skip by (apply H; now left).
  apply IH. intros; apply H; now right.
Qed.

Lemma scan_count_no_match_witness :
  scan_count ["1 52003"; "3"; ""; "x y z"] "2" (Some 7%Z) = Return (Some 7%Z).
Proof.
  apply (scan_count_no_match ["1 52003"; "3"; ""; "x y z"] "2" (Some 7%Z)).
  intros l [<-|[<-|[<-|[<-|[]]]]]; reflexivity.
Defined.

(** ** The frequency cell *)

(** X20. [count] outlives the iteration: for a file without a line for
    its group size, the cell raises [NameError] if no earlier file has
    bound [count], and otherwise records the frequency computed from the
    count of the last file that had such a line. *)
Theorem frequency_step_stale_count (subject_sizes : list (string * Z))
    (state : frequencies) (file : string * list string) (sizes : list Z) :
  let subjects := group_subjects (fst file) in
  let n := List.length subjects in
  sizes_of subject_sizes subjects = Return sizes ->
  (forall l, In l (snd file) -> has_first_field (str n) l = false) ->
  (count state = None ->
   frequency_step subject_sizes state file = Failed NameError) /\
  (forall c freqs,
     count state = Some c -> min_Z sizes <> 0%Z ->
     dict_get Nat.eqb (by_group_size state) n = Return freqs ->
     let freq := (1 * IZR c / IZR (min_Z sizes))%R in
     frequency_step subject_sizes state file =
     Done (mk_frequencies (Some c)
             (by_group state ++ [(join ", " subjects, (100 * freq)%R)])
             (dict_set Nat.eqb (by_group_size state) n (freqs ++ [freq])))).
Proof.
  intros subjects n Hsizes Hno. unfold frequency_step.
  fold subjects. fold n. rewrite Hsizes.
  rewrite (scan_count_no_match _ _ _ Hno). split.
  - now intros ->.
  - intros c freqs -> Hmin Hget.
    apply Z.eqb_neq in Hmin. rewrite Hmin, Hget. reflexivity.
Qed.

Lemma frequency_step_stale_count_witness :
  frequency_step [("A", 200%Z); ("B", 50%Z)]
    (mk_frequencies (Some 30%Z) [] [(1, []); (2, [])])
    ("./data/A-B_occurrence-counts.txt", ["1 900"; "3 4"]) =
  Done (mk_frequencies (Some 30%Z)
          [("A, B", (100 * (1 * IZR 30 / IZR 50))%R)]
          [(1, []); (2, [(1 * IZR 30 / IZR 50)%R])]).
Proof.
  apply (proj2 (frequency_step_stale_count [("A", 200%Z); ("B", 50%Z)]
                  (mk_frequencies (Some 30%Z) [] [(1, []); (2, [])])
                  ("./data/A-B_occurrence-counts.txt", ["1 900"; "3 4"])
                  [200%Z; 50%Z] eq_refl
                  ltac:(intros l [<-|[<-|[]]]; reflexivity))
           30%Z [] eq_refl ltac:(discriminate) eq_refl).
Defined.

Lemma frequency_step_Done (subject_sizes : list (string * Z))
    (state state' : frequencies) (file : string * list string) :
  frequency_step subject_sizes state file = Done state' ->
  let n := List.length (group_subjects (fst file)) in
  exists freq freqs,
    by_group state' =
    by_group state ++ [(join ", " (group_subjects (fst file)), (100 * freq)%R)] /\
    dict_get Nat.eqb (by_group_size state) n = Return freqs /\
    by_group_size state' =
    dict_set Nat.eqb (by_group_size state) n (freqs ++ [freq]).
Proof.
  unfold frequency_step.
  destruct (sizes_of subject_sizes (group_subjects (fst file))) as [sizes|];
    [|discriminate].
  destruct (scan_count _ _ _) as [[c|]|]; try discriminate.
  destruct (min_Z sizes =? 0)%Z; [discriminate|].
  destruct (dict_get Nat.eqb (by_group_size state) _) as [freqs|] eqn:Hget;
    [|discriminate].
  intro H. inversion H; subst. cbn. eauto.
Qed.

Lemma recorded_dict_set (by_size : list (nat * list R)) (n : nat)
    (freqs : list R) (freq : R) :
  dict_get Nat.eqb by_size n = Return freqs ->
  recorded (dict_set Nat.eqb by_size n (freqs ++ [freq])) =
  S (recorded by_size).
Proof.
  unfold recorded. induction by_size as [|[k v] d IH]; simpl; [discriminate|].
  destruct (Nat.eqb n k); simpl.
  - intro H. inversion H; subst. rewrite length_app. simpl. lia.
  - intro H. rewrite (IH H). lia.
Qed.

Lemma frequency_steps_Done (subject_sizes : list (string * Z))
    (files : list (string * list string)) :
  forall state state',
    frequency_steps subject_sizes state files = Done state' ->
    map fst (by_group state') =
    map fst (by_group state) ++
    map (fun file => join ", " (group_subjects (fst file))) files /\
    recorded (by_group_size state') =
    recorded (by_group_size state) + List.length files /\
    keys (by_group_size state') = keys (by_group_size state) /\
    forall file, In file files ->
      In (List.length (group_subjects (fst file))) (keys (by_group_size state)).
Proof.
  induction files as [|file files IH]; intros state state' H;
    cbn [frequency_steps] in H.
  - inversion H; subst. rewrite app_nil_r. simpl.
    refine (conj eq_refl (conj _ (conj eq_refl _))); [lia|intros ? []].
  - destruct (frequency_step subject_sizes state file) as [st1|] eqn:Hstep;
      [|discriminate].
    destruct (frequency_step_Done _ _ _ _ Hstep) as (freq & freqs & Hg & Hget & Hs).
    destruct (IH _ _ H) as (Hlabels & Hrec & Hkeys & Hin).
    rewrite Hg, Hs in *. clear Hg Hs.
    rewrite (keys_dict_set_present _ _ _ _ _ Hget) in Hkeys, Hin.
    refine (conj _ (conj _ (conj Hkeys _))).
    + rewrite Hlabels, map_app, <- app_assoc. reflexivity.
    + rewrite Hrec, (recorded_dict_set _ _ _ _ Hget). simpl. lia.
    + intros f [<-|Hf]; [|now apply Hin].
      apply (dict_get_In _ Nat.eqb_eq) in Hget.
      unfold keys. change (List.length (group_subjects (fst file)))
        with (fst (List.length (group_subjects (fst file)), freqs)).
      now apply in_map.
Qed.

(** X21. When the cell ends without an exception, every file has been
    recorded once in each result: [by_group] has one entry per file, in
    the order of the files and labelled with its subjects; [by_group_size]
    still has the keys 1 to the number of subjects and holds as many
    frequencies as there are files; and no file has more subjects than
    there are subjects. *)
Theorem shared_frequencies_complete (subjects : list string)
    (subject_sizes : list (string * Z)) (files : list (string * list string))
    (state : frequencies) :
  shared_frequencies subjects subject_sizes files = Done state ->
  map fst (by_group state) =
  map (fun file => join ", " (group_subjects (fst file))) files /\
  recorded (by_group_size state) = List.length files /\
  keys (by_group_size state) = seq 1 (List.length subjects) /\
  forall file, In file files ->
    1 <= List.length (group_subjects (fst file)) <= List.length subjects.
Proof.
  unfold shared_frequencies. intro H.
  apply frequency_steps_Done in H. cbn [by_group by_group_size] in H.
  destruct H as (Hlabels & Hrec & Hkeys & Hin).
  assert (Hk : keys (map (fun i => (i + 1, @nil R))
                       (seq 0 (List.length subjects))) =
               seq 1 (List.length subjects)).
  { unfold keys. rewrite map_map. cbn [fst]. rewrite <- seq_shift.
    apply map_ext. intro i. lia. }
  assert (Hr : recorded (map (fun i => (i + 1, @nil R))
                           (seq 0 (List.length subjects))) = 0).
  { unfold recorded. rewrite map_map. cbn [snd List.length].
    generalize (seq 0 (List.length subjects)) as l.
    induction l as [|x l IHl]; [reflexivity|exact IHl]. }
  rewrite Hk in *. rewrite Hr in Hrec.
  refine (conj Hlabels (conj Hrec (conj Hkeys _))).
  intros file Hf. apply Hin in Hf. apply in_seq in Hf. lia.
Qed.

Lemma shared_frequencies_complete_witness :
  exists state,
    shared_frequencies ["A"; "B"] [("A", 200%Z); ("B", 50%Z)]
      [("./data/A-B_occurrence-counts.txt", ["1 900"; "2 30"]);
       ("./data/B_occurrence-counts.txt", ["1 50"])] = Done state /\
    map fst (by_group state) = ["A, B"; "B"] /\
    recorded (by_group_size state) = 2 /\
    keys (by_group_size state) = [1; 2].
Proof.
  eexists. split; [lazy; reflexivity|].
  destruct (shared_frequencies_complete ["A"; "B"]
              [("A", 200%Z); ("B", 50%Z)]
              [("./data/A-B_occurrence-counts.txt", ["1 900"; "2 30"]);
               ("./data/B_occurrence-counts.txt", ["1 50"])] _ eq_refl)
    as (H1 & H2 & H3 & _).
  exact (conj H1 (conj H2 H3)).
Defined.

(** ** Files by number of subjects *)

Lemma split_on_from_nonempty (sep : ascii) (cs word : list ascii) :
  split_on_from sep cs word <> [].
Proof.
  revert word. induction cs as [|c cs IH]; intro word; simpl;
    [discriminate|].
  destruct (Ascii.eqb c sep); [discriminate|apply IH].
Qed.

Lemma group_subjects_nonempty (file : string) :
  1 <= List.length (group_subjects file).
Proof.
  unfold group_subjects, split_on. rewrite length_map.
  pose proof (split_on_from_nonempty "-"
                (list_ascii_of_string (subject_prefix file)) []) as H.
  destruct (split_on_from _ _ _); [congruence|simpl; lia].
Qed.

Lemma dict_get_tabulated {V : Type} (b : nat -> V) (ks : list nat) (k : nat) :
  In k ks -> dict_get Nat.eqb (map (fun n => (n, b n)) ks) k = Return (b k).
Proof.
  induction ks as [|k0 ks IH]; simpl; [tauto|].
  intro H. destruct (Nat.eqb_spec k k0) as [->|Hne]; [reflexivity|].
  apply IH. destruct H; [congruence|assumption].
Qed.

Lemma dict_set_tabulated {V : Type} (b : nat -> V) (ks : list nat) (k : nat)
    (v : V) :
  NoDup ks -> In k ks ->
  dict_set Nat.eqb (map (fun n => (n, b n)) ks) k v =
  map (fun n => (n, if Nat.eqb n k then v else b n)) ks.
Proof.
  induction ks as [|k0 ks IH]; simpl; [tauto|].
  intros Hnd Hin. inversion Hnd as [|? ? Hk0 Hks]; subst.
  destruct (Nat.eqb_spec k k0) as [->|Hne].
  - rewrite Nat.eqb_refl. f_equal. apply map_ext_in. intros n Hn.
    destruct (Nat.eqb_spec n k0) as [->|_]; [contradiction|reflexivity].
  - destruct (Nat.eqb_spec k0 k) as [E|_]; [congruence|].
    f_equal. apply IH; [exact Hks|]. destruct Hin; [congruence|assumption].
Qed.

Lemma add_by_subject_count_run (files : list string) :
  forall b : nat -> list string,
    (forall f, In f files -> List.length (group_subjects f) <= 10) ->
    add_by_subject_count (map (fun n => (n, b n)) (seq 1 10)) files =
    Return
      (map (fun n =>
              (n, b n ++
                  filter (fun f => List.length (group_subjects f) =? n) files))
         (seq 1 10)).
Proof.
  induction files as [|f files IH]; intros b Hle.
  - cbn [add_by_subject_count filter]. f_equal.
    apply map_ext. intro n. now rewrite app_nil_r.
  - cbn [add_by_subject_count].
    assert (Hin : In (List.length (group_subjects f)) (seq 1 10)).
    { apply in_seq. pose proof (group_subjects_nonempty f).
      specialize (Hle f (or_introl eq_refl)). lia. }
    rewrite (dict_get_tabulated b _ _ Hin). cbn [obind].
    rewrite (dict_set_tabulated b _ _ _ (seq_NoDup 10 1) Hin).
    rewrite (IH (fun n => if n =? List.length (group_subjects f)
                          then b (List.length (group_subjects f)) ++ [f]
                          else b n))
      by (intros; apply Hle; now right).
    f_equal. apply map_ext. intro n. f_equal. cbn [filter].
    rewrite (Nat.eqb_sym (List.length (group_subjects f)) n).
    destruct (Nat.eqb_spec n (List.length (group_subjects f))) as [->|_].
    + now rewrite <- app_assoc.
    + reflexivity.
Qed.

Lemma add_by_subject_count_KeyError (files : list string) :
  forall b : nat -> list string,
    (exists f, In f files /\ 10 < List.length (group_subjects f)) ->
    add_by_subject_count (map (fun n => (n, b n)) (seq 1 10)) files =
    Raise KeyError.
Proof.
  induction files as [|f files IH]; intros b (x & Hx & Hlen);
    [destruct Hx|].
  cbn [add_by_subject_count].
  destruct (Nat.le_gt_cases (List.length (group_subjects f)) 10) as [Hle|Hgt].
  - assert (Hin : In (List.length (group_subjects f)) (seq 1 10)).
    { apply in_seq. pose proof (group_subjects_nonempty f). lia. }
    rewrite (dict_get_tabulated b _ _ Hin). cbn [obind].
    rewrite (dict_set_tabulated b _ _ _ (seq_NoDup 10 1) Hin).
    apply IH. destruct Hx as [<-|Hx]; [lia|now exists x].
  - rewrite (dict_get_missing _ Nat.eqb_eq); [reflexivity|].
    unfold keys. rewrite map_map. cbn [fst]. rewrite map_id.
    rewrite in_seq. lia.
Qed.

(** X22. Sorting files by their number of subjects: when every file
    has at most ten subjects, the bucket of [n] holds exactly the files
    with [n] subjects, in the order of the list; a file with more than ten
    subjects makes the cell raise [KeyError]. *)
Theorem files_by_subject_count_spec (files : list string) :
  ((forall f, In f files -> List.length (group_subjects f) <= 10) ->
   files_by_subject_count files =
   Return
     (map (fun n =>
             (n, filter (fun f => List.length (group_subjects f) =? n) files))
        (seq 1 10))) /\
  ((exists f, In f files /\ 10 < List.length (group_subjects f)) ->
   files_by_subject_count files = Raise KeyError).
Proof.
  unfold files_by_subject_count. split.
  - intro Hle. exact (add_by_subject_count_run files (fun _ => []) Hle).
  - intro Hbad. exact (add_by_subject_count_KeyError files (fun _ => []) Hbad).
Qed.

Lemma files_by_subject_count_spec_witness :
  files_by_subject_count
    ["./data/A-B_pool.txt"; "./data/C_pool.txt"; "./data/A-C_pool.txt"] =
  Return
    (map (fun n =>
            (n, filter (fun f => List.length (group_subjects f) =? n)
                  ["./data/A-B_pool.txt"; "./data/C_pool.txt";
                   "./data/A-C_pool.txt"]))
       (seq 1 10)) /\
  files_by_subject_count ["./data/A-B-C-D-E-F-G-H-I-J-K_pool.txt"] =
  Raise KeyError.
Proof.
  split.
  - apply (proj1 (files_by_subject_count_spec
                    ["./data/A-B_pool.txt"; "./data/C_pool.txt";
                     "./data/A-C_pool.txt"])).
    intros f [<-|[<-|[<-|[]]]]; vm_compute; lia.
  - apply (proj2 (files_by_subject_count_spec
                    ["./data/A-B-C-D-E-F-G-H-I-J-K_pool.txt"])).
    exists "./data/A-B-C-D-E-F-G-H-I-J-K_pool.txt".
    split; [now left|vm_compute; lia].
Defined.

(** ** The subjects in the name of a file *)

Lemma split_on_from_clean (sep : ascii) (xs word : list ascii) :
  ~ In sep xs -> split_on_from sep xs word = [rev word ++ xs].
Proof.
  revert word. induction xs as [|c xs IH]; intros word Hno; simpl.
  - now rewrite app_nil_r.
  - destruct (Ascii.eqb_spec c sep) as [->|_]; [exfalso; apply Hno; now left|].
    rewrite IH by (intro; apply Hno; now right).
    simpl. now rewrite <- app_assoc.
Qed.

Lemma split_on_from_sep (sep : ascii) (xs ys word : list ascii) :
  ~ In sep xs ->
  split_on_from sep (xs ++ sep :: ys) word =
  (rev word ++ xs) :: split_on_from sep ys [].
Proof.
  revert word. induction xs as [|c xs IH]; intros word Hno; simpl.
  - rewrite Ascii.eqb_refl. now rewrite app_nil_r.
  - destruct (Ascii.eqb_spec c sep) as [->|_]; [exfalso; apply Hno; now left|].
    rewrite IH by (intro; apply Hno; now right).
    simpl. now rewrite <- app_assoc.
Qed.

Lemma last_cons_nonempty {A : Type} (x : A) (xs : list A) (d : A) :
  xs <> [] -> last (x :: xs) d = last xs d.
Proof. destruct xs; [congruence|reflexivity]. Qed.

Lemma split_on_from_last (sep : ascii) (cs ys word : list ascii) (d : list ascii) :
  ~ In sep ys -> last (split_on_from sep (cs ++ sep :: ys) word) d = ys.
Proof.
  intro Hno. revert word. induction cs as [|c cs IH]; intro word; simpl.
  - rewrite Ascii.eqb_refl, (split_on_from_clean sep ys [] Hno). reflexivity.
  - destruct (Ascii.eqb c sep).
    + rewrite last_cons_nonempty by apply split_on_from_nonempty. apply IH.
    + apply IH.
Qed.

Lemma last_map_string (pieces : list (list ascii)) :
  last (map string_of_list_ascii pieces) "" =
  string_of_list_ascii (last pieces []).
Proof.
  induction pieces as [|p [|q pieces] IH]; try reflexivity.
  exact IH.
Qed.

Lemma basename_of_path (dir base : string) :
  without "/" base -> basename (dir ++ "/" ++ base) = base.
Proof.
  intro Hno. unfold basename, split_on.
  rewrite last_map_string, !list_ascii_of_string_app.
  change (list_ascii_of_string "/") with ["/"%char]. cbn [app].
  rewrite (split_on_from_last "/" _ _ [] [] Hno).
  apply string_of_list_ascii_of_string.
Qed.

Lemma join_chars (sep : string) (names : list string) (c : ascii) :
  In c (list_ascii_of_string (join sep names)) ->
  In c (list_ascii_of_string sep) \/
  exists name, In name names /\ In c (list_ascii_of_string name).
Proof.
  induction names as [|x [|y rest] IH]; cbn [join].
  - intros [].
  - intro H. right. exists x. split; [now left|exact H].
  - rewrite !list_ascii_of_string_app, !in_app_iff.
    intros [H|[H|H]].
    + right. exists x. split; [now left|exact H].
    + now left.
    + destruct (IH H) as [Hs|(name & Hn & Hc)]; [now left|].
      right. exists name. split; [now right|exact Hc].
Qed.

Lemma split_join (names : list string) :
  names <> [] -> (forall name, In name names -> without "-" name) ->
  split_on "-" (join "-" names) = names.
Proof.
  intros Hne Hno. unfold split_on.
  assert (E : split_on_from "-" (list_ascii_of_string (join "-" names)) [] =
              map list_ascii_of_string names).
  { induction names as [|x [|y rest] IH]; [congruence| |].
    - cbn [join map]. apply split_on_from_clean. apply Hno. now left.
    - cbn [join]. rewrite !list_ascii_of_string_app.
      change (list_ascii_of_string "-") with ["-"%char]. cbn [app].
      rewrite split_on_from_sep by (apply Hno; now left).
      cbn [rev app map]. f_equal.
      apply IH; [discriminate|intros; apply Hno; now right]. }
  rewrite E, map_map. rewrite <- (map_id names) at 2.
  apply map_ext. apply string_of_list_ascii_of_string.
Qed.

(** X23. File names carry their subjects: for a file named
    [<dir>/<s1>-...-<sn>_<suffix>], where the names of the subjects contain
    none of [-], [_] and [/] and the suffix contains no [/], the prefix
    used for the output file is [<s1>-...-<sn>] and the subjects read from
    the name are [s1 ... sn]. *)
Theorem group_subjects_of_name (dir suffix : string) (names : list string) :
  names <> [] ->
  (forall name, In name names ->
     without "-" name /\ without "_" name /\ without "/" name) ->
  without "/" suffix ->
  let file := (dir ++ "/" ++ join "-" names ++ "_" ++ suffix)%string in
  subject_prefix file = join "-" names /\ group_subjects file = names.
Proof.
  intros Hne Hnames Hsuffix file.
  assert (Hprefix : forall c, c <> "-"%char ->
            (forall name, In name names -> without c name) ->
            without c (join "-" names)).
  { intros c Hc Hall Hin. apply join_chars in Hin.
    destruct Hin as [[E|[]]|(name & Hn & Hin)]; [congruence|].
    exact (Hall name Hn Hin). }
  assert (Hp : subject_prefix file = join "-" names).
  { unfold subject_prefix, file. rewrite basename_of_path.
    - unfold split_on. rewrite list_ascii_of_string_app.
      change (list_ascii_of_string ("_" ++ suffix))
        with ("_"%char :: list_ascii_of_string suffix).
      rewrite split_on_from_sep.
      + cbn [map hd rev app]. apply string_of_list_ascii_of_string.
      + apply Hprefix; [discriminate|]. intros name Hn. apply (Hnames name Hn).
    - unfold without. rewrite list_ascii_of_string_app, in_app_iff.
      intros [H|H].
      + revert H. apply Hprefix; [discriminate|].
        intros name Hn. apply (Hnames name Hn).
      + change (list_ascii_of_string ("_" ++ suffix))
          with ("_"%char :: list_ascii_of_string suffix) in H.
        destruct H as [H|H]; [discriminate|exact (Hsuffix H)]. }
  split; [exact Hp|].
  unfold group_subjects. rewrite Hp.
  apply split_join; [exact Hne|]. intros name Hn. apply (Hnames name Hn).
Qed.

Lemma group_subjects_of_name_witness :
  subject_prefix
    ("./data/pools" ++ "/" ++ join "-" ["316188"; "326650"; "D103"] ++ "_" ++
     "dedup_pool_vj-aa_with-counts.txt") =
  join "-" ["316188"; "326650"; "D103"] /\
  group_subjects
    ("./data/pools" ++ "/" ++ join "-" ["316188"; "326650"; "D103"] ++ "_" ++
     "dedup_pool_vj-aa_with-counts.txt") =
  ["316188"; "326650"; "D103"].
Proof.
  apply (group_subjects_of_name "./data/pools"
           "dedup_pool_vj-aa_with-counts.txt" ["316188"; "326650"; "D103"]).
  - discriminate.
  - intros name [<-|[<-|[<-|[]]]]; repeat split;
      unfold without; simpl; intuition discriminate.
  - unfold without; simpl; intuition discriminate.
Defined.

(** ** Decimal numbers: [str] and [int] *)

Lemma digits_value_digit (c : ascii) (k : Z) (cs : list ascii) (acc : Z)
    (after_digit : bool) :
  digit_of c = Some k -> Ascii.eqb c "_" = false ->
  digits_value (c :: cs) acc after_digit =
  digits_value cs (10 * acc + k)%Z true.
Proof. intros Hd Hu. cbn [digits_value]. now rewrite Hu, Hd. Qed.

Ltac digit_value :=
  match goal with
  | |- context [Z.of_nat (nat_of_ascii ?c - 48)] =>
      let v := eval vm_compute in (Z.of_nat (nat_of_ascii c - 48)) in
      change (Z.of_nat (nat_of_ascii c - 48)) with v
  end.

Lemma digits_value_uint (d : Decimal.uint) :
  forall acc : nat,
    digits_value (uint_chars d) (Z.of_nat acc) true =
    Some (Z.of_nat (Nat.of_uint_acc d acc)).
Proof.
  induction d; intro acc; cbn [uint_chars Nat.of_uint_acc];
    [reflexivity|..];
    rewrite Nat.tail_mul_spec;
    erewrite digits_value_digit by reflexivity; digit_value;
    match goal with
    | |- digits_value _ ?z true = Some (Z.of_nat (Nat.of_uint_acc _ ?n)) =>
        replace z with (Z.of_nat n) by lia
    end;
    apply IHd.
Qed.

Lemma to_uint_not_Nil (n : nat) : Nat.to_uint n <> Decimal.Nil.
Proof.
  intro E. pose proof (Unsigned.of_to n) as H. rewrite E in H.
  cbn in H. subst n. discriminate.
Qed.

(** [int(str(n))] is [n]. *)
Lemma int_str (n : nat) : int (str n) = Return (Z.of_nat n).
Proof.
  unfold int, str. rewrite list_ascii_of_string_of_list_ascii.
  pose proof (Unsigned.of_to n) as Hn.
  pose proof (to_uint_not_Nil n) as Hnil.
  unfold Nat.of_uint in Hn.
  destruct (Nat.to_uint n) as [|d|d|d|d|d|d|d|d|d|d]; [congruence|..];
    cbn [uint_chars]; cbv iota beta;
    erewrite digits_value_digit by reflexivity; digit_value;
    cbn [Nat.of_uint_acc] in Hn; rewrite Nat.tail_mul_spec in Hn;
    match goal with
    | |- match digits_value _ ?z true with _ => _ end = _ =>
        match type of Hn with
        | Nat.of_uint_acc _ ?m = _ =>
            replace z with (Z.of_nat m) by lia
        end
    end;
    rewrite digits_value_uint, Hn; reflexivity.
Qed.

Lemma str_injective (m n : nat) : str m = str n -> m = n.
Proof.
  intro H. pose proof (int_str m) as Hm. rewrite H, int_str in Hm.
  inversion Hm. lia.
Qed.

(** ** [count_duplicates] *)

Section Table.
Context {K V : Type} (eqb : K -> K -> bool).
Hypothesis eqb_eq : forall a b, eqb a b = true <-> a = b.

Lemma dict_get_table (b : K -> V) (ks : list K) (k : K) :
  In k ks -> dict_get eqb (map (fun n => (n, b n)) ks) k = Return (b k).
Proof.
  induction ks as [|k0 ks IH]; simpl; [tauto|].
  intro H. destruct (eqb k k0) eqn:E.
  - apply eqb_eq in E. now subst.
  - apply IH. destruct H as [->|H]; [|exact H].
    rewrite (proj2 (eqb_eq k k) eq_refl) in E. discriminate.
Qed.

Lemma dict_set_table (b : K -> V) (ks : list K) (k : K) (v : V) :
  NoDup ks -> In k ks ->
  dict_set eqb (map (fun n => (n, b n)) ks) k v =
  map (fun n => (n, if eqb n k then v else b n)) ks.
Proof.
  induction ks as [|k0 ks IH]; simpl; [tauto|].
  intros Hnd Hin. inversion Hnd as [|? ? Hk0 Hks]; subst.
  destruct (eqb k k0) eqn:E.
  - apply eqb_eq in E. subst k0.
    rewrite (proj2 (eqb_eq k k) eq_refl). f_equal.
    apply map_ext_in. intros n Hn.
    destruct (eqb n k) eqn:E'; [|reflexivity].
    apply eqb_eq in E'. subst. contradiction.
  - destruct (eqb k0 k) eqn:E'.
    + apply eqb_eq in E'. subst.
      rewrite (proj2 (eqb_eq k k) eq_refl) in E. discriminate.
    + f_equal. apply IH; [exact Hks|].
      destruct Hin as [->|Hin]; [|exact Hin].
      rewrite (proj2 (eqb_eq k k) eq_refl) in E. discriminate.
Qed.

Lemma keys_table (b : K -> V) (ks : list K) :
  keys (map (fun n => (n, b n)) ks) = ks.
Proof. unfold keys. rewrite map_map. apply map_id. Qed.
End Table.

Lemma count_keys_NoDup : NoDup count_keys.
Proof.
  unfold count_keys. apply Finite.Injective_map_NoDup; [|apply seq_NoDup].
  intros m n. apply str_injective.
Qed.

(** What a line does to the counts. *)
Lemma count_line_first_field (counts : list (string * nat)) (line : string) :
  count_line counts line =
  match first_field line with
  | None => Return counts
  | Some c =>
      n <-! dict_get String.eqb counts c ;;
      Return (dict_set String.eqb counts c (n + 1))
  end.
Proof.
  unfold count_line.
  destruct (strip line) as [|c s] eqn:Hs.
  - unfold first_field. now rewrite Hs.
  - destruct (first_field_index line c s Hs) as (f & -> & ->). reflexivity.
Qed.

Lemma occurrences_cons (line : string) (lines : list string) (k : string) :
  occurrences (line :: lines) k =
  (if has_first_field k line then 1 else 0) + occurrences lines k.
Proof.
  unfold occurrences. cbn [filter].
  destruct (has_first_field k line); reflexivity.
Qed.

Lemma count_lines_run (lines : list string) :
  forall b : string -> nat,
    (forall line c, In line lines -> first_field line = Some c ->
                    In c count_keys) ->
    count_lines (map (fun k => (k, b k)) count_keys) lines =
    Return (map (fun k => (k, b k + occurrences lines k)) count_keys).
Proof.
  induction lines as [|line lines IH]; intros b Hkeys.
  - cbn [count_lines]. f_equal. apply map_ext. intro k.
    unfold occurrences. simpl. now rewrite Nat.add_0_r.
  - cbn [count_lines]. rewrite count_line_first_field.
    destruct (first_field line) as [c|] eqn:Hf.
    + pose proof (Hkeys line c (or_introl eq_refl) Hf) as Hc.
      rewrite (dict_get_table _ String.eqb_eq b _ _ Hc). cbn [obind].
      rewrite (dict_set_table _ String.eqb_eq b _ _ _ count_keys_NoDup Hc).
      rewrite (IH (fun k => if String.eqb k c then b c + 1 else b k))
        by (intros l c' Hl; apply Hkeys; now right).
      f_equal. apply map_ext. intro k. f_equal.
      rewrite occurrences_cons. unfold has_first_field. rewrite Hf.
      rewrite (String.eqb_sym c k).
      destruct (String.eqb_spec k c) as [->|_]; lia.
    + cbn [obind]. rewrite IH by (intros l c' Hl; apply Hkeys; now right).
      f_equal. apply map_ext. intro k. f_equal.
      rewrite occurrences_cons. unfold has_first_field. now rewrite Hf.
Qed.

Lemma count_lines_KeyError (lines : list string) :
  forall b : string -> nat,
    (exists line c, In line lines /\ first_field line = Some c /\
                    ~ In c count_keys) ->
    count_lines (map (fun k => (k, b k)) count_keys) lines = Raise KeyError.
Proof.
  induction lines as [|line lines IH]; intros b (x & c & Hx & Hf & Hc);
    [destruct Hx|].
  cbn [count_lines]. rewrite count_line_first_field.
  destruct (first_field line) as [c'|] eqn:Hf'.
  - destruct (in_dec string_dec c' count_keys) as [Hin|Hout].
    + rewrite (dict_get_table _ String.eqb_eq b _ _ Hin). cbn [obind].
      rewrite (dict_set_table _ String.eqb_eq b _ _ _ count_keys_NoDup Hin).
      apply IH. destruct Hx as [<-|Hx]; [|now exists x, c].
      rewrite Hf in Hf'. inversion Hf'; subst. contradiction.
    + rewrite (dict_get_missing _ String.eqb_eq); [reflexivity|].
      now rewrite keys_table.
  - cbn [obind]. apply IH. destruct Hx as [<-|Hx]; [congruence|].
    now exists x, c.
Qed.

Lemma sorted_counts (b : string -> nat) :
  sorted_by_int (map (fun k => (k, b k)) count_keys) =
  Return (map (fun k => (k, b k)) count_keys).
Proof. reflexivity. Qed.

Lemma new_counts_table :
  new_counts = map (fun k => (k, 0)) count_keys.
Proof. unfold new_counts, count_keys. now rewrite map_map. Qed.

Lemma indicator_sum (c : string) (ks : list string) :
  NoDup ks -> In c ks ->
  list_sum (map (fun k => if String.eqb c k then 1 else 0) ks) = 1.
Proof.
  assert (Hzero : forall l, ~ In c l ->
            list_sum (map (fun k => if String.eqb c k then 1 else 0) l) = 0).
  { induction l as [|k l IH]; intro Hc; [reflexivity|].
    cbn [map list_sum fold_right].
    destruct (String.eqb_spec c k) as [->|_]; [exfalso; apply Hc; now left|].
    apply IH. intro. apply Hc. now right. }
  induction ks as [|k ks IH]; intros Hnd Hc; [destruct Hc|].
  inversion Hnd as [|? ? Hk Hks]; subst. cbn [map].
  change (list_sum (?x :: ?l)) with (x + list_sum l).
  destruct (String.eqb_spec c k) as [->|Hne].
  - now rewrite (Hzero ks Hk).
  - rewrite IH; [reflexivity|exact Hks|]. destruct Hc; [congruence|assumption].
Qed.

Lemma total_occurrences (lines : list string) :
  (forall line c, In line lines -> first_field line = Some c ->
                  In c count_keys) ->
  list_sum (map (occurrences lines) count_keys) =
  List.length (filter (fun line => negb (is_blank line)) lines).
Proof.
  intro Hkeys. induction lines as [|line lines IH].
  - unfold occurrences. simpl. reflexivity.
  - assert (E : map (occurrences (line :: lines)) count_keys =
                map (fun k => (if has_first_field k line then 1 else 0) +
                              occurrences lines k) count_keys)
      by (apply map_ext; intro k; apply occurrences_cons).
    rewrite E. clear E.
    assert (Hsum : forall (f g : string -> nat) ks,
               list_sum (map (fun k => f k + g k) ks) =
               list_sum (map f ks) + list_sum (map g ks)).
    { intros f g ks. induction ks as [|k ks IHk]; simpl; [reflexivity|].
      rewrite IHk. lia. }
    rewrite Hsum, IH by (intros l c Hl; apply Hkeys; now right).
    cbn [filter]. unfold is_blank, has_first_field.
    destruct (strip line) as [|ch s] eqn:Hs.
    + unfold first_field. rewrite Hs. cbn [negb].
      assert (list_sum (map (fun _ : string => 0) count_keys) = 0) as ->;
        [|reflexivity].
      generalize count_keys as ks.
      induction ks as [|k ks IHk]; [reflexivity|exact IHk].
    + destruct (first_field_index line ch s Hs) as (c & Hf & _).
      rewrite Hf. cbn [negb List.length].
      pose proof (Hkeys line c (or_introl eq_refl) Hf) as Hc.
      now rewrite (indicator_sum c count_keys count_keys_NoDup Hc).
Qed.

Lemma first_fields_dichotomy (lines : list string) :
  (forall line c, In line lines -> first_field line = Some c ->
                  In c count_keys) \/
  (exists line c, In line lines /\ first_field line = Some c /\
                  ~ In c count_keys).
Proof.
  induction lines as [|line lines IH]; [left; intros ? ? []|].
  destruct IH as [IH|(x & c & Hx & Hf & Hc)].
  - destruct (first_field line) as [c|] eqn:Hf.
    + destruct (in_dec string_dec c count_keys) as [Hin|Hout].
      * left. intros l c' [<-|Hl] Hf'; [congruence|eauto].
      * right. exists line, c. split; [now left|now split].
    + left. intros l c' [<-|Hl] Hf'; [congruence|eauto].
  - right. exists x, c. split; [now right|now split].
Qed.

(** What [count_duplicates] returns and writes when every first field
    is a key. *)
Lemma count_duplicates_run (input_file output_dir : string)
    (lines : list string) :
  (forall line c, In line lines -> first_field line = Some c ->
                  In c count_keys) ->
  count_duplicates input_file lines output_dir =
  Return
    (mk_written
       (path_join output_dir
          (subject_prefix input_file ++ "_occurrence-counts.txt"))
       (join newline
          (map (fun k => count_row k (occurrences lines k)) count_keys)),
     map (fun k => (k, occurrences lines k)) count_keys).
Proof.
  intro Hkeys. unfold count_duplicates.
  rewrite new_counts_table, (count_lines_run lines (fun _ => 0) Hkeys).
  cbn [obind Nat.add]. rewrite sorted_counts. cbn [obind].
  now rewrite map_map.
Qed.

Lemma count_duplicates_returns (input_file output_dir : string)
    (lines : list string) (result : written * list (string * nat)) :
  count_duplicates input_file lines output_dir = Return result ->
  forall line c, In line lines -> first_field line = Some c ->
                 In c count_keys.
Proof.
  intro Hret. destruct (first_fields_dichotomy lines) as [H|H]; [exact H|].
  unfold count_duplicates in Hret.
  rewrite new_counts_table, (count_lines_KeyError lines (fun _ => 0) H) in Hret.
  discriminate.
Qed.

(** X24. When the first field of every line that is not blank is one
    of [1] to [10], [count_duplicates] returns for each of these keys the
    number of lines that start with it, in the order 1 to 10; blank lines
    are not counted, and the ten counts add up to the number of lines
    that are not blank. *)
Theorem count_duplicates_counts (input_file output_dir : string)
    (lines : list string) :
  (forall line c, In line lines -> first_field line = Some c ->
                  In c count_keys) ->
  exists file,
    count_duplicates input_file lines output_dir =
    Return (file, map (fun k => (k, occurrences lines k)) count_keys) /\
    list_sum (map (occurrences lines) count_keys) =
    List.length (filter (fun line => negb (is_blank line)) lines).
Proof.
  intro Hkeys. unfold count_duplicates.
  rewrite new_counts_table, (count_lines_run lines (fun _ => 0) Hkeys).
  cbn [obind Nat.add]. rewrite sorted_counts. cbn [obind].
  eexists. split; [reflexivity|exact (total_occurrences lines Hkeys)].
Qed.

Lemma count_duplicates_counts_witness :
  exists file,
    count_duplicates "./pools/A-B_dedup_pool_vj-aa_with-counts.txt"
      ["1 IGHV1-2 CARDYW"; ""; "2 IGHV3-23 CAKDLW"; "1 IGHV4-34 CARGYW"; "  "]
      "./counts/" =
    Return (file,
            map (fun k =>
                   (k, occurrences
                         ["1 IGHV1-2 CARDYW"; ""; "2 IGHV3-23 CAKDLW";
                          "1 IGHV4-34 CARGYW"; "  "] k))
              count_keys) /\
    list_sum
      (map (occurrences
              ["1 IGHV1-2 CARDYW"; ""; "2 IGHV3-23 CAKDLW";
               "1 IGHV4-34 CARGYW"; "  "]) count_keys) =
    List.length
      (filter (fun line => negb (is_blank line))
         ["1 IGHV1-2 CARDYW"; ""; "2 IGHV3-23 CAKDLW"; "1 IGHV4-34 CARGYW";
          "  "]).
Proof.
  apply (count_duplicates_counts
           "./pools/A-B_dedup_pool_vj-aa_with-counts.txt" "./counts/"
           ["1 IGHV1-2 CARDYW"; ""; "2 IGHV3-23 CAKDLW"; "1 IGHV4-34 CARGYW";
            "  "]).
  intros line c Hin Hf. simpl in Hin.
  repeat (destruct Hin as [<-|Hin];
          [vm_compute in Hf; inversion Hf; subst; vm_compute; tauto|]).
  destruct Hin.
Defined.

(** X25. [count_duplicates] fails exactly when the first field of
    some line that is not blank is not one of [1] to [10] (such as [11],
    [01] or a word), and the exception is then [KeyError]. *)
Theorem count_duplicates_KeyError (input_file output_dir : string)
    (lines : list string) :
  (forall e, count_duplicates input_file lines output_dir = Raise e ->
             e = KeyError) /\
  ((exists e, count_duplicates input_file lines output_dir = Raise e) <->
   (exists line c, In line lines /\ first_field line = Some c /\
                   ~ In c count_keys)).
Proof.
  pose proof (first_fields_dichotomy lines) as Hdich.
  assert (Hbad : (exists line c, In line lines /\ first_field line = Some c /\
                                 ~ In c count_keys) ->
                 count_duplicates input_file lines output_dir = Raise KeyError).
  { intro H. unfold count_duplicates.
    now rewrite new_counts_table, (count_lines_KeyError lines (fun _ => 0) H). }
  assert (Hgood : (forall line c, In line lines -> first_field line = Some c ->
                                  In c count_keys) ->
                  forall e, count_duplicates input_file lines output_dir <>
                            Raise e).
  { intros H e. unfold count_duplicates.
    rewrite new_counts_table, (count_lines_run lines (fun _ => 0) H).
    cbn [obind]. rewrite sorted_counts. discriminate. }
  split.
  - intros e He. destruct Hdich as [H|H].
    + exfalso. exact (Hgood H e He).
    + rewrite (Hbad H) in He. now inversion He.
  - split.
    + intros [e He]. destruct Hdich as [H|H]; [|exact H].
      exfalso. exact (Hgood H e He).
    + intro H. exists KeyError. exact (Hbad H).
Qed.

Lemma count_duplicates_KeyError_witness :
  exists e,
    count_duplicates "./pools/A_dedup.txt" ["1 CARDYW"; "01 CAKDLW"] "./counts" =
    Raise e.
Proof.
  apply (proj2 (proj2 (count_duplicates_KeyError "./pools/A_dedup.txt"
                         "./counts" ["1 CARDYW"; "01 CAKDLW"]))).
  exists "01 CAKDLW", "01". split; [simpl; tauto|].
  split; [reflexivity|]. vm_compute. intuition discriminate.
Defined.

(** ** Reading back what [count_duplicates] writes *)

Lemma lstrip_spaces (ws cs : list ascii) :
  Forall (fun c => is_space c = true) ws -> lstrip (ws ++ cs) = lstrip cs.
Proof.
  induction 1 as [|c ws Hc _ IH]; [reflexivity|].
  cbn [app lstrip]. now rewrite Hc.
Qed.

Lemma strip_core (core ws : list ascii) (c d : ascii) (r r' : list ascii) :
  core = c :: r -> rev core = d :: r' ->
  is_space c = false -> is_space d = false ->
  Forall (fun c => is_space c = true) ws ->
  rev (lstrip (rev (lstrip (core ++ ws)))) = core.
Proof.
  intros Hcore Hrev Hc Hd Hws.
  assert (E : lstrip (core ++ ws) = core ++ ws).
  { rewrite Hcore. cbn [app lstrip]. now rewrite Hc. }
  rewrite E, rev_app_distr, lstrip_spaces by now apply Forall_rev.
  rewrite Hrev. cbn [lstrip]. rewrite Hd, <- Hrev. apply rev_involutive.
Qed.

Lemma split_from_nonspace (a rest : list ascii) :
  Forall (fun c => is_space c = false) a ->
  forall word, split_from (a ++ rest) word = split_from rest (rev a ++ word).
Proof.
  induction 1 as [|c a Hc _ IH]; intro word; [reflexivity|].
  cbn [app split_from rev]. rewrite Hc, IH, <- app_assoc. reflexivity.
Qed.

Lemma split_two_fields (a b : list ascii) (sp : ascii) :
  a <> [] -> b <> [] ->
  Forall (fun c => is_space c = false) a ->
  Forall (fun c => is_space c = false) b ->
  is_space sp = true ->
  split_from (a ++ sp :: b) [] = [a; b].
Proof.
  intros Ha Hb Hna Hnb Hsp.
  rewrite (split_from_nonspace a _ Hna), app_nil_r.
  cbn [split_from]. rewrite Hsp.
  assert (Hword : forall x : list ascii, x <> [] ->
            forall tl, match rev x with
                       | [] => tl
                       | _ :: _ => rev (rev x) :: tl
                       end = x :: tl).
  { intros x Hx tl. destruct (rev x) eqn:E.
    - exfalso. apply Hx. rewrite <- (rev_involutive x), E. reflexivity.
    - now rewrite <- E, rev_involutive. }
  rewrite (Hword a Ha). f_equal.
  rewrite <- (app_nil_r b) at 1.
  rewrite (split_from_nonspace b _ Hnb), app_nil_r.
  cbn [split_from]. destruct (rev b) eqn:E.
  - exfalso. apply Hb. rewrite <- (rev_involutive b), E. reflexivity.
  - now rewrite <- E, rev_involutive.
Qed.

Lemma uint_chars_not_space (d : Decimal.uint) :
  Forall (fun c => is_space c = false) (uint_chars d).
Proof. induction d; constructor; solve [reflexivity | assumption]. Qed.

Lemma str_chars (n : nat) :
  list_ascii_of_string (str n) <> [] /\
  Forall (fun c => is_space c = false) (list_ascii_of_string (str n)).
Proof.
  unfold str. rewrite list_ascii_of_string_of_list_ascii. split.
  - pose proof (to_uint_not_Nil n) as H.
    destruct (Nat.to_uint n); try discriminate. now contradiction H.
  - apply uint_chars_not_space.
Qed.

(** The two fields of a written line, with or without its newline. *)
Lemma count_row_fields (k : string) (n : nat) (line : string) :
  list_ascii_of_string k <> [] ->
  Forall (fun c => is_space c = false) (list_ascii_of_string k) ->
  line = count_row k n \/ line = (count_row k n ++ newline)%string ->
  strip line = count_row k n /\ split (count_row k n) = [k; str n].
Proof.
  intros Hk Hnk Hline.
  destruct (str_chars n) as [Hn Hnn].
  set (a := list_ascii_of_string k) in *.
  set (b := list_ascii_of_string (str n)) in *.
  assert (Hrow : list_ascii_of_string (count_row k n) =
                 a ++ ascii_of_nat 9 :: b).
  { unfold count_row, tab. now rewrite list_ascii_of_string_app. }
  assert (Hstrip : forall ws, Forall (fun c => is_space c = true) ws ->
            rev (lstrip (rev (lstrip ((a ++ ascii_of_nat 9 :: b) ++ ws)))) =
            a ++ ascii_of_nat 9 :: b).
  { intros ws Hws.
    destruct a as [|c r] eqn:Ea; [now contradiction Hk|].
    destruct (rev b) as [|d r'] eqn:Eb.
    - exfalso. apply Hn. rewrite <- (rev_involutive b), Eb. reflexivity.
    - apply (strip_core _ ws c d (r ++ ascii_of_nat 9 :: b)
               (r' ++ ascii_of_nat 9 :: rev (c :: r))).
      + reflexivity.
      + rewrite rev_app_distr. cbn [rev]. rewrite Eb.
        cbn [rev app]. now rewrite <- !app_assoc.
      + now inversion Hnk.
      + apply Forall_rev in Hnn. rewrite Eb in Hnn. now inversion Hnn.
      + exact Hws. }
  split.
  - unfold strip. destruct Hline as [->| ->].
    + rewrite Hrow, <- (app_nil_r (a ++ _ :: b)), (Hstrip [] (Forall_nil _)).
      now rewrite <- Hrow, string_of_list_ascii_of_string.
    + rewrite list_ascii_of_string_app, Hrow.
      change (list_ascii_of_string newline) with [ascii_of_nat 10].
      rewrite (Hstrip [ascii_of_nat 10]) by (repeat constructor).
      now rewrite <- Hrow, string_of_list_ascii_of_string.
  - unfold split. rewrite Hrow, (split_two_fields a b) by
      (try assumption; reflexivity).
    cbn [map]. unfold a, b. now rewrite !string_of_list_ascii_of_string.
Qed.

Lemma file_lines_from_clean (r line : list ascii) :
  rev line ++ r <> [] -> ~ In (ascii_of_nat 10) r ->
  file_lines_from r line = [rev line ++ r].
Proof.
  revert line. induction r as [|c r IH]; intros line Hne Hnl.
  - cbn [file_lines_from]. rewrite app_nil_r in *.
    destruct line; [now contradiction Hne|reflexivity].
  - cbn [file_lines_from].
    destruct (Ascii.eqb_spec c (ascii_of_nat 10)) as [->|_];
      [exfalso; apply Hnl; now left|].
    rewrite IH.
    + cbn [rev]. now rewrite <- app_assoc.
    + cbn [rev]. rewrite <- app_assoc. cbn [app].
      intro H. now apply app_eq_nil in H as [_ H].
    + intro. apply Hnl. now right.
Qed.

Lemma file_lines_from_newline (r cs line : list ascii) :
  ~ In (ascii_of_nat 10) r ->
  file_lines_from (r ++ ascii_of_nat 10 :: cs) line =
  (rev line ++ r ++ [ascii_of_nat 10]) :: file_lines_from cs [].
Proof.
  revert line. induction r as [|c r IH]; intros line Hnl.
  - cbn [app file_lines_from]. rewrite Ascii.eqb_refl. reflexivity.
  - cbn [app file_lines_from].
    destruct (Ascii.eqb_spec c (ascii_of_nat 10)) as [->|_];
      [exfalso; apply Hnl; now left|].
    rewrite IH by (intro; apply Hnl; now right).
    cbn [rev]. now rewrite <- app_assoc.
Qed.

(** The lines of a file written as ['\n'.join(rows)]: one for each row,
    each with its newline but possibly the last one. *)
Lemma file_lines_join (rows : list string) :
  (forall row, In row rows ->
     list_ascii_of_string row <> [] /\ without (ascii_of_nat 10) row) ->
  Forall2 (fun row line => line = row \/ line = (row ++ newline)%string)
    rows (file_lines (join newline rows)).
Proof.
  induction rows as [|x rows IH]; intro Hrows; [constructor|].
  destruct (Hrows x (or_introl eq_refl)) as [Hx Hnl].
  destruct rows as [|y rest].
  - cbn [join]. unfold file_lines.
    rewrite (file_lines_from_clean _ [] Hx Hnl). cbn [rev app map].
    rewrite string_of_list_ascii_of_string. constructor; [now left|constructor].
  - change (join newline (x :: y :: rest))
      with (x ++ newline ++ join newline (y :: rest))%string.
    unfold file_lines.
    rewrite list_ascii_of_string_app.
    change (list_ascii_of_string (newline ++ join newline (y :: rest)))
      with (ascii_of_nat 10 :: list_ascii_of_string (join newline (y :: rest))).
    rewrite (file_lines_from_newline _ _ [] Hnl). cbn [rev app map].
    constructor.
    + right. rewrite string_of_list_ascii_app, string_of_list_ascii_of_string.
      reflexivity.
    + apply IH. intros row Hrow. apply Hrows. now right.
Qed.

Lemma scan_count_rows (b : string -> nat) (ks : list string) :
  (forall k, In k ks ->
     list_ascii_of_string k <> [] /\
     Forall (fun c => is_space c = false) (list_ascii_of_string k)) ->
  forall lines,
    Forall2 (fun row line => line = row \/ line = (row ++ newline)%string)
      (map (fun k => count_row k (b k)) ks) lines ->
    forall k count0, In k ks ->
      scan_count lines k count0 = Return (Some (Z.of_nat (b k))).
Proof.
  induction ks as [|k' ks IH]; intros Hks lines Hlines k count0 Hin;
    [destruct Hin|].
  cbn [map] in Hlines. inversion Hlines as [|row line rows lines' Hline Hrest];
    subst.
  destruct (Hks k' (or_introl eq_refl)) as [Hne Hns].
  destruct (count_row_fields k' (b k') line Hne Hns Hline) as [Hstrip Hsplit].
  assert (Hfirst : has_first_field k line = String.eqb k' k).
  { unfold has_first_field, first_field. rewrite Hstrip.
    destruct (count_row k' (b k')) eqn:E.
    - discriminate Hsplit.
    - rewrite Hsplit. reflexivity. }
  destruct (String.eqb_spec k' k) as [->|Hdiff].
  - rewrite (scan_count_match _ _ _ _ Hfirst), Hstrip, Hsplit.
    unfold index. cbn [nth_error obind]. rewrite int_str. reflexivity.
  - rewrite (scan_count_skip _ _ _ _ Hfirst).
    apply IH; [intros; apply Hks; now right|exact Hrest|].
    destruct Hin; [contradiction|assumption].
Qed.

Lemma count_row_chars (k : string) (n : nat) :
  list_ascii_of_string k <> [] ->
  Forall (fun c => is_space c = false) (list_ascii_of_string k) ->
  list_ascii_of_string (count_row k n) <> [] /\
  without (ascii_of_nat 10) (count_row k n).
Proof.
  intros Hk Hns. destruct (str_chars n) as [_ Hnn].
  unfold count_row, without, tab. rewrite list_ascii_of_string_app. split.
  - intro H. now apply app_eq_nil in H as [H _].
  - intro H. apply in_app_or in H as [H|[H|H]].
    + rewrite Forall_forall in Hns. now specialize (Hns _ H).
    + discriminate.
    + rewrite Forall_forall in Hnn. now specialize (Hnn _ H).
Qed.

Lemma count_keys_chars (k : string) :
  In k count_keys ->
  list_ascii_of_string k <> [] /\
  Forall (fun c => is_space c = false) (list_ascii_of_string k).
Proof.
  unfold count_keys. rewrite in_map_iff. intros (n & <- & _). apply str_chars.
Qed.

(** X26. What [count_duplicates] writes is read back by the loop of
    the frequency cell: for each key and count that [count_duplicates]
    returns, scanning the lines of the written text for that key binds
    [count] to that count, whatever [count] was before. *)
Theorem count_duplicates_read_back (input_file output_dir : string)
    (lines : list string) (file : written) (counts : list (string * nat))
    (k : string) (n : nat) (count0 : option Z) :
  count_duplicates input_file lines output_dir = Return (file, counts) ->
  In (k, n) counts ->
  scan_count (file_lines (out_text file)) k count0 =
  Return (Some (Z.of_nat n)).
Proof.
  intros Hret Hin.
  pose proof (count_duplicates_returns _ _ _ _ Hret) as Hkeys.
  pose proof (count_duplicates_run input_file output_dir lines Hkeys) as Hrun.
  remember (map (fun k => (k, occurrences lines k)) count_keys)
    as table eqn:Etable in Hrun.
  remember (join newline
              (map (fun k => count_row k (occurrences lines k)) count_keys))
    as text eqn:Etext in Hrun.
  rewrite Hret in Hrun. injection Hrun as -> ->. cbn [out_text].
  rewrite Etable in Hin. rewrite Etext. clear Etable Etext Hret.
  apply in_map_iff in Hin as (k' & Hk' & Hin).
  injection Hk' as -> <-.
  apply (scan_count_rows (occurrences lines) count_keys count_keys_chars);
    [|exact Hin].
  apply file_lines_join. intros row Hrow.
  apply in_map_iff in Hrow as (k0 & <- & Hk0).
  destruct (count_keys_chars k0 Hk0). now apply count_row_chars.
Qed.

Lemma count_duplicates_read_back_witness :
  exists file counts,
    count_duplicates "./pools/A-B_dedup_pool_vj-aa_with-counts.txt"
      ["1 IGHV1-2 CARDYW"; ""; "2 IGHV3-23 CAKDLW"; "1 IGHV4-34 CARGYW"]
      "./counts" = Return (file, counts) /\
    In ("1", 2) counts /\
    scan_count (file_lines (out_text file)) "1" None = Return (Some 2%Z).
Proof.
  eexists. eexists. split; [lazy; reflexivity|].
  split; [left; reflexivity|].
  eapply (count_duplicates_read_back
            "./pools/A-B_dedup_pool_vj-aa_with-counts.txt" "./counts"
            ["1 IGHV1-2 CARDYW"; ""; "2 IGHV3-23 CAKDLW"; "1 IGHV4-34 CARGYW"]
            _ _ "1" 2 None); [lazy; reflexivity|left; reflexivity].
Defined.

(** ** The name of the file [count_duplicates] writes *)

Lemma split_on_from_pieces (sep : ascii) (cs : list ascii) :
  forall word piece, In piece (split_on_from sep cs word) ->
    forall c, In c piece -> In c word \/ (In c cs /\ c <> sep).
Proof.
  induction cs as [|c0 cs IH]; intros word piece Hpiece c Hc.
  - destruct Hpiece as [<-|[]]. left. now apply in_rev.
  - cbn [split_on_from] in Hpiece.
    destruct (Ascii.eqb_spec c0 sep) as [->|Hne].
    + destruct Hpiece as [<-|Hpiece]; [left; now apply in_rev|].
      destruct (IH [] piece Hpiece c Hc) as [[]|[H1 H2]].
      right. split; [now right|exact H2].
    + destruct (IH (c0 :: word) piece Hpiece c Hc) as [[<-|H]|[H1 H2]].
      * right. split; [now left|exact Hne].
      * now left.
      * right. split; [now right|exact H2].
Qed.

Lemma split_on_pieces (sep : ascii) (s piece : string) :
  In piece (split_on sep s) ->
  without sep piece /\
  forall c, In c (list_ascii_of_string piece) ->
            In c (list_ascii_of_string s).
Proof.
  unfold split_on, without. rewrite in_map_iff. intros (p & <- & Hp).
  rewrite list_ascii_of_string_of_list_ascii. split.
  - intro Hc. destruct (split_on_from_pieces _ _ _ _ Hp _ Hc) as [[]|[_ H]].
    now apply H.
  - intros c Hc. destruct (split_on_from_pieces _ _ _ _ Hp _ Hc) as [[]|[H _]].
    exact H.
Qed.

Lemma split_on_nonempty (sep : ascii) (s : string) : split_on sep s <> [].
Proof.
  unfold split_on. intro H. apply map_eq_nil in H.
  exact (split_on_from_nonempty _ _ _ H).
Qed.

Lemma basename_without_slash (p : string) : without "/" (basename p).
Proof.
  unfold basename.
  destruct (exists_last (split_on_nonempty "/" p)) as (l & piece & E).
  rewrite E, last_last. apply (split_on_pieces "/" p piece).
  rewrite E. apply in_or_app. right. now left.
Qed.

Lemma basename_clean (base : string) :
  without "/" base -> basename base = base.
Proof.
  intro Hno. unfold basename, split_on.
  rewrite (split_on_from_clean "/" _ [] Hno). cbn [rev app map last].
  apply string_of_list_ascii_of_string.
Qed.

Lemma subject_prefix_chars (file : string) :
  without "_" (subject_prefix file) /\ without "/" (subject_prefix file).
Proof.
  unfold subject_prefix.
  destruct (split_on "_" (basename file)) as [|piece rest] eqn:E;
    [now contradiction (split_on_nonempty "_" (basename file))|].
  cbn [hd].
  destruct (split_on_pieces "_" (basename file) piece) as [H1 H2];
    [rewrite E; now left|].
  split; [exact H1|]. intro H. exact (basename_without_slash file (H2 _ H)).
Qed.

Lemma last_or_nil {A : Type} (l : list A) :
  l = [] \/ exists l' x, l = l' ++ [x].
Proof. induction l using rev_ind; [now left|right; eauto]. Qed.

Lemma string_app_assoc (a b c : string) :
  (a ++ (b ++ c))%string = ((a ++ b) ++ c)%string.
Proof. induction a as [|x a IH]; [reflexivity|]. cbn. now rewrite IH. Qed.

Lemma not_slash {A : Type} (x : ascii) (u v : A) :
  x <> "/"%char -> match x with "/"%char => u | _ => v end = v.
Proof.
  intro Hx. destruct x as [[] [] [] [] [] [] [] []]; try reflexivity.
  now contradiction Hx.
Qed.

Lemma path_join_cases (dir base : string) :
  without "/" base ->
  path_join dir base = base \/
  exists d, path_join dir base = (d ++ "/" ++ base)%string.
Proof.
  intro Hno.
  assert (E : path_join dir base =
              match last (list_ascii_of_string dir) "/"%char with
              | "/"%char => (dir ++ base)%string
              | _ => (dir ++ "/" ++ base)%string
              end).
  { unfold path_join. destruct base as [|c base']; [reflexivity|].
    apply (not_slash c). intro. subst c. apply Hno. now left. }
  rewrite E. clear E.
  destruct (last_or_nil (list_ascii_of_string dir)) as [E|(l & x & E)].
  - rewrite E. cbn [last].
    assert (dir = EmptyString) as ->
        by (rewrite <- (string_of_list_ascii_of_string dir), E; reflexivity).
    now left.
  - rewrite E, last_last. right.
    destruct (Ascii.eqb_spec x "/") as [->|Hx].
    + exists (string_of_list_ascii l).
      rewrite <- (string_of_list_ascii_of_string dir) at 1.
      rewrite E, string_of_list_ascii_app. symmetry. apply string_app_assoc.
    + exists dir. now apply not_slash.
Qed.

Lemma basename_path_join (dir base : string) :
  without "/" base -> basename (path_join dir base) = base.
Proof.
  intro Hno. destruct (path_join_cases dir base Hno) as [->|[d ->]].
  - now apply basename_clean.
  - now apply basename_of_path.
Qed.

Lemma subject_prefix_written (input_file output_dir : string) :
  subject_prefix
    (path_join output_dir
       (subject_prefix input_file ++ "_occurrence-counts.txt")) =
  subject_prefix input_file.
Proof.
  destruct (subject_prefix_chars input_file) as [Hunder Hslash].
  set (prefix := subject_prefix input_file) in *.
  unfold subject_prefix at 1. rewrite basename_path_join.
  - unfold split_on. rewrite list_ascii_of_string_app.
    change (list_ascii_of_string "_occurrence-counts.txt")
      with ("_"%char :: list_ascii_of_string "occurrence-counts.txt").
    rewrite (split_on_from_sep "_" _ _ [] Hunder).
    cbn [map hd rev app]. apply string_of_list_ascii_of_string.
  - unfold without. rewrite list_ascii_of_string_app, in_app_iff.
    intros [H|H]; [exact (Hslash H)|].
    revert H. vm_compute. intuition discriminate.
Qed.

(** X27. The file [count_duplicates] writes is named after the same
    subjects as the file it read: the frequency cell's parsing of the name
    of the written file gives the prefix and the subjects of the input
    file, whatever the output directory is. *)
Theorem count_duplicates_file_name (input_file output_dir : string)
    (lines : list string) (file : written) (counts : list (string * nat)) :
  count_duplicates input_file lines output_dir = Return (file, counts) ->
  subject_prefix (out_path file) = subject_prefix input_file /\
  group_subjects (out_path file) = group_subjects input_file.
Proof.
  intro Hret.
  pose proof (count_duplicates_returns _ _ _ _ Hret) as Hkeys.
  pose proof (count_duplicates_run input_file output_dir lines Hkeys) as Hrun.
  rewrite Hret in Hrun. injection Hrun as -> _. cbn [out_path].
  pose proof (subject_prefix_written input_file output_dir) as Hprefix.
  split; [exact Hprefix|].
  unfold group_subjects. now rewrite Hprefix.
Qed.

Lemma count_duplicates_file_name_witness :
  exists file counts,
    count_duplicates "./pools/A-B_dedup_pool_vj-aa_with-counts.txt"
      ["1 IGHV1-2 CARDYW"; ""; "2 IGHV3-23 CAKDLW"; "1 IGHV4-34 CARGYW"]
      "./counts/" = Return (file, counts) /\
    subject_prefix (out_path file) =
    subject_prefix "./pools/A-B_dedup_pool_vj-aa_with-counts.txt" /\
    group_subjects (out_path file) =
    group_subjects "./pools/A-B_dedup_pool_vj-aa_with-counts.txt".
Proof.
  eexists. eexists. split; [lazy; reflexivity|].
  eapply (count_duplicates_file_name
            "./pools/A-B_dedup_pool_vj-aa_with-counts.txt" "./counts/"
            ["1 IGHV1-2 CARDYW"; ""; "2 IGHV3-23 CAKDLW"; "1 IGHV4-34 CARGYW"]).
  lazy. reflexivity.
Defined.

(** ** The frequency cell on a file written by [count_duplicates] *)

Lemma count_duplicates_written (input_file output_dir : string)
    (lines : list string) (file : written) (counts : list (string * nat)) :
  count_duplicates input_file lines output_dir = Return (file, counts) ->
  group_subjects (out_path file) = group_subjects input_file /\
  forall k count0, In k count_keys ->
    scan_count (file_lines (out_text file)) k count0 =
    Return (Some (Z.of_nat (occurrences lines k))).
Proof.
  intro Hret.
  pose proof (count_duplicates_returns _ _ _ _ Hret) as Hkeys.
  pose proof (count_duplicates_run input_file output_dir lines Hkeys) as Hrun.
  rewrite Hret in Hrun. injection Hrun as -> _. cbn [out_path out_text].
  split.
  - unfold group_subjects. now rewrite subject_prefix_written.
  - intros k count0 Hk.
    apply (scan_count_rows (occurrences lines) count_keys count_keys_chars);
      [|exact Hk].
    apply file_lines_join. intros row Hrow.
    apply in_map_iff in Hrow as (k0 & <- & Hk0).
    destruct (count_keys_chars k0 Hk0). now apply count_row_chars.
Qed.

(** X28. On a file written by [count_duplicates] for a pool of at most
    ten subjects, an iteration of the frequency cell never uses a [count]
    left by an earlier file and never finds [count] unbound: the frequency
    it records is the number of lines of the pool that start with the
    number of subjects, divided by the smallest of the subjects' sizes. *)
Theorem frequency_step_on_written_counts (input_file output_dir : string)
    (lines : list string) (file : written) (counts : list (string * nat))
    (subject_sizes : list (string * Z)) (state : frequencies)
    (sizes : list Z) (freqs : list R) :
  let subjects := group_subjects input_file in
  let n := List.length subjects in
  count_duplicates input_file lines output_dir = Return (file, counts) ->
  n <= 10 ->
  sizes_of subject_sizes subjects = Return sizes ->
  min_Z sizes <> 0%Z ->
  dict_get Nat.eqb (by_group_size state) n = Return freqs ->
  let c := Z.of_nat (occurrences lines (str n)) in
  let freq := (1 * IZR c / IZR (min_Z sizes))%R in
  frequency_step subject_sizes state
    (out_path file, file_lines (out_text file)) =
  Done (mk_frequencies (Some c)
          (by_group state ++ [(join ", " subjects, (100 * freq)%R)])
          (dict_set Nat.eqb (by_group_size state) n (freqs ++ [freq]))).
Proof.
  intros subjects n Hret Hn Hsizes Hmin Hget c freq.
  destruct (count_duplicates_written _ _ _ _ _ Hret) as [Hsubjects Hscan].
  unfold frequency_step. cbn [fst snd]. rewrite Hsubjects.
  fold subjects. fold n. rewrite Hsizes.
  rewrite Hscan.
  - apply Z.eqb_neq in Hmin. rewrite Hmin, Hget. reflexivity.
  - unfold count_keys. apply in_map, in_seq.
    pose proof (group_subjects_nonempty input_file). fold subjects n in H. lia.
Qed.

Lemma frequency_step_on_written_counts_witness :
  exists file counts,
    count_duplicates "./pools/A-B_dedup_pool_vj-aa_with-counts.txt"
      ["1 IGHV1-2 CARDYW"; ""; "2 IGHV3-23 CAKDLW"; "1 IGHV4-34 CARGYW"]
      "./counts/" = Return (file, counts) /\
    frequency_step [("A", 200%Z); ("B", 50%Z)]
      (mk_frequencies (Some 30%Z) [] [(1, []); (2, [])])
      (out_path file, file_lines (out_text file)) =
    Done (mk_frequencies (Some 1%Z)
            [("A, B", (100 * (1 * IZR 1 / IZR 50))%R)]
            [(1, []); (2, [(1 * IZR 1 / IZR 50)%R])]).
Proof.
  eexists. eexists. split; [lazy; reflexivity|].
  eapply (frequency_step_on_written_counts
            "./pools/A-B_dedup_pool_vj-aa_with-counts.txt" "./counts/"
            ["1 IGHV1-2 CARDYW"; ""; "2 IGHV3-23 CAKDLW"; "1 IGHV4-34 CARGYW"]
            _ _ [("A", 200%Z); ("B", 50%Z)]
            (mk_frequencies (Some 30%Z) [] [(1, []); (2, [])])
            [200%Z; 50%Z] []).
  - lazy. reflexivity.
  - vm_compute. lia.
  - reflexivity.
  - discriminate.
  - reflexivity.
Defined.
